(** * sheets.js: the cross-sheet wallet store of the Monadians wallet collector

    A shallow embedding of [src/sheets.js].  The module keeps one record per
    Discord user in one of three spreadsheet tabs ("Monadians", "Monarch",
    "Monalista"), chosen by the user's role label, and talks to the remote
    spreadsheet service through [callWithRetry].

    Layout of the development:
    - JavaScript values, errors and the effect monad;
    - [callWithRetry] (retry with exponential backoff);
    - a model of the remote spreadsheet service (the [Sheets] endpoints the
      module calls);
    - the functions of [sheets.js], in source order;
    - pure descriptions of their effect on the spreadsheet, and the theorems. *)

From Stdlib Require Import ZArith Lia Bool Ascii String.
From stdpp Require Import base tactics option list strings gmap sorting.

Local Open Scope string_scope.
Local Open Scope list_scope.
Local Open Scope Z_scope.

(** ** JavaScript values used by the module *)

(** The fields of a thrown error that [callWithRetry] inspects hold either
    nothing, a number or a string.  Numbers are the integer-valued ones; a
    fractional number behaves like any other number different from 429. *)
Inductive jsval : Type :=
| JUndef
| JNum (z : Z)
| JStr (s : string).

(** Truthiness, as used by [||]. *)
Definition truthy (v : jsval) : bool :=
  match v with
  | JUndef => false
  | JNum z => negb (z =? 0)
  | JStr s => negb (String.eqb s "")
  end.

(** [a || b] *)
Definition js_or (a b : jsval) : jsval := if truthy a then a else b.

(** [a === b] on these values. *)
Definition js_strict_eq (a b : jsval) : bool :=
  match a, b with
  | JUndef, JUndef => true
  | JNum x, JNum y => x =? y
  | JStr x, JStr y => String.eqb x y
  | _, _ => false
  end.

(** A thrown error, reduced to the properties read at sheets.js:59-60:
    [err.code], [err.status], [err.response.status], [err.cause.code] and
    [err.cause.status]. *)
Record JsError : Type := mkError {
  err_code : jsval;
  err_status : jsval;
  err_response_status : jsval;
  err_cause_code : jsval;
  err_cause_status : jsval
}.

(** An error with none of the inspected properties, such as a [TypeError]. *)
Definition plain_error : JsError := mkError JUndef JUndef JUndef JUndef JUndef.

(** The service's answer to a malformed or unsatisfiable request (HTTP 400). *)
Definition bad_request : JsError := mkError (JNum 400) JUndef JUndef JUndef JUndef.

(** The service's rate-limit answer (HTTP 429). *)
Definition too_many_requests : JsError := mkError (JNum 429) JUndef JUndef JUndef JUndef.

(** ** Outcomes and the effect monad *)

Inductive outcome (A : Type) : Type :=
| Ok (a : A)
| Throw (e : JsError).
Arguments Ok {A} a.
Arguments Throw {A} e.

(** The world of a running call: the state of the remote service, the delays
    handed to [setTimeout] so far (oldest first), and the source of
    randomness behind [Math.random]. *)
Record World (St : Type) : Type := mkWorld {
  remote : St;
  slept : list Z;
  entropy : list Z
}.
Arguments mkWorld {St} _ _ _.
Arguments remote {St} _.
Arguments slept {St} _.
Arguments entropy {St} _.

Definition set_remote {St} (s : St) (w : World St) : World St :=
  mkWorld s (slept w) (entropy w).

(** A request to the remote service: it sees and changes the remote state
    only.  A request that throws leaves whatever state it returns. *)
Definition Api (St A : Type) : Type := St -> outcome A * St.

(** An [async] function of the module.  State changes made before an
    exception stay made: there is no rollback. *)
Definition M (St A : Type) : Type := World St -> outcome A * World St.

Definition ret {St A} (a : A) : M St A := fun w => (Ok a, w).

Definition throw {St A} (e : JsError) : M St A := fun w => (Throw e, w).

Definition bind {St A B} (m : M St A) (k : A -> M St B) : M St B :=
  fun w =>
    match m w with
    | (Ok a, w') => k a w'
    | (Throw e, w') => (Throw e, w')
    end.

Declare Scope js_scope.
Delimit Scope js_scope with js.
Notation "x <- m ;; k" := (bind m (fun x => k))
  (at level 100, m at next level, right associativity) : js_scope.
Notation "m ;; k" := (bind m (fun _ => k))
  (at level 100, right associativity) : js_scope.
Local Open Scope js_scope.

(** [for (const x of xs) body(x)] with no [break]. *)
Fixpoint for_of {St X} (xs : list X) (body : X -> M St unit) : M St unit :=
  match xs with
  | [] => ret tt
  | x :: rest => body x ;; for_of rest body
  end.

(** [Math.floor(Math.random() * n)]: the next entry of the entropy source,
    reduced into [0, n).  An exhausted source yields 0. *)
Definition random_floor {St} (n : Z) (w : World St) : Z * World St :=
  match entropy w with
  | [] => (0, w)
  | r :: rest => (r mod n, mkWorld (remote w) (slept w) rest)
  end.

(** [await new Promise((r) => setTimeout(r, ms))] *)
Definition sleep {St} (ms : Z) (w : World St) : World St :=
  mkWorld (remote w) (slept w ++ [ms]) (entropy w).

(** ** sheets.js:33-48: sheet names and the role resolver *)

Module SHEET_NAMES.
Definition MONADIANS : string := "Monadians".
Definition MONARCH : string := "Monarch".
Definition MONALISTA : string := "Monalista".
End SHEET_NAMES.

(** [Object.values(SHEET_NAMES)]: own string keys, in insertion order. *)
Definition SHEET_NAME_VALUES : list string :=
  [SHEET_NAMES.MONADIANS; SHEET_NAMES.MONARCH; SHEET_NAMES.MONALISTA].

Definition HEADER_ROW : list string :=
  ["Discord Username"; "Discord ID"; "EVM Wallet"; "Role"].

(** [String.prototype.toLowerCase] on the ASCII letters.  Strings are kept
    as their bytes; outside ASCII, JavaScript lowers further letters, but
    none of them to a letter of the three labels compared against below, so
    the comparisons at sheets.js:44-46 come out the same. *)
Definition lower_ascii (c : ascii) : ascii :=
  let n := nat_of_ascii c in
  if (65 <=? n)%nat && (n <=? 90)%nat then ascii_of_nat (n + 32) else c.

Fixpoint toLowerCase (s : string) : string :=
  match s with
  | EmptyString => EmptyString
  | String c rest => String (lower_ascii c) (toLowerCase rest)
  end.

(** A role label is a string, or absent ([undefined] or [null]). *)
Definition getSheetNameForRole (role : option string) : option string :=
  let normalized := toLowerCase (default "" role) in
  if String.eqb normalized "monadian" then Some SHEET_NAMES.MONADIANS
  else if String.eqb normalized "monarch" then Some SHEET_NAMES.MONARCH
  else if String.eqb normalized "monalista" then Some SHEET_NAMES.MONALISTA
  else None.

(** ** sheets.js:50-68: callWithRetry *)

Definition maxAttempts : Z := 5.

(** sheets.js:59-60 *)
Definition isRateLimited (err : JsError) : bool :=
  let status :=
    js_or (err_code err)
      (js_or (err_status err)
         (js_or (err_response_status err) (err_cause_code err))) in
  js_strict_eq status (JNum 429)
  || js_strict_eq (err_cause_status err) (JStr "RESOURCE_EXHAUSTED").

Section Retry.
Context {St A : Type}.
Variable requestFn : Api St A.

(** One run of [requestFn] inside a world. *)
Definition attempt_once (w : World St) : outcome A * World St :=
  let '(r, s) := requestFn (remote w) in (r, set_remote s w).

(** The [while (true)] loop.  [fuel] bounds the number of iterations that
    the model follows; [None] means the loop is still running when the
    fuel is spent. *)
Fixpoint retry_loop (fuel : nat) (attempt delayMs : Z) (w : World St)
  : option (outcome A * World St) :=
  match fuel with
  | O => None
  | S fuel' =>
    match attempt_once w with
    | (Ok v, w1) => Some (Ok v, w1)
    | (Throw err, w1) =>
      let attempt := attempt + 1 in
      if negb (isRateLimited err) || (attempt >=? maxAttempts)
      then Some (Throw err, w1)
      else
        let '(jitter, w2) := random_floor 250 w1 in
        let w3 := sleep (delayMs + jitter) w2 in
        retry_loop fuel' attempt (Z.min (delayMs * 2) 15000) w3
    end
  end.

(** [callWithRetry(requestFn)].  Five iterations are enough for the loop
    to leave (lemma [retry_loop_terminates]), so the last branch is never
    taken. *)
Definition callWithRetry : M St A :=
  fun w =>
    match retry_loop (Z.to_nat maxAttempts) 0 1000 w with
    | Some r => r
    | None => (Throw plain_error, w)
    end.
End Retry.

(** ** The remote spreadsheet service

    Modelled from the spec: the Sheets client ([googleapis]) is not in the
    repository.  The module reaches the spreadsheet through five of its
    endpoints, [spreadsheets.get], [spreadsheets.batchUpdate] (with
    [addSheet] or [deleteDimension] requests), [spreadsheets.values.get],
    [spreadsheets.values.update] and [spreadsheets.values.append]: the
    [listPartitions], [createPartition], [deleteRows], [read], [write] and
    [append] of the specification's remote table client.  This section fixes
    the behaviour the development assumes of them.

    A sheet (tab) is the list of its rows, row 1 first, up to the last row
    that holds a value; a row is the list of its cells, column A first.
    Sheets are identified by their title (the service keeps titles unique;
    the numeric sheet id the module fetches only serves to name the sheet in
    a [deleteDimension] request).  Rows past the end of the list are empty
    rows of the grid, and the grid is not bounded.  Cell lists are kept as
    they were written: the service's trimming of trailing empty cells is not
    modelled.  The service modelled here never answers with a rate limit;
    it rejects a request only when the request is malformed. *)

Abbreviation Row := (list string) (only parsing).
Abbreviation Grid := (list (list string)) (only parsing).

(** The requests that change the spreadsheet, as the service receives them. *)
Inductive Request : Type :=
| AddSheets (titles : list string)
| DeleteRows (title : string) (startIndex endIndex : Z)
| ValuesUpdate (title : string) (col : nat) (row : Z) (values : list string)
| ValuesAppend (title : string) (values : list string).

#[global] Instance Request_eq_dec : EqDecision Request.
Proof. solve_decision. Defined.

Record Remote : Type := mkRemote {
  sheets : gmap string (list (list string));
  requests : list Request
}.

(** *** The effect of each request on the sheets *)

Definition add_sheets (titles : list string) (ss : gmap string (list (list string)))
  : gmap string (list (list string)) :=
  foldr (fun t acc => <[t := []]> acc) ss titles.

(** Rows [startIndex, endIndex) (0-based) leave the grid; later rows move up. *)
Definition delete_rows (startIndex endIndex : Z) (g : Grid) : Grid :=
  take (Z.to_nat startIndex) g ++ drop (Z.to_nat endIndex) g.

(** The rows [firstRow .. lastRow] (1-based, to the end without [lastRow]),
    columns A to D. *)
Definition window (firstRow : Z) (lastRow : option Z) (g : Grid) : Grid :=
  let from := drop (Z.to_nat (firstRow - 1)) g in
  map (take 4)
    (match lastRow with
     | None => from
     | Some l => take (Z.to_nat (l - firstRow + 1)) from
     end).

(** Writing [vals] into a row from column [col] (0-based) on; cells to the
    left that did not exist become empty cells. *)
Definition set_cells (col : nat) (vals : list string) (old : Row) : Row :=
  take col (old ++ replicate (col - length old) "")
  ++ vals ++ drop (col + length vals) old.

(** Writing into row [row] (1-based); missing rows before it become empty. *)
Definition update_row (col : nat) (row : Z) (vals : list string) (g : Grid) : Grid :=
  let n := Z.to_nat (row - 1) in
  let padded := g ++ replicate (S n - length g) [] in
  <[n := set_cells col vals (default [] (g !! n))]> padded.

(** Appending below the data of a range that starts at row 2: the new row
    goes after the last row, and not above row 2. *)
Definition append_row (vals : list string) (g : Grid) : Grid :=
  match g with
  | [] => [[]; vals]
  | _ => g ++ [vals]
  end.

(** *** The endpoints *)

Definition with_sheet {A} (title : string) (r : Remote)
    (k : Grid -> outcome A * Remote) : outcome A * Remote :=
  match sheets r !! title with
  | Some g => k g
  | None => (Throw bad_request, r)
  end.

Definition commit (title : string) (g : Grid) (req : Request) (r : Remote) : Remote :=
  mkRemote (<[title := g]> (sheets r)) (requests r ++ [req]).

(** Modelled from the spec: [sheetsApi.spreadsheets.get({ spreadsheetId })]
    ([listPartitions]), reduced to the titles of [data.sheets]. *)
Definition spreadsheets_get : Api Remote (gset string) :=
  fun r => (Ok (dom (sheets r)), r).

(** Modelled from the spec: [sheetsApi.spreadsheets.batchUpdate] with one
    [addSheet] request per title ([createPartition]).  A title that exists
    already makes the whole batch fail. *)
Definition batchUpdate_addSheet (titles : list string) : Api Remote unit :=
  fun r =>
    if bool_decide (NoDup titles) && forallb (fun t => bool_decide (t ∉ dom (sheets r))) titles
    then (Ok tt, mkRemote (add_sheets titles (sheets r)) (requests r ++ [AddSheets titles]))
    else (Throw bad_request, r).

(** Modelled from the spec: [sheetsApi.spreadsheets.batchUpdate] with one
    [deleteDimension] request over [dimension: 'ROWS'] ([deleteRows]). *)
Definition batchUpdate_deleteDimension (title : string) (startIndex endIndex : Z)
  : Api Remote unit :=
  fun r =>
    if (0 <=? startIndex) && (startIndex <? endIndex)
    then with_sheet title r (fun g =>
           (Ok tt, commit title (delete_rows startIndex endIndex g)
                     (DeleteRows title startIndex endIndex) r))
    else (Throw bad_request, r).

(** Modelled from the spec: [sheetsApi.spreadsheets.values.get] ([read])
    over the range [title!A<firstRow>:D<lastRow>], or [title!A<firstRow>:D]
    without [lastRow]; the result is [data.values], with [[]] for an absent
    one. *)
Definition values_get (title : string) (firstRow : Z) (lastRow : option Z)
  : Api Remote (list (list string)) :=
  fun r =>
    if 1 <=? firstRow
    then with_sheet title r (fun g => (Ok (window firstRow lastRow g), r))
    else (Throw bad_request, r).

(** Modelled from the spec: [sheetsApi.spreadsheets.values.update]
    ([write]) of one row of values over the range that starts at column
    [col] of row [row] and is as wide as [vals], [valueInputOption: 'RAW']. *)
Definition values_update (title : string) (col : nat) (row : Z) (vals : list string)
  : Api Remote unit :=
  fun r =>
    if 1 <=? row
    then with_sheet title r (fun g =>
           (Ok tt, commit title (update_row col row vals g)
                     (ValuesUpdate title col row vals) r))
    else (Throw bad_request, r).

(** Modelled from the spec: [sheetsApi.spreadsheets.values.append]
    ([append]) of one row over [title!A2:D],
    [insertDataOption: 'INSERT_ROWS']. *)
Definition values_append (title : string) (vals : list string) : Api Remote unit :=
  fun r =>
    with_sheet title r (fun g =>
      (Ok tt, commit title (append_row vals g) (ValuesAppend title vals) r)).

(** ** sheets.js:70-108: ensureSheetSetup *)

(** [xs.some((x, i) => f(x, i))] *)
Definition array_some {X} (f : X -> nat -> bool) (xs : list X) : bool :=
  existsb (fun p => f (snd p) (fst p)) (imap pair xs).

(** sheets.js:99 *)
Definition header_needs_write (firstRow : Row) : bool :=
  (length firstRow =? 0)%nat
  || array_some (fun h i => negb (bool_decide (firstRow !! i = Some h))) HEADER_ROW.

Definition ensureSheetSetup : M Remote unit :=
  existingSheets <- callWithRetry spreadsheets_get ;;
  let sheetsToCreate :=
    filter (fun sheetName => sheetName ∉ existingSheets) SHEET_NAME_VALUES in
  (if (0 <? length sheetsToCreate)%nat
   then callWithRetry (batchUpdate_addSheet sheetsToCreate)
   else ret tt) ;;
  for_of SHEET_NAME_VALUES (fun sheetName =>
    current <- callWithRetry (values_get sheetName 1 (Some 1)) ;;
    let firstRow := default [] (current !! 0%nat) in
    if header_needs_write firstRow
    then callWithRetry (values_update sheetName 0 1 HEADER_ROW)
    else ret tt).

(** ** sheets.js:171-194: deleteRowFromSheet *)

(** Row numbers are JavaScript numbers, kept here as integers.  Up to 2^53
    the integers are exact and [rowNumber - 1] (sheets.js:187) is the
    predecessor, as below; above, the subtraction rounds (to [rowNumber - 2]
    or to [rowNumber] itself).  The row numbers that the module computes are
    positions in a response plus 2.  A theorem about row numbers that a
    caller hands in states the bound 2^53. *)
Definition deleteRowFromSheet (sheetName : string) (rowNumber : Z) : M Remote unit :=
  titles <- callWithRetry spreadsheets_get ;;
  if bool_decide (sheetName ∈ titles)
  then callWithRetry (batchUpdate_deleteDimension sheetName (rowNumber - 1) rowNumber)
  else ret tt.

(** ** sheets.js:110-169: upsertWallet *)

Record WalletInput : Type := mkInput {
  discordId : string;
  discordUsername : string;
  wallet : string;
  role : option string
}.

(** The [action] of the returned object. *)
Inductive UpsertAction : Type := skipped | inserted | updated.

Record Location : Type := mkLocation {
  loc_sheetName : string;
  loc_rowNumber : Z
}.

(** sheets.js:127-132: the index of the first row whose second cell is
    [discordId]; [i] is the index of the head of [rows]. *)
Fixpoint find_row (discordId : string) (rows : list (list string)) (i : nat) : option nat :=
  match rows with
  | [] => None
  | row :: rest =>
    if bool_decide (row !! 1%nat = Some discordId) then Some i
    else find_row discordId rest (S i)
  end.

(** sheets.js:120-134: the scan for the user's current location. *)
Fixpoint locate_existing (discordId : string) (sheetNames : list string)
  : M Remote (option Location) :=
  match sheetNames with
  | [] => ret None
  | sheetName :: rest =>
    rows <- callWithRetry (values_get sheetName 2 None) ;;
    match find_row discordId rows 0 with
    | Some i => ret (Some (mkLocation sheetName (Z.of_nat i + 2)))
    | None => locate_existing discordId rest
    end
  end.

Definition upsertWallet (input : WalletInput) : M Remote UpsertAction :=
  ensureSheetSetup ;;
  match getSheetNameForRole (role input) with
  | None => ret skipped
  | Some targetSheet =>
    found <- locate_existing (discordId input) SHEET_NAME_VALUES ;;
    existingLocation <-
      match found with
      | Some loc =>
        if negb (String.eqb (loc_sheetName loc) targetSheet)
        then deleteRowFromSheet (loc_sheetName loc) (loc_rowNumber loc) ;; ret None
        else ret (Some loc)
      | None => ret None
      end ;;
    let values :=
      [discordUsername input; discordId input; wallet input; default "" (role input)] in
    match existingLocation with
    | None => callWithRetry (values_append targetSheet values) ;; ret inserted
    | Some loc =>
      callWithRetry (values_update targetSheet 0 (loc_rowNumber loc) values) ;;
      ret updated
    end
  end.

(** ** sheets.js:196-212: getWallet *)

(** The returned object; a cell the row does not have reads as [undefined],
    here [None], except for [role], which falls back to the empty string. *)
Record WalletRecord : Type := mkRecord {
  rec_discordUsername : option string;
  rec_discordId : option string;
  rec_wallet : option string;
  rec_role : string
}.

Definition record_of_row (row : Row) : WalletRecord :=
  mkRecord (row !! 0%nat) (row !! 1%nat) (row !! 2%nat) (default "" (row !! 3%nat)).

(** sheets.js:205-209 *)
Fixpoint find_record (discordId : string) (rows : list (list string)) : option WalletRecord :=
  match rows with
  | [] => None
  | row :: rest =>
    if bool_decide (row !! 1%nat = Some discordId) then Some (record_of_row row)
    else find_record discordId rest
  end.

(** sheets.js:201-211 *)
Fixpoint getWallet_scan (discordId : string) (sheetNames : list string)
  : M Remote (option WalletRecord) :=
  match sheetNames with
  | [] => ret None
  | sheetName :: rest =>
    rows <- callWithRetry (values_get sheetName 2 None) ;;
    match find_record discordId rows with
    | Some r => ret (Some r)
    | None => getWallet_scan discordId rest
    end
  end.

Definition getWallet (discordId : string) : M Remote (option WalletRecord) :=
  ensureSheetSetup ;;
  getWallet_scan discordId SHEET_NAME_VALUES.

(** ** sheets.js:214-261: listWallets and listWalletsWithRow *)

Record WalletItem : Type := mkItem {
  item_discordUsername : string;
  item_discordId : string;
  item_wallet : string;
  item_role : string
}.

Record WalletItemWithRow : Type := mkItemWithRow {
  at_sheetName : string;
  at_rowNumber : Z;
  at_item : WalletItem
}.

(** [row[i] ?? ''] *)
Definition cell (row : Row) (i : nat) : string := default "" (row !! i).

Definition item_of_row (row : Row) : WalletItem :=
  mkItem (cell row 0) (cell row 1) (cell row 2) (cell row 3).

(** sheets.js:224-232 *)
Definition items_of_rows (rows : list (list string)) : list WalletItem :=
  omap (fun row => if (length row =? 0)%nat then None else Some (item_of_row row)) rows.

(** sheets.js:247-258 *)
Definition items_with_row (sheetName : string) (rows : list (list string))
  : list WalletItemWithRow :=
  omap (fun p : nat * list string =>
          if (length (snd p) =? 0)%nat then None
          else Some (mkItemWithRow sheetName (Z.of_nat (fst p) + 2) (item_of_row (snd p))))
       (imap pair rows).

Fixpoint listWallets_scan (sheetNames : list string) (items : list WalletItem)
  : M Remote (list WalletItem) :=
  match sheetNames with
  | [] => ret items
  | sheetName :: rest =>
    rows <- callWithRetry (values_get sheetName 2 None) ;;
    listWallets_scan rest (items ++ items_of_rows rows)
  end.

Definition listWallets : M Remote (list WalletItem) :=
  ensureSheetSetup ;;
  listWallets_scan SHEET_NAME_VALUES [].

Fixpoint listWalletsWithRow_scan (sheetNames : list string) (items : list WalletItemWithRow)
  : M Remote (list WalletItemWithRow) :=
  match sheetNames with
  | [] => ret items
  | sheetName :: rest =>
    rows <- callWithRetry (values_get sheetName 2 None) ;;
    listWalletsWithRow_scan rest (items ++ items_with_row sheetName rows)
  end.

Definition listWalletsWithRow : M Remote (list WalletItemWithRow) :=
  ensureSheetSetup ;;
  listWalletsWithRow_scan SHEET_NAME_VALUES [].

(** ** sheets.js:279-321: batchUpdateRoles *)

Record RoleUpdate : Type := mkUpdate {
  upd_sheetName : string;
  upd_rowNumber : Z;
  upd_discordId : string;
  upd_discordUsername : string;
  upd_wallet : string;
  upd_newRole : option string
}.

Record BatchResult : Type := mkBatchResult {
  res_updated : nat;
  res_moved : nat
}.

(** sheets.js:288-318, with the two counters as accumulators. *)
Fixpoint batchUpdateRoles_loop (updates : list RoleUpdate) (nupdated nmoved : nat)
  : M Remote BatchResult :=
  match updates with
  | [] => ret (mkBatchResult nupdated nmoved)
  | update :: rest =>
    let sheetName := upd_sheetName update in
    let rowNumber := upd_rowNumber update in
    let newRole := upd_newRole update in
    match getSheetNameForRole newRole with
    | None =>
      deleteRowFromSheet sheetName rowNumber ;;
      batchUpdateRoles_loop rest (S nupdated) nmoved
    | Some targetSheet =>
      if negb (String.eqb sheetName targetSheet)
      then
        deleteRowFromSheet sheetName rowNumber ;;
        upsertWallet (mkInput (upd_discordId update) (upd_discordUsername update)
                        (upd_wallet update) newRole) ;;
        batchUpdateRoles_loop rest nupdated (S nmoved)
      else
        callWithRetry (values_update sheetName 3 rowNumber [default "" newRole]) ;;
        batchUpdateRoles_loop rest (S nupdated) nmoved
    end
  end.

Definition batchUpdateRoles (updates : list RoleUpdate) : M Remote BatchResult :=
  if (length updates =? 0)%nat then ret (mkBatchResult 0 0)
  else ensureSheetSetup ;; batchUpdateRoles_loop updates 0%nat 0%nat.

(** ** sheets.js:323-349: batchDeleteRows *)

(** The [rowNumber] of an item: an integer, or any value for which
    [Number.isInteger] is false. *)
Inductive RowRef : Type :=
| RowInt (n : Z)
| RowOther.

(** An item; [del_sheetName] is [None] when the property is missing. *)
Record DeleteItem : Type := mkDeleteItem {
  del_sheetName : option string;
  del_rowNumber : RowRef
}.

(** sheets.js:334: the sheet name and row number of an item that is not
    skipped.  [!sheetName] holds for a missing name and for the empty one. *)
Definition accepted (item : DeleteItem) : option (string * Z) :=
  match del_sheetName item, del_rowNumber item with
  | Some sheetName, RowInt rowNumber =>
    if String.eqb sheetName "" || (rowNumber <? 2) then None
    else Some (sheetName, rowNumber)
  | _, _ => None
  end.

(** [bySheet] starts as [{}]: its own properties are kept in creation order,
    and it inherits the members of [Object.prototype], which read as truthy
    values without a [push] method. *)
Definition Object_prototype_keys : list string :=
  ["constructor"; "__defineGetter__"; "__defineSetter__"; "hasOwnProperty";
   "__lookupGetter__"; "__lookupSetter__"; "isPrototypeOf";
   "propertyIsEnumerable"; "toString"; "valueOf"; "__proto__"; "toLocaleString"].

(** sheets.js:335-336 on own properties: create the array if there is none,
    then push. *)
Fixpoint push_row (sheetName : string) (rowNumber : Z) (bySheet : list (string * list Z))
  : list (string * list Z) :=
  match bySheet with
  | [] => [(sheetName, [rowNumber])]
  | (k, rowNumbers) :: rest =>
    if String.eqb k sheetName then (k, rowNumbers ++ [rowNumber]) :: rest
    else (k, rowNumbers) :: push_row sheetName rowNumber rest
  end.

(** sheets.js:332-337.  For an inherited name line 335 creates nothing and
    line 336 throws a [TypeError]. *)
Fixpoint group_by_sheet (items : list DeleteItem) (bySheet : list (string * list Z))
  : outcome (list (string * list Z)) :=
  match items with
  | [] => Ok bySheet
  | item :: rest =>
    match accepted item with
    | None => group_by_sheet rest bySheet
    | Some (sheetName, rowNumber) =>
      if bool_decide (sheetName ∈ Object_prototype_keys) then Throw plain_error
      else group_by_sheet rest (push_row sheetName rowNumber bySheet)
    end
  end.

(** A property key that is an array index: the canonical decimal numeral of
    an integer in [0, 2^32 - 2]. *)
Definition digit_value (c : ascii) : option N :=
  let n := N_of_ascii c in
  if ((48 <=? n) && (n <=? 57))%N then Some (n - 48)%N else None.

Fixpoint parse_digits (s : string) (acc : N) : option N :=
  match s with
  | EmptyString => Some acc
  | String c rest =>
    match digit_value c with
    | Some d => parse_digits rest (10 * acc + d)%N
    | None => None
    end
  end.

Definition array_index (s : string) : option N :=
  match s with
  | EmptyString => None
  | String c rest =>
    if Ascii.eqb c "0" && negb (String.eqb rest "") then None
    else match parse_digits s 0%N with
         | Some n => if (n <? 4294967295)%N then Some n else None
         | None => None
         end
  end.

Definition index_le {V} (a b : N * V) : Prop := (fst a <= fst b)%N.

#[global] Instance index_le_dec {V} (a b : N * V) : Decision (index_le a b) :=
  decide (fst a <= fst b)%N.

(** [Object.entries(o)]: array-index keys first, in ascending numeric order,
    then the other keys in creation order. *)
Definition Object_entries {V} (o : list (string * V)) : list (string * V) :=
  let indexed := omap (fun e => (fun n => (n, e)) <$> array_index (fst e)) o in
  let named := filter (fun e => array_index (fst e) = None) o in
  map snd (merge_sort index_le indexed) ++ named.

(** [Array.from(new Set(xs))]: the first occurrence of each value, in order. *)
Definition array_from_set (xs : list Z) : list Z :=
  reverse (remove_dups (reverse xs)).

(** The order that the comparator [(a, b) => b - a] asks for. *)
Definition descending (a b : Z) : Prop := b <= a.

#[global] Instance descending_dec (a b : Z) : Decision (descending a b) :=
  decide (b <= a).

(** [xs.sort((a, b) => b - a)].  The comparator is a total order, so the
    result is the descending arrangement whatever the engine's algorithm. *)
Definition sort_descending (xs : list Z) : list Z :=
  merge_sort descending xs.

(** sheets.js:342-345 *)
Fixpoint delete_sorted (sheetName : string) (sorted : list Z) (deleted : nat)
  : M Remote nat :=
  match sorted with
  | [] => ret deleted
  | rowNumber :: rest =>
    deleteRowFromSheet sheetName rowNumber ;;
    delete_sorted sheetName rest (S deleted)
  end.

(** sheets.js:340-346 *)
Fixpoint delete_by_sheet (entries : list (string * list Z)) (deleted : nat)
  : M Remote nat :=
  match entries with
  | [] => ret deleted
  | (sheetName, rowNumbers) :: rest =>
    let sorted := sort_descending (array_from_set rowNumbers) in
    deleted' <- delete_sorted sheetName sorted deleted ;;
    delete_by_sheet rest deleted'
  end.

(** The result object [{ deleted }] is its count. *)
Definition batchDeleteRows (items : list DeleteItem) : M Remote nat :=
  ensureSheetSetup ;;
  if (length items =? 0)%nat then ret 0%nat
  else
    match group_by_sheet items [] with
    | Throw e => throw e
    | Ok bySheet => delete_by_sheet (Object_entries bySheet) 0%nat
    end.

(** The argument as a caller hands it over: an array of items, or any other
    value, for which [Array.isArray] is false (sheets.js:326). *)
Inductive ItemsArgument : Type :=
| NotAnArray
| ArrayOf (items : list DeleteItem).

(** batchDeleteRows on any argument; [batchDeleteRows] is its course on an
    array. *)
Definition batchDeleteRows_on (argument : ItemsArgument) : M Remote nat :=
  match argument with
  | NotAnArray => ensureSheetSetup ;; ret 0%nat
  | ArrayOf items => batchDeleteRows items
  end.

(** * Specifications *)

(** ** The role resolver, as the specification words it *)

Definition same_letter (a b : ascii) : bool :=
  Ascii.eqb (lower_ascii a) (lower_ascii b).

(** Equality of two strings up to the case of their ASCII letters. *)
Fixpoint eq_ignore_case (s t : string) : bool :=
  match s, t with
  | EmptyString, EmptyString => true
  | String a s', String b t' => same_letter a b && eq_ignore_case s' t'
  | _, _ => false
  end.

(** The fixed table of the three known labels and their partitions. *)
Definition known_labels : list (string * string) :=
  [("monadian", SHEET_NAMES.MONADIANS);
   ("monarch", SHEET_NAMES.MONARCH);
   ("monalista", SHEET_NAMES.MONALISTA)].

(** [resolvePartition] of the specification: look the label up in the table,
    ignoring case; anything else is [None]. *)
Definition resolvePartition_spec (roleLabel : string) : option string :=
  match List.find (fun entry => eq_ignore_case roleLabel (fst entry)) known_labels with
  | Some entry => Some (snd entry)
  | None => None
  end.

(** ** The retry policy, as the specification words it *)

(** The delay before the retry that follows the failed attempt number [i]
    (counted from 0), without jitter. *)
Definition base_delay (i : nat) : Z := Z.min (1000 * 2 ^ Z.of_nat i) 15000.

Section RetrySpec.
Context {St A : Type}.
Variable requestFn : Api St A.

(** What happens between a failed attempt number [i] and the next one: the
    jitter is drawn and the delay is waited for. *)
Definition back_off (i : nat) (w : World St) : World St :=
  let '(jitter, w') := random_floor 250 w in
  sleep (base_delay i + jitter) w'.

(** The world in which attempt number [k] starts, all earlier attempts
    having been retried. *)
Fixpoint world_before (k : nat) (w : World St) : World St :=
  match k with
  | O => w
  | S k' =>
    back_off k' (snd (attempt_once requestFn (world_before k' w)))
  end.

(** Attempt number [i] fails with a rate-limit signal. *)
Definition rate_limited_at (w : World St) (i : nat) : bool :=
  match fst (attempt_once requestFn (world_before i w)) with
  | Throw e => isRateLimited e
  | Ok _ => false
  end.
End RetrySpec.

(** A remote call that is rate limited four times and then answers. *)
Definition flaky_call : Api nat string :=
  fun calls =>
    if (calls <? 4)%nat then (Throw too_many_requests, S calls)
    else (Ok "done", S calls).


(** ** The sheets, read as the module reads them *)

(** The data rows of a sheet (row 2 on); a missing sheet has none. *)
Definition data_rows (ss : gmap string (list (list string))) (name : string) : Grid :=
  drop 1 (default [] (ss !! name)).

(** The cells A1:D1 of a sheet; nothing for a missing or empty sheet. *)
Definition header_cells (ss : gmap string (list (list string))) (name : string) : Row :=
  take 4 (default [] (head (default [] (ss !! name)))).

(** A row bears a user id when its second cell is that id (sheets.js:128
    and 206). *)
Definition bears (discordId : string) (row : Row) : Prop :=
  row !! 1%nat = Some discordId.

#[global] Instance bears_dec discordId row : Decision (bears discordId row).
Proof. unfold bears. apply _. Defined.

(** The number of data rows of a sheet that bear a user id. *)
Definition occurrences (discordId : string) (ss : gmap string (list (list string)))
    (name : string) : nat :=
  length (filter (bears discordId) (data_rows ss name)).

(** ** What ensureSheetSetup leaves behind *)

(** A sheet after setup: its header cells are the schema, everything else
    is as it was. *)
Definition setup_grid (g : Grid) : Grid :=
  match g with
  | [] => [HEADER_ROW]
  | h :: rest =>
    if bool_decide (take 4 h = HEADER_ROW) then g
    else (HEADER_ROW ++ drop 4 h) :: rest
  end.

Definition setup_sheets (ss : gmap string (list (list string)))
  : gmap string (list (list string)) :=
  foldr (fun name acc => <[name := setup_grid (default [] (ss !! name))]> acc)
        ss SHEET_NAME_VALUES.

(** The requests setup sends: the creation of the missing sheets, in one
    batch, then one header write per sheet whose header cells are not the
    schema. *)
Definition setup_requests (ss : gmap string (list (list string))) : list Request :=
  let missing := filter (fun name => ss !! name = None) SHEET_NAME_VALUES in
  (match missing with [] => [] | _ => [AddSheets missing] end)
  ++ flat_map (fun name =>
       if bool_decide (header_cells ss name = HEADER_ROW) then []
       else [ValuesUpdate name 0 1 HEADER_ROW]) SHEET_NAME_VALUES.

(** A world, by its parts. *)
Definition world_of (ss : gmap string (list (list string))) (reqs : list Request)
    (sl en : list Z) : World Remote :=
  mkWorld (mkRemote ss reqs) sl en.

(** The request the header check of one sheet sends. *)
Definition header_request (name : string) (g : Grid) : list Request :=
  if bool_decide (take 4 (default [] (head g)) = HEADER_ROW) then []
  else [ValuesUpdate name 0 1 HEADER_ROW].

(** ** What upsertWallet does to the sheets *)

(** The location of the first data row bearing the id, the sheets being
    searched in the given order. *)
Fixpoint locate_in (discordId : string) (names : list string)
    (ss : gmap string (list (list string))) : option Location :=
  match names with
  | [] => None
  | name :: rest =>
    match list_find (bears discordId) (data_rows ss name) with
    | Some (i, _) => Some (mkLocation name (Z.of_nat i + 2))
    | None => locate_in discordId rest ss
    end
  end.

(** The row written for an input. *)
Definition new_row (input : WalletInput) : Row :=
  [discordUsername input; discordId input; wallet input; default "" (role input)].
Arguments new_row : simpl never.

(** The four courses upsertWallet can take once the sheets are set up. *)
Inductive UpsertPlan : Type :=
| PlanSkip
| PlanInsert (target : string)
| PlanMove (from : Location) (target : string)
| PlanUpdate (at_ : Location).

Definition upsert_plan (input : WalletInput) (ss : gmap string (list (list string)))
  : UpsertPlan :=
  match getSheetNameForRole (role input) with
  | None => PlanSkip
  | Some target =>
    match locate_in (discordId input) SHEET_NAME_VALUES ss with
    | None => PlanInsert target
    | Some loc =>
      if decide (loc_sheetName loc = target) then PlanUpdate loc
      else PlanMove loc target
    end
  end.

(** The 0-based position in a sheet of a 1-based row number. *)
Definition row_index (rowNumber : Z) : nat := Z.to_nat (rowNumber - 1).

(** Overwriting the cells A to D of the row at position [n]. *)
Definition overwrite_row (n : nat) (vals : Row) (g : Grid) : Grid :=
  <[n := vals ++ drop 4 (default [] (g !! n))]> g.

Definition plan_sheets (input : WalletInput) (plan : UpsertPlan)
    (ss : gmap string (list (list string))) : gmap string (list (list string)) :=
  match plan with
  | PlanSkip => ss
  | PlanInsert target => alter (fun g => g ++ [new_row input]) target ss
  | PlanMove from target =>
    alter (fun g => g ++ [new_row input]) target
      (alter (delete (row_index (loc_rowNumber from))) (loc_sheetName from) ss)
  | PlanUpdate loc =>
    alter (overwrite_row (row_index (loc_rowNumber loc)) (new_row input))
          (loc_sheetName loc) ss
  end.

Definition plan_requests (input : WalletInput) (plan : UpsertPlan) : list Request :=
  match plan with
  | PlanSkip => []
  | PlanInsert target => [ValuesAppend target (new_row input)]
  | PlanMove from target =>
    [DeleteRows (loc_sheetName from) (loc_rowNumber from - 1) (loc_rowNumber from);
     ValuesAppend target (new_row input)]
  | PlanUpdate loc =>
    [ValuesUpdate (loc_sheetName loc) 0 (loc_rowNumber loc) (new_row input)]
  end.

Definition plan_action (plan : UpsertPlan) : UpsertAction :=
  match plan with
  | PlanSkip => skipped
  | PlanInsert _ | PlanMove _ _ => inserted
  | PlanUpdate _ => updated
  end.

Definition upsert_sheets (input : WalletInput) (ss : gmap string (list (list string)))
  : gmap string (list (list string)) :=
  plan_sheets input (upsert_plan input (setup_sheets ss)) (setup_sheets ss).

Definition upsert_requests (input : WalletInput) (ss : gmap string (list (list string)))
  : list Request :=
  setup_requests ss ++ plan_requests input (upsert_plan input (setup_sheets ss)).

Definition upsert_action (input : WalletInput) (ss : gmap string (list (list string)))
  : UpsertAction :=
  plan_action (upsert_plan input (setup_sheets ss)).

(** What deleteRowFromSheet does: the row leaves its sheet, if there is
    such a sheet. *)
Definition delete_row_sheets (sheetName : string) (rowNumber : Z)
    (ss : gmap string (list (list string))) : gmap string (list (list string)) :=
  alter (delete (row_index rowNumber)) sheetName ss.

Definition delete_row_requests (sheetName : string) (rowNumber : Z)
    (ss : gmap string (list (list string))) : list Request :=
  match ss !! sheetName with
  | Some _ => [DeleteRows sheetName (rowNumber - 1) rowNumber]
  | None => []
  end.

(** The sheets are ready when the three partitions exist, each with a row 1. *)
Definition ready (ss : gmap string (list (list string))) : Prop :=
  forall name, name ∈ SHEET_NAME_VALUES ->
    exists h rest, ss !! name = Some (h :: rest).

(** ** Counting a user's rows across the partitions *)

(** The number of data rows bearing the id in the three partitions together. *)
Definition total_occurrences (discordId : string)
    (ss : gmap string (list (list string))) : nat :=
  sum_list (map (occurrences discordId ss) SHEET_NAME_VALUES).

(** The id appears in at most one of the three partitions (in any number of
    rows of that partition). *)
Definition in_at_most_one_partition (discordId : string)
    (ss : gmap string (list (list string))) : Prop :=
  (length (filter (fun name => (0 < occurrences discordId ss name)%nat)
                  SHEET_NAME_VALUES) <= 1)%nat.

(** Exactly one data row bears the id across the three partitions; it is in
    [target], and its cells A to D are [row]. *)
Definition one_row_in (discordId : string) (row : Row) (target : string)
    (ss : gmap string (list (list string))) : Prop :=
  occurrences discordId ss target = 1%nat
  /\ (forall name, name ∈ SHEET_NAME_VALUES -> name <> target ->
        occurrences discordId ss name = 0%nat)
  /\ (forall r, r ∈ data_rows ss target -> bears discordId r -> take 4 r = row).

(** The sheets are set up when the three partitions exist and the header
    cells of each are the schema. *)
Definition set_up (ss : gmap string (list (list string))) : Prop :=
  forall name, name ∈ SHEET_NAME_VALUES ->
    exists h rest, ss !! name = Some (h :: rest) /\ take 4 h = HEADER_ROW.

(** A request that writes to, inserts or deletes a row other than row 1
    alone. *)
Definition touches_data_rows (req : Request) : bool :=
  match req with
  | AddSheets _ => false
  | DeleteRows _ _ _ => true
  | ValuesUpdate _ _ row _ => negb (row =? 1)
  | ValuesAppend _ _ => true
  end.

(** ** Example states *)

(** A spreadsheet without any sheet. *)
Definition blank_world : World Remote := world_of ∅ [] [] [].

(** The three partitions set up, user1 recorded under Monarch. *)
Definition monarch_world : World Remote :=
  world_of
    (list_to_map
       [("Monadians", [HEADER_ROW]);
        ("Monarch", [HEADER_ROW; ["alice"; "user1"; "0xabc"; "Monarch"]]);
        ("Monalista", [HEADER_ROW])])
    [] [] [].

(** The same, with user1 recorded twice in the Monarch sheet. *)
Definition twice_world : World Remote :=
  world_of
    (list_to_map
       [("Monadians", [HEADER_ROW]);
        ("Monarch", [HEADER_ROW; ["alice"; "user1"; "0xabc"; "Monarch"];
                     ["alice"; "user1"; "0xdef"; "Monarch"]]);
        ("Monalista", [HEADER_ROW])])
    [] [] [].

Definition alice_as (roleLabel : string) : WalletInput :=
  mkInput "user1" "alice" "0xabc" (Some roleLabel).

(** ** The record locator, as the specification words it *)

(** Every data row of the three partitions with its sheet and row number, in
    scan order: the partitions in their fixed priority order, and the rows
    of a partition in row order. *)
Definition scan_order (ss : gmap string (list (list string)))
  : list (string * Z * list string) :=
  flat_map
    (fun name => imap (fun i row => (name, Z.of_nat i + 2, row)) (data_rows ss name))
    SHEET_NAME_VALUES.

(** The first row in scan order whose identity column is the user id. *)
Definition first_match (discordId : string) (ss : gmap string (list (list string)))
  : option (string * Z * list string) :=
  snd <$> list_find (fun c => bears discordId (snd c)) (scan_order ss).

(** The sheets of a list that come before a given one. *)
Fixpoint names_before (name : string) (names : list string) : list string :=
  match names with
  | [] => []
  | n :: rest => if decide (n = name) then [] else n :: names_before name rest
  end.

(** The partitions scanned before a given one. *)
Definition scanned_before (name : string) : list string :=
  names_before name SHEET_NAME_VALUES.

(** The record of the first match among the sheets [names]. *)
Fixpoint record_in (discordId : string) (names : list string)
    (ss : gmap string (list (list string))) : option WalletRecord :=
  match names with
  | [] => None
  | name :: rest =>
    match list_find (bears discordId) (data_rows ss name) with
    | Some (_, row) => Some (record_of_row row)
    | None => record_in discordId rest ss
    end
  end.

(** ** Setup first *)

(** An operation starts with the setup when, from every world, the requests
    it has sent by the time it ends begin with those the setup sends from
    that world. *)
Definition starts_with_setup {A} (op : M Remote A) : Prop :=
  forall w, exists rest,
    requests (remote (snd (op w)))
    = requests (remote (snd (ensureSheetSetup w))) ++ rest.

(** An operation only ever adds to the requests sent. *)
Definition grows {A} (op : M Remote A) : Prop :=
  forall w, exists rest,
    requests (remote (snd (op w))) = requests (remote w) ++ rest.

Definition api_grows {A} (f : Api Remote A) : Prop :=
  forall r, exists rest, requests (snd (f r)) = requests r ++ rest.

(** A request that is never answered with a rate limit. *)
Definition steady_api {A} (f : Api Remote A) : Prop :=
  forall r e s, f r = (Throw e, s) -> isRateLimited e = false.

(** ** The batch reconciliation, as the specification words it *)

(** How a transition is tallied. *)
Inductive Tally : Type := CountsUpdated | CountsMoved.

#[global] Instance Tally_eq_dec : EqDecision Tally.
Proof. solve_decision. Defined.

Definition counted_as (t : RoleUpdate) : Tally :=
  match getSheetNameForRole (upd_newRole t) with
  | None => CountsUpdated
  | Some partition =>
    if decide (partition = upd_sheetName t) then CountsUpdated else CountsMoved
  end.

(** One transition: a removal when the new role resolves to no partition, a
    move (delete, then a full upsert) when it resolves to another partition
    than the given one, and otherwise a write of the role column alone. *)
Definition reconcile_one (t : RoleUpdate) : M Remote unit :=
  match getSheetNameForRole (upd_newRole t) with
  | None => deleteRowFromSheet (upd_sheetName t) (upd_rowNumber t)
  | Some partition =>
    if decide (partition = upd_sheetName t)
    then callWithRetry
           (values_update (upd_sheetName t) 3 (upd_rowNumber t)
              [default "" (upd_newRole t)])
    else
      deleteRowFromSheet (upd_sheetName t) (upd_rowNumber t) ;;
      upsertWallet (mkInput (upd_discordId t) (upd_discordUsername t)
                      (upd_wallet t) (upd_newRole t)) ;;
      ret tt
  end.

Definition reconcile_tally (updates : list RoleUpdate) : BatchResult :=
  mkBatchResult
    (length (filter (fun t => counted_as t = CountsUpdated) updates))
    (length (filter (fun t => counted_as t = CountsMoved) updates)).

(** The transitions are applied one after the other, in the order given. *)
Definition reconcile (updates : list RoleUpdate) : M Remote BatchResult :=
  for_of updates reconcile_one ;; ret (reconcile_tally updates).

(** The effect of one transition on the sheets. *)
Definition step_sheets (ss : gmap string (list (list string))) (t : RoleUpdate)
  : gmap string (list (list string)) :=
  match getSheetNameForRole (upd_newRole t) with
  | None => delete_row_sheets (upd_sheetName t) (upd_rowNumber t) ss
  | Some partition =>
    if decide (partition = upd_sheetName t)
    then alter (update_row 3 (upd_rowNumber t) [default "" (upd_newRole t)])
               (upd_sheetName t) ss
    else
      upsert_sheets
        (mkInput (upd_discordId t) (upd_discordUsername t) (upd_wallet t) (upd_newRole t))
        (delete_row_sheets (upd_sheetName t) (upd_rowNumber t) ss)
  end.

(** The cell in row [j], column [i] (both 0-based) of a sheet; empty when
    the sheet has no such cell. *)
Definition grid_cell (g : Grid) (j i : nat) : string :=
  default "" (default [] (g !! j) !! i).

(** The three partitions exist. *)
Definition partitions_exist (ss : gmap string (list (list string))) : Prop :=
  forall name, name ∈ SHEET_NAME_VALUES -> is_Some (ss !! name).

(** Five users recorded under Monarch, in rows 2 to 6. *)
Definition five_rows_world : World Remote :=
  world_of
    (list_to_map
       [("Monadians", [HEADER_ROW]);
        ("Monarch", [HEADER_ROW;
                     ["ann"; "id-a"; "0xa"; "Monarch"];
                     ["bob"; "id-b"; "0xb"; "Monarch"];
                     ["cat"; "id-c"; "0xc"; "Monarch"];
                     ["dan"; "id-d"; "0xd"; "Monarch"];
                     ["eve"; "id-e"; "0xe"; "Monarch"]]);
        ("Monalista", [HEADER_ROW])])
    [] [] [].

(** Two transitions taken from one snapshot of [five_rows_world]: ann (row
    2) and bob (row 3) have both lost their role. *)
Definition two_removals : list RoleUpdate :=
  [mkUpdate "Monarch" 2 "id-a" "ann" "0xa" (Some "");
   mkUpdate "Monarch" 3 "id-b" "bob" "0xb" (Some "")].

(** One transition of each kind, from a snapshot of [five_rows_world]: eve
    (row 6) lost her role, dan (row 5) became a Monadian, ann (row 2) stays
    a Monarch under another spelling. *)
Definition mixed_updates : list RoleUpdate :=
  [mkUpdate "Monarch" 6 "id-e" "eve" "0xe" (Some "");
   mkUpdate "Monarch" 5 "id-d" "dan" "0xd" (Some "Monadian");
   mkUpdate "Monarch" 2 "id-a" "ann" "0xa" (Some "MONARCH")].

(** The items of the specification's example, on the Monarch sheet. *)
Definition three_deletions : list DeleteItem :=
  [mkDeleteItem (Some "Monarch") (RowInt 2);
   mkDeleteItem (Some "Monarch") (RowInt 5);
   mkDeleteItem (Some "Monarch") (RowInt 3)].

(** ** What batchDeleteRows deletes *)

(** The (sheet name, row number) pairs of the items that are not skipped,
    in the order of the items. *)
Definition valid_pairs (items : list DeleteItem) : list (string * Z) :=
  omap accepted items.

(** [bySheet] after the grouping loop has gone through [pairs]. *)
Definition group_pairs (pairs : list (string * Z)) (bySheet : list (string * list Z))
  : list (string * list Z) :=
  foldl (fun o p => push_row (fst p) (snd p) o) bySheet pairs.

(** The pairs held by [bySheet]. *)
Definition pairs_of (bySheet : list (string * list Z)) : list (string * Z) :=
  flat_map (fun e => map (pair (fst e)) (snd e)) bySheet.

(** The calls of deleteRowFromSheet made for a list of entries, in order. *)
Definition plan_of (entries : list (string * list Z)) : list (string * Z) :=
  flat_map (fun e => map (pair (fst e)) (sort_descending (array_from_set (snd e))))
           entries.

(** The calls of deleteRowFromSheet that batchDeleteRows makes for [items]. *)
Definition deletion_plan (items : list DeleteItem) : list (string * Z) :=
  plan_of (Object_entries (group_pairs (valid_pairs items) [])).

(** The requests these calls send: one per call on a sheet that exists. *)
Definition deletions_of (plan : list (string * Z))
    (ss : gmap string (list (list string))) : list Request :=
  flat_map (fun p => delete_row_requests (fst p) (snd p) ss) plan.

(** The sheets after these calls. *)
Definition apply_plan (ss : gmap string (list (list string)))
    (plan : list (string * Z)) : gmap string (list (list string)) :=
  foldl (fun acc p => delete_row_sheets (fst p) (snd p) acc) ss plan.

(** No accepted item names a member that [{}] inherits. *)
Definition plain_names (items : list DeleteItem) : Prop :=
  Forall (fun p => fst p ∉ Object_prototype_keys) (valid_pairs items).

(** Every accepted row number is at most 2^53, where [rowNumber - 1] is
    exact. *)
Definition exact_rows (items : list DeleteItem) : Prop :=
  Forall (fun p => snd p <= 2 ^ 53) (valid_pairs items).

(** The row numbers planned for one sheet, in the order of the calls. *)
Definition planned_rows (sheetName : string) (plan : list (string * Z)) : list Z :=
  map snd (filter (fun p => fst p = sheetName) plan).

(** * Further code and properties *)

(** ** sheets.js:263-277: updateRole *)

(** The record read by getWallet is handed on to upsertWallet.  Its username
    is always there (a row with a second cell has a first one); a wallet
    cell that the row lacks is [undefined], which the client sends as
    [null] and the service takes for an empty cell. *)
Definition updateRole (discordId : string) (role : option string) : M Remote bool :=
  existing <- getWallet discordId ;;
  match existing with
  | None => ret false
  | Some record =>
    upsertWallet (mkInput discordId
                    (default "" (rec_discordUsername record))
                    (default "" (rec_wallet record))
                    role) ;;
    ret true
  end.

(** ** Rows left by deletions *)

(** The rows whose row number is not among [numbers], in order; [first] is
    the row number of the head of [rows]. *)
Fixpoint rows_without (numbers : list Z) (first : Z) (rows : Grid) : Grid :=
  match rows with
  | [] => []
  | row :: rest =>
    if decide (first ∈ numbers) then rows_without numbers (first + 1) rest
    else row :: rows_without numbers (first + 1) rest
  end.

(** The row numbers that the accepted items name for one sheet. *)
Definition selected_rows (sheetName : string) (items : list DeleteItem) : list Z :=
  map snd (filter (fun p => fst p = sheetName) (valid_pairs items)).

(** ** Rows and their roles *)

(** Every data row of a partition carries a role label that resolves to that
    partition. *)
Definition role_consistent (ss : gmap string (list (list string))) : Prop :=
  Forall (fun name =>
            Forall (fun row : list string => getSheetNameForRole (row !! 3%nat) = Some name)
                   (data_rows ss name))
         SHEET_NAME_VALUES.

(** The data rows of a sheet that do not bear a user id, in order. *)
Definition rows_of_others (discordId : string)
    (ss : gmap string (list (list string))) (name : string) : Grid :=
  filter (fun row => ~ bears discordId row) (data_rows ss name).

(** The 0-based position among the data rows of a 1-based row number. *)
Definition data_index (rowNumber : Z) : nat := Z.to_nat (rowNumber - 2).

(** The data rows of a sheet after a plan of upsertWallet has been carried
    out on sheets whose data rows were [rows]. *)
Definition plan_data_rows (input : WalletInput) (plan : UpsertPlan) (name : string)
    (rows : Grid) : Grid :=
  match plan with
  | PlanSkip => rows
  | PlanInsert target =>
    if decide (name = target) then rows ++ [new_row input] else rows
  | PlanMove from target =>
    if decide (name = target) then rows ++ [new_row input]
    else if decide (name = loc_sheetName from)
         then delete (data_index (loc_rowNumber from)) rows
         else rows
  | PlanUpdate loc =>
    if decide (name = loc_sheetName loc)
    then <[data_index (loc_rowNumber loc) :=
             new_row input
             ++ drop 4 (default [] (rows !! data_index (loc_rowNumber loc)))]> rows
    else rows
  end.

(** What a plan of upsertWallet rests on. *)
Definition plan_grounds (input : WalletInput) (plan : UpsertPlan)
    (ss : gmap string (list (list string))) : Prop :=
  match plan with
  | PlanSkip => getSheetNameForRole (role input) = None
  | PlanInsert target =>
    getSheetNameForRole (role input) = Some target
    /\ forall name, name ∈ SHEET_NAME_VALUES ->
         occurrences (discordId input) ss name = 0%nat
  | PlanMove from target =>
    getSheetNameForRole (role input) = Some target
    /\ loc_sheetName from <> target
    /\ loc_sheetName from ∈ SHEET_NAME_VALUES
    /\ 2 <= loc_rowNumber from
    /\ exists row,
         list_find (bears (discordId input)) (data_rows ss (loc_sheetName from))
         = Some (data_index (loc_rowNumber from), row)
  | PlanUpdate loc =>
    getSheetNameForRole (role input) = Some (loc_sheetName loc)
    /\ 2 <= loc_rowNumber loc
    /\ exists row,
         list_find (bears (discordId input)) (data_rows ss (loc_sheetName loc))
         = Some (data_index (loc_rowNumber loc), row)
  end.

(** ** Transitions that only remove *)

(** The calls of deleteRowFromSheet that a list of removals makes. *)
Definition removal_plan (updates : list RoleUpdate) : list (string * Z) :=
  map (fun u => (upd_sheetName u, upd_rowNumber u)) updates.

(** A request that writes a cell outside row 1, or appends a row. *)
Definition writes_data (req : Request) : bool :=
  match req with
  | AddSheets _ => false
  | DeleteRows _ _ _ => false
  | ValuesUpdate _ _ row _ => negb (row =? 1)
  | ValuesAppend _ _ => true
  end.

(** index.js:559-566 (the fill-monad-airdrop-role command): the update
    pushed for an item whose member holds the airdrop role.  Lines of
    index.js are numbered as in the listing where it follows sheets.js. *)
Definition airdrop_update (item : WalletItemWithRow) : RoleUpdate :=
  mkUpdate (at_sheetName item) (at_rowNumber item)
    (item_discordId (at_item item)) (item_discordUsername (at_item item))
    (item_wallet (at_item item)) (Some "Monad Airdrop").

(** Two users of [five_rows_world] with the airdrop role, as listed. *)
Definition airdrop_items : list WalletItemWithRow :=
  [mkItemWithRow "Monarch" 3 (mkItem "bob" "id-b" "0xb" "");
   mkItemWithRow "Monarch" 5 (mkItem "dan" "id-d" "0xd" "")].

(** The removals of [two_removals], from the bottom up. *)
Definition two_removals_descending : list RoleUpdate :=
  [mkUpdate "Monarch" 3 "id-b" "bob" "0xb" (Some "");
   mkUpdate "Monarch" 2 "id-a" "ann" "0xa" (Some "")].

(** ** The listings *)

(** The items with their locations, in scan order: for each partition in
    turn, its data rows that have a cell in columns A to D. *)
Definition listed_with_row (ss : gmap string (list (list string)))
  : list WalletItemWithRow :=
  flat_map (fun name => items_with_row name (map (take 4) (data_rows ss name)))
           SHEET_NAME_VALUES.

(** A record of getWallet as an item of the listings. *)
Definition item_of_record (r : WalletRecord) : WalletItem :=
  mkItem (default "" (rec_discordUsername r)) (default "" (rec_discordId r))
         (default "" (rec_wallet r)) (rec_role r).

(** Where a listed item says its row is. *)
Definition location (x : WalletItemWithRow) : string * Z :=
  (at_sheetName x, at_rowNumber x).

(** ** Pruning *)

(** index.js:599 (the prune-no-priority-roles command): what is pushed for
    a listed item whose member holds no priority role. *)
Definition prune_item (item : WalletItemWithRow) : DeleteItem :=
  mkDeleteItem (Some (at_sheetName item)) (RowInt (at_rowNumber item)).

(** Two users of [five_rows_world] without a priority role, as listed; the
    lower row first. *)
Definition pruned_items : list WalletItemWithRow :=
  [mkItemWithRow "Monarch" 3 (mkItem "bob" "id-b" "0xb" "Monarch");
   mkItemWithRow "Monarch" 5 (mkItem "dan" "id-d" "0xd" "Monarch")].

(** * index.js: the wallet form *)

(** ** index.js:367-371: PRIORITY_ROLES, as pairs of an id and a label *)

Definition PRIORITY_ROLES : list (string * string) :=
  [("1184443552571338792", "Monadian");
   ("1316432197162631238", "Monarch");
   ("1184772610102394950", "Monalista")].

(** ** index.js:398-406: getHighestPriorityRoleLabel *)

(** [roleIds] is the set that getMemberRoleIds hands back, empty when the
    member cannot be read; the [catch] returns what the empty set gives. *)
Definition getHighestPriorityRoleLabel (roleIds : gset string) : string :=
  match List.find (fun r => bool_decide (fst r ∈ roleIds)) PRIORITY_ROLES with
  | Some found => snd found
  | None => ""
  end.

(** ** index.js:656-672: the submission of the wallet form *)

(** The fields of [interaction.user] that the handler reads. *)
Record User : Type := mkUser {
  user_id : string;
  user_username : string;
  user_discriminator : option string
}.

(** [[a-fA-F0-9]] *)
Definition is_hex_digit (c : ascii) : bool :=
  let n := nat_of_ascii c in
  ((48 <=? n)%nat && (n <=? 57)%nat)
  || ((97 <=? n)%nat && (n <=? 102)%nat)
  || ((65 <=? n)%nat && (n <=? 70)%nat).

(** index.js:662: [/^0x[a-fA-F0-9]{40}$/.test(wallet)] *)
Definition isLikelyEvm (wallet : string) : bool :=
  match wallet with
  | String "0" (String "x" digits) =>
    (String.length digits =? 40)%nat
    && forallb is_hex_digit (list_ascii_of_string digits)
  | _ => false
  end.

(** [s.replace(/#$/, '')]: a ['#'] that ends the string is dropped. *)
Fixpoint replace_final_hash (s : string) : string :=
  match s with
  | EmptyString => EmptyString
  | String c rest =>
    match rest with
    | EmptyString => if Ascii.eqb c "#" then EmptyString else s
    | String _ _ => String c (replace_final_hash rest)
    end
  end.

(** index.js:668 *)
Definition discordUsername_of (user : User) : string :=
  replace_final_hash
    (String.append (user_username user)
       (String.append "#" (default "" (user_discriminator user)))).

(** index.js:671: the reply after upsertWallet. *)
Definition reply_of (action : UpsertAction) : string :=
  String.append "Wallet "
    (String.append (match action with updated => "updated" | _ => "saved" end)
       " successfully.").

(** index.js:673-684: the handler's [catch], once the reply is deferred. *)
Definition or_error_reply (m : M Remote string) : M Remote string :=
  fun w =>
    match m w with
    | (Ok reply, w') => (Ok reply, w')
    | (Throw _, w') => (Ok "There was an error. Please try again.", w')
    end.

(** The handler from index.js:660 on: [wallet] is the text of the field,
    trimmed; [roleIds] the role ids of the member; the result is the reply
    the user reads. *)
Definition wallet_modal (roleIds : gset string) (user : User) (wallet : string)
  : M Remote string :=
  or_error_reply
    (if negb (isLikelyEvm wallet)
     then ret "Invalid EVM address. Please submit a 0x... address."
     else
       let discordId := user_id user in
       let discordUsername := discordUsername_of user in
       let role := getHighestPriorityRoleLabel roleIds in
       result <- upsertWallet (mkInput discordId discordUsername wallet (Some role)) ;;
       ret (reply_of result)).

(** A member of the server who holds the second and the third role. *)
Definition monarch_roles : gset string :=
  {[ "1316432197162631238"; "1184772610102394950"; "1000000000000000001" ]}.

(** A member who holds other roles only. *)
Definition plain_roles : gset string := {[ "1000000000000000001" ]}.

Definition alice : User := mkUser "user1" "alice" (Some "0").

Definition alice_wallet : string := "0x52908400098527886E0F7030069857D2E4169EE7".

(** ** Errors that carry a status in more than one place *)

(** A failure whose [code] is the status as a string, with the number in
    [status] and in [response.status]. *)
Definition string_coded_429 : JsError :=
  mkError (JStr "429") (JNum 429) (JNum 429) JUndef JUndef.

(** A request that always fails with [string_coded_429]. *)
Definition string_coded_call : Api nat string :=
  fun calls => (Throw string_coded_429, S calls).
(** * Proofs *)

(** ** The monad *)

Lemma bind_ok {St A B} (m : M St A) (k : A -> M St B) w a w' :
  m w = (Ok a, w') -> bind m k w = k a w'.
Proof. intros H. unfold bind. by rewrite H. Qed.

Lemma bind_throw {St A B} (m : M St A) (k : A -> M St B) w e w' :
  m w = (Throw e, w') -> bind m k w = (Throw e, w').
Proof. intros H. unfold bind. by rewrite H. Qed.

(** ** The role resolver *)

Lemma eq_ignore_case_lower s t :
  eq_ignore_case s t = String.eqb (toLowerCase s) (toLowerCase t).
Proof.
  revert t. induction s as [|a s IH]; intros [|b t]; simpl; try reflexivity.
  unfold same_letter. rewrite IH. reflexivity.
Qed.

Lemma eq_ignore_case_trans s t u :
  eq_ignore_case s t = true -> eq_ignore_case t u = eq_ignore_case s u.
Proof.
  rewrite !eq_ignore_case_lower. intros H%String.eqb_eq. by rewrite H.
Qed.

(** C7.  The resolver is a function of the label alone (so two calls agree)
    and coincides with the case-insensitive lookup in the table of the three
    known labels; an absent or empty label resolves to [None], labels that
    differ only in case resolve alike, and a label equal to none of the three
    up to case resolves to [None]. *)
Theorem getSheetNameForRole_resolves :
  (forall role, getSheetNameForRole (Some role) = resolvePartition_spec role)
  /\ getSheetNameForRole None = None
  /\ getSheetNameForRole (Some "") = None
  /\ (forall s t, eq_ignore_case s t = true ->
        getSheetNameForRole (Some s) = getSheetNameForRole (Some t))
  /\ (forall role,
        (getSheetNameForRole (Some role) = Some "Monadians"
           <-> eq_ignore_case role "monadian" = true)
        /\ (getSheetNameForRole (Some role) = Some "Monarch"
           <-> eq_ignore_case role "monarch" = true)
        /\ (getSheetNameForRole (Some role) = Some "Monalista"
           <-> eq_ignore_case role "monalista" = true)
        /\ (getSheetNameForRole (Some role) = None
           <-> eq_ignore_case role "monadian" = false
               /\ eq_ignore_case role "monarch" = false
               /\ eq_ignore_case role "monalista" = false)).
Proof.
  assert (Hspec : forall role, getSheetNameForRole (Some role) = resolvePartition_spec role).
  { intros role. unfold getSheetNameForRole, resolvePartition_spec, known_labels.
    simpl. rewrite !eq_ignore_case_lower.
    change (toLowerCase "monadian") with "monadian".
    change (toLowerCase "monarch") with "monarch".
    change (toLowerCase "monalista") with "monalista".
    repeat (destruct (String.eqb _ _); [reflexivity|]). reflexivity. }
  split; [exact Hspec|]. split; [reflexivity|]. split; [reflexivity|].
  split.
  - intros s t Hst. unfold getSheetNameForRole. simpl.
    rewrite eq_ignore_case_lower in Hst. apply String.eqb_eq in Hst.
    by rewrite Hst.
  - intros role. unfold getSheetNameForRole. simpl.
    rewrite !eq_ignore_case_lower.
    change (toLowerCase "monadian") with "monadian".
    change (toLowerCase "monarch") with "monarch".
    change (toLowerCase "monalista") with "monalista".
    destruct (String.eqb (toLowerCase role) "monadian") eqn:E1.
    { apply String.eqb_eq in E1. rewrite E1. simpl. unfold SHEET_NAMES.MONADIANS.
      repeat split; intros; try done; by destruct_and?. }
    destruct (String.eqb (toLowerCase role) "monarch") eqn:E2.
    { apply String.eqb_eq in E2. rewrite E2. simpl. unfold SHEET_NAMES.MONARCH.
      repeat split; intros; try done; by destruct_and?. }
    destruct (String.eqb (toLowerCase role) "monalista") eqn:E3.
    { unfold SHEET_NAMES.MONALISTA.
      repeat split; intros; try done; by destruct_and?. }
    repeat split; intros; done.
Qed.

(** ** callWithRetry *)

Section RetryProofs.
Context {St A : Type}.
Variable requestFn : Api St A.

Lemma attempt_once_slept w :
  slept (snd (attempt_once requestFn w)) = slept w.
Proof. unfold attempt_once. by destruct (requestFn (remote w)). Qed.

Lemma attempt_once_entropy w :
  entropy (snd (attempt_once requestFn w)) = entropy w.
Proof. unfold attempt_once. by destruct (requestFn (remote w)). Qed.

(** The loop leaves within [maxAttempts] iterations. *)
Lemma retry_loop_terminates fuel attempt delayMs w :
  0 <= attempt -> maxAttempts - attempt <= Z.of_nat fuel -> (0 < fuel)%nat ->
  exists r, retry_loop requestFn fuel attempt delayMs w = Some r.
Proof.
  revert attempt delayMs w.
  induction fuel as [|fuel IH]; intros attempt delayMs w Hge Hfuel Hpos; [lia|].
  simpl. destruct (attempt_once requestFn w) as [[v|err] w1]; [eauto|].
  destruct (negb (isRateLimited err) || (attempt + 1 >=? maxAttempts)) eqn:Hstop; [eauto|].
  apply orb_false_iff in Hstop as [_ Hlt].
  destruct (random_floor 250 w1) as [jitter w2].
  apply IH; unfold maxAttempts in *; lia.
Qed.

Lemma callWithRetry_terminates w :
  exists r, retry_loop requestFn (Z.to_nat maxAttempts) 0 1000 w = Some r
            /\ callWithRetry requestFn w = r.
Proof.
  destruct (retry_loop_terminates (Z.to_nat maxAttempts) 0 1000 w) as [r Hr];
    [done | done | unfold maxAttempts; lia |].
  exists r. split; [done|]. unfold callWithRetry. by rewrite Hr.
Qed.

(** A request that succeeds, or fails other than by a rate limit, goes
    through [callWithRetry] unchanged, after a single attempt. *)
Lemma callWithRetry_steady w :
  (forall e s, requestFn (remote w) = (Throw e, s) -> isRateLimited e = false) ->
  callWithRetry requestFn w = attempt_once requestFn w.
Proof.
  intros Hcalm. unfold callWithRetry. simpl. unfold attempt_once at 1.
  unfold attempt_once.
  destruct (requestFn (remote w)) as [[v|err] s] eqn:Hreq; [done|].
  by rewrite (Hcalm err s eq_refl).
Qed.

Lemma base_delay_next i :
  Z.min (base_delay i * 2) 15000 = base_delay (S i).
Proof.
  unfold base_delay. rewrite Nat2Z.inj_succ, Z.pow_succ_r by lia.
  assert (0 < 2 ^ Z.of_nat i) by (apply Z.pow_pos_nonneg; lia). lia.
Qed.

(** The loop, entered at attempt [i] of a run whose attempts before [k]
    are all rate limited and whose attempt [k] ends the run. *)
Lemma retry_loop_reaches k w m : forall i extra,
  (i + m = k)%nat -> (k < 5)%nat ->
  (forall j, (j < k)%nat -> rate_limited_at requestFn w j = true) ->
  (k = 4%nat \/ rate_limited_at requestFn w k = false) ->
  retry_loop requestFn (S m + extra) (Z.of_nat i) (base_delay i)
    (world_before requestFn i w)
  = Some (attempt_once requestFn (world_before requestFn k w)).
Proof.
  induction m as [|m IH]; intros i extra Hik Hk Hbefore Hlast.
  - assert (i = k) as -> by lia. simpl.
    unfold rate_limited_at in Hlast.
    destruct (attempt_once requestFn (world_before requestFn k w)) as [[v|err] w1];
      [done|].
    simpl in Hlast.
    destruct Hlast as [-> | ->]; [|done].
    by rewrite orb_true_r.
  - simpl.
    pose proof (Hbefore i ltac:(lia)) as Hi. unfold rate_limited_at in Hi.
    destruct (attempt_once requestFn (world_before requestFn i w)) as [[v|err] w1] eqn:Hat;
      [done|].
    simpl in Hi. rewrite Hi. simpl.
    replace (Z.of_nat i + 1 >=? maxAttempts) with false
      by (symmetry; unfold maxAttempts; lia).
    specialize (IH (S i) extra ltac:(lia) Hk Hbefore Hlast).
    simpl in IH. rewrite Hat in IH. simpl in IH. unfold back_off in IH.
    destruct (random_floor 250 w1) as [jitter w2].
    rewrite base_delay_next.
    replace (Z.of_nat i + 1) with (Z.of_nat (S i)) by lia.
    exact IH.
Qed.

Lemma random_floor_range (w : World St) :
  0 <= fst (random_floor 250 w) < 250.
Proof.
  unfold random_floor. destruct (entropy w); simpl; [lia|].
  apply Z.mod_pos_bound. lia.
Qed.

Lemma random_floor_slept (w : World St) :
  slept (snd (random_floor 250 w)) = slept w.
Proof. unfold random_floor. by destruct (entropy w). Qed.

(** The delays waited for before attempt [k]. *)
Lemma world_before_slept k w :
  exists jitters,
    length jitters = k
    /\ Forall (fun j => 0 <= j < 250) jitters
    /\ slept (world_before requestFn k w)
       = slept w ++ imap (fun i j => base_delay i + j) jitters.
Proof.
  induction k as [|k (jitters & Hlen & Hrange & Hslept)].
  - exists []. simpl. by rewrite app_nil_r.
  - simpl. unfold back_off.
    set (w1 := snd (attempt_once requestFn (world_before requestFn k w))).
    pose proof (random_floor_range w1) as Hj.
    pose proof (random_floor_slept w1) as Hs.
    destruct (random_floor 250 w1) as [jitter w2]. simpl in *.
    exists (jitters ++ [jitter]). split; [rewrite length_app; simpl; lia|].
    split; [apply Forall_app; split; [done|by constructor]|].
    rewrite Hs. unfold w1. rewrite attempt_once_slept, Hslept.
    rewrite imap_app. simpl. rewrite Hlen, Nat.add_0_r.
    by rewrite <- app_assoc.
Qed.
End RetryProofs.

(** Every run of [callWithRetry] is of the kind the policy describes: some
    [k <= 4] rate-limited failures, then an attempt that ends the run. *)
Lemma callWithRetry_run_length {St A} (requestFn : Api St A) (w : World St) :
  exists k,
    (k < 5)%nat
    /\ (forall i, (i < k)%nat -> rate_limited_at requestFn w i = true)
    /\ (k = 4%nat \/ rate_limited_at requestFn w k = false).
Proof.
  destruct (rate_limited_at requestFn w 0) eqn:H0.
  2:{ exists 0%nat. split; [lia|]. split; [intros i Hi; lia|by right]. }
  destruct (rate_limited_at requestFn w 1) eqn:H1.
  2:{ exists 1%nat. split; [lia|]. split; [|by right].
      intros i Hi. by replace i with 0%nat by lia. }
  destruct (rate_limited_at requestFn w 2) eqn:H2.
  2:{ exists 2%nat. split; [lia|]. split; [|by right].
      intros [|[|i]] Hi; try done. lia. }
  destruct (rate_limited_at requestFn w 3) eqn:H3.
  2:{ exists 3%nat. split; [lia|]. split; [|by right].
      intros [|[|[|i]]] Hi; try done. lia. }
  exists 4%nat. split; [lia|]. split; [|by left].
  intros [|[|[|[|i]]]] Hi; try done. lia.
Qed.

(** C6.  [callWithRetry] follows the retry policy.  Let attempts 0 to [k-1]
    fail with a rate-limit signal, and let attempt [k] either be the fifth
    one ([k = 4]) or end otherwise (a success, or a failure that is not a
    rate limit).  Then the call ends with the outcome of attempt [k] (the
    success, the other failure at once, or the fifth and last rate-limit
    failure), having run [k + 1 <= 5] attempts and waited [k] times, the
    wait number [i] being [min (1000 * 2^i) 15000] plus a jitter in
    [0, 250): 1000, 2000, 4000 and 8000 ms plus jitter. *)
Theorem callWithRetry_policy {St A} (requestFn : Api St A) (w : World St) (k : nat) :
  (k < 5)%nat ->
  (forall i, (i < k)%nat -> rate_limited_at requestFn w i = true) ->
  (k = 4%nat \/ rate_limited_at requestFn w k = false) ->
  callWithRetry requestFn w = attempt_once requestFn (world_before requestFn k w)
  /\ (exists jitters,
        length jitters = k
        /\ Forall (fun j => 0 <= j < 250) jitters
        /\ slept (snd (callWithRetry requestFn w))
           = slept w ++ imap (fun i j => base_delay i + j) jitters)
  /\ [base_delay 0; base_delay 1; base_delay 2; base_delay 3] = [1000; 2000; 4000; 8000]
  /\ (forall i, base_delay i <= 15000).
Proof.
  intros Hk Hbefore Hlast.
  assert (Hrun : callWithRetry requestFn w
                 = attempt_once requestFn (world_before requestFn k w)).
  { unfold callWithRetry.
    pose proof (retry_loop_reaches requestFn k w k 0%nat (4 - k)%nat
                  ltac:(lia) Hk Hbefore Hlast) as Hloop.
    replace (S k + (4 - k))%nat with (Z.to_nat maxAttempts) in Hloop
      by (unfold maxAttempts; lia).
    simpl world_before in Hloop. change (base_delay 0) with 1000 in Hloop.
    change (Z.of_nat 0) with 0 in Hloop. by rewrite Hloop. }
  split; [exact Hrun|]. split.
  - destruct (world_before_slept requestFn k w) as (jitters & Hlen & Hrange & Hslept).
    exists jitters. split; [done|]. split; [done|].
    by rewrite Hrun, attempt_once_slept.
  - split; [reflexivity|]. intros i. unfold base_delay. lia.
Qed.

Lemma callWithRetry_policy_witness :
  callWithRetry flaky_call (mkWorld 0%nat [] [10; 20; 30; 40; 50])
  = (Ok "done", mkWorld 5%nat [1010; 2020; 4030; 8040] [50]).
Proof.
  destruct (callWithRetry_policy flaky_call (mkWorld 0%nat [] [10; 20; 30; 40; 50]) 4)
    as (Hrun & _).
  - lia.
  - intros i Hi.
    destruct i as [|[|[|[|i]]]]; [reflexivity..|lia].
  - by left.
  - rewrite Hrun. reflexivity.
Defined.

(** ** The endpoints behind callWithRetry *)

Lemma isRateLimited_bad_request : isRateLimited bad_request = false.
Proof. reflexivity. Qed.

Lemma with_sheet_steady {A} title r (k : Grid -> outcome A * Remote) e s :
  (forall g e s, k g = (Throw e, s) -> isRateLimited e = false) ->
  with_sheet title r k = (Throw e, s) -> isRateLimited e = false.
Proof.
  unfold with_sheet. intros Hk H. destruct (sheets r !! title); [eauto|].
  by inversion H.
Qed.

Ltac steady :=
  intros ? ?; simpl;
  repeat match goal with
         | |- context [if ?b then _ else _] => destruct b
         end;
  try (intros H; inversion H; reflexivity);
  try (apply with_sheet_steady; intros ? ? ? H; inversion H).

Lemma call_spreadsheets_get ss reqs sl en :
  callWithRetry spreadsheets_get (world_of ss reqs sl en)
  = (Ok (dom ss), world_of ss reqs sl en).
Proof. rewrite callWithRetry_steady; [done|]. intros e s H. inversion H. Qed.

Lemma call_addSheet titles ss reqs sl en :
  NoDup titles -> (forall t, t ∈ titles -> ss !! t = None) ->
  callWithRetry (batchUpdate_addSheet titles) (world_of ss reqs sl en)
  = (Ok tt, world_of (add_sheets titles ss) (reqs ++ [AddSheets titles]) sl en).
Proof.
  intros Hnd Hnew.
  rewrite callWithRetry_steady; [|unfold batchUpdate_addSheet; steady].
  unfold attempt_once, batchUpdate_addSheet. simpl.
  rewrite bool_decide_eq_true_2 by done. simpl.
  replace (forallb _ titles) with true; [done|].
  symmetry. apply forallb_forall. intros t Ht%list_elem_of_In.
  apply bool_decide_eq_true_2. apply not_elem_of_dom. auto.
Qed.

Lemma call_values_get title firstRow lastRow g ss reqs sl en :
  1 <= firstRow -> ss !! title = Some g ->
  callWithRetry (values_get title firstRow lastRow) (world_of ss reqs sl en)
  = (Ok (window firstRow lastRow g), world_of ss reqs sl en).
Proof.
  intros Hrow Hg.
  rewrite callWithRetry_steady; [|unfold values_get; steady].
  unfold attempt_once, values_get, with_sheet. simpl.
  rewrite Hg. by replace (1 <=? firstRow) with true by lia.
Qed.

Lemma call_values_update title col row vals g ss reqs sl en :
  1 <= row -> ss !! title = Some g ->
  callWithRetry (values_update title col row vals) (world_of ss reqs sl en)
  = (Ok tt, world_of (<[title := update_row col row vals g]> ss)
              (reqs ++ [ValuesUpdate title col row vals]) sl en).
Proof.
  intros Hrow Hg.
  rewrite callWithRetry_steady; [|unfold values_update; steady].
  unfold attempt_once, values_update, with_sheet. simpl.
  rewrite Hg. by replace (1 <=? row) with true by lia.
Qed.

Lemma call_values_append title vals g ss reqs sl en :
  ss !! title = Some g ->
  callWithRetry (values_append title vals) (world_of ss reqs sl en)
  = (Ok tt, world_of (<[title := append_row vals g]> ss)
              (reqs ++ [ValuesAppend title vals]) sl en).
Proof.
  intros Hg.
  rewrite callWithRetry_steady; [|unfold values_append; steady].
  unfold attempt_once, values_append, with_sheet. simpl. by rewrite Hg.
Qed.

Lemma call_deleteDimension title startIndex endIndex g ss reqs sl en :
  0 <= startIndex < endIndex -> ss !! title = Some g ->
  callWithRetry (batchUpdate_deleteDimension title startIndex endIndex)
    (world_of ss reqs sl en)
  = (Ok tt, world_of (<[title := delete_rows startIndex endIndex g]> ss)
              (reqs ++ [DeleteRows title startIndex endIndex]) sl en).
Proof.
  intros Hrow Hg.
  rewrite callWithRetry_steady; [|unfold batchUpdate_deleteDimension; steady].
  unfold attempt_once, batchUpdate_deleteDimension, with_sheet. simpl.
  rewrite Hg.
  replace (0 <=? startIndex) with true by lia.
  by replace (startIndex <? endIndex) with true by lia.
Qed.

(** ** ensureSheetSetup *)

Lemma SHEET_NAME_VALUES_NoDup : NoDup SHEET_NAME_VALUES.
Proof. exact (bool_decide_unpack (NoDup SHEET_NAME_VALUES) I). Qed.

Lemma lookup_add_sheets titles (ss : gmap string (list (list string))) name :
  add_sheets titles ss !! name
  = if decide (name ∈ titles) then Some [] else ss !! name.
Proof.
  induction titles as [|t titles IH].
  - reflexivity.
  - unfold add_sheets in *. cbn [foldr]. destruct (decide (t = name)) as [->|Hne].
    + rewrite lookup_insert_eq.
      destruct (decide (name ∈ name :: titles)) as [|Hout]; [done|].
      exfalso. apply Hout. by left.
    + rewrite lookup_insert_ne by done. rewrite IH.
      destruct (decide (name ∈ titles)) as [Hin|Hout];
        destruct (decide (name ∈ t :: titles)) as [Hin'|Hout']; try done.
      * exfalso. apply Hout'. by right.
      * exfalso. apply elem_of_cons in Hin' as [->|?]; done.
Qed.

Lemma header_needs_write_spec (h : Row) :
  header_needs_write (take 4 h) = negb (bool_decide (take 4 h = HEADER_ROW)).
Proof.
  destruct h as [|c0 [|c1 [|c2 [|c3 h]]]]; try reflexivity;
    unfold header_needs_write, array_some, HEADER_ROW; simpl;
    repeat case_bool_decide; simplify_eq; try reflexivity; try done.
Qed.

Lemma update_row_header (g : Grid) :
  header_needs_write (take 4 (default [] (head g))) = true ->
  update_row 0 1 HEADER_ROW g = setup_grid g.
Proof.
  intros Hw. destruct g as [|h rest]; [reflexivity|].
  simpl in Hw. rewrite header_needs_write_spec in Hw.
  unfold setup_grid. apply negb_true_iff in Hw. rewrite Hw.
  unfold update_row, set_cells. simpl. by rewrite app_nil_r.
Qed.

Lemma setup_grid_keeps (g : Grid) :
  header_needs_write (take 4 (default [] (head g))) = false -> setup_grid g = g.
Proof.
  intros Hw. destruct g as [|h rest]; [done|].
  simpl in Hw. rewrite header_needs_write_spec in Hw.
  apply negb_false_iff in Hw. unfold setup_grid. by rewrite Hw.
Qed.

(** sheets.js:96-106 for one sheet. *)
Lemma header_check_run name g ss reqs sl en :
  ss !! name = Some g ->
  (current <- callWithRetry (values_get name 1 (Some 1)) ;;
   let firstRow := default [] (current !! 0%nat) in
   if header_needs_write firstRow
   then callWithRetry (values_update name 0 1 HEADER_ROW)
   else ret tt) (world_of ss reqs sl en)
  = (Ok tt, world_of (<[name := setup_grid g]> ss) (reqs ++ header_request name g) sl en).
Proof.
  intros Hg.
  erewrite bind_ok by (by apply call_values_get).
  assert (Hfirst : default [] (window 1 (Some 1) g !! 0%nat) = take 4 (default [] (head g))).
  { unfold window. by destruct g. }
  simpl. rewrite Hfirst. unfold header_request.
  destruct (header_needs_write (take 4 (default [] (head g)))) eqn:Hw.
  - erewrite call_values_update by (done || eassumption). rewrite update_row_header by done.
    destruct g as [|h rest]; simpl in *; [done|].
    rewrite header_needs_write_spec in Hw. apply negb_true_iff in Hw. by rewrite Hw.
  - rewrite setup_grid_keeps by done. rewrite insert_id by done.
    destruct g as [|h rest]; simpl in *; [done|].
    rewrite header_needs_write_spec in Hw. apply negb_false_iff in Hw. rewrite Hw.
    by rewrite app_nil_r.
Qed.

Lemma ensureSheetSetup_run ss reqs sl en :
  ensureSheetSetup (world_of ss reqs sl en)
  = (Ok tt, world_of (setup_sheets ss) (reqs ++ setup_requests ss) sl en).
Proof.
  unfold ensureSheetSetup.
  erewrite bind_ok by apply call_spreadsheets_get.
  set (missing := filter (fun sheetName => sheetName ∉ dom ss) SHEET_NAME_VALUES).
  assert (Hmissing : missing = filter (fun name => ss !! name = None) SHEET_NAME_VALUES).
  { unfold missing. apply list_filter_iff. intros name. by rewrite not_elem_of_dom. }
  set (first_reqs := match missing with [] => [] | _ => [AddSheets missing] end).
  assert (Hcreate :
    (if (0 <? length missing)%nat
     then callWithRetry (batchUpdate_addSheet missing) else ret tt)
      (world_of ss reqs sl en)
    = (Ok tt, world_of (add_sheets missing ss) (reqs ++ first_reqs) sl en)).
  { destruct missing as [|m missing'] eqn:Hm.
    - simpl. unfold first_reqs. by rewrite app_nil_r.
    - change (0 <? length (m :: missing'))%nat with true. cbv iota.
      rewrite <- Hm. rewrite call_addSheet.
      + unfold first_reqs. by rewrite Hm.
      + unfold missing. apply NoDup_filter, SHEET_NAME_VALUES_NoDup.
      + intros t Ht. unfold missing in Ht.
        apply list_elem_of_filter in Ht as [Ht _]. by apply not_elem_of_dom. }
  erewrite bind_ok by exact Hcreate.
  assert (Hlook : forall name, name ∈ SHEET_NAME_VALUES ->
            add_sheets missing ss !! name = Some (default [] (ss !! name))).
  { intros name Hname. rewrite lookup_add_sheets.
    destruct (decide (name ∈ missing)) as [Hin|Hout].
    - rewrite Hmissing in Hin. apply list_elem_of_filter in Hin as [-> _]. done.
    - destruct (ss !! name) eqn:E; [done|]. exfalso. apply Hout.
      rewrite Hmissing. by apply list_elem_of_filter. }
  unfold SHEET_NAME_VALUES, for_of.
  erewrite bind_ok.
  2:{ apply header_check_run. apply Hlook. unfold SHEET_NAME_VALUES. rewrite !elem_of_cons. tauto. }
  erewrite bind_ok.
  2:{ apply header_check_run. rewrite lookup_insert_ne by done. apply Hlook. unfold SHEET_NAME_VALUES. rewrite !elem_of_cons. tauto. }
  erewrite bind_ok.
  2:{ apply header_check_run. rewrite !lookup_insert_ne by done. apply Hlook. unfold SHEET_NAME_VALUES. rewrite !elem_of_cons. tauto. }
  unfold ret. f_equal. unfold world_of. f_equal. f_equal.
  - unfold setup_sheets, SHEET_NAME_VALUES. simpl.
    apply map_eq. intros k.
    destruct (decide (k = SHEET_NAMES.MONALISTA)) as [->|H3].
    { rewrite lookup_insert_eq, !lookup_insert_ne by done. by rewrite lookup_insert_eq. }
    destruct (decide (k = SHEET_NAMES.MONARCH)) as [->|H2].
    { rewrite !lookup_insert_ne by done. rewrite lookup_insert_eq.
      rewrite lookup_insert_ne by done. by rewrite lookup_insert_eq. }
    destruct (decide (k = SHEET_NAMES.MONADIANS)) as [->|H1].
    { rewrite !lookup_insert_ne by done. by rewrite !lookup_insert_eq. }
    rewrite !lookup_insert_ne by done. rewrite lookup_add_sheets.
    rewrite decide_False; [done|].
    rewrite Hmissing. intros [_ Hk]%list_elem_of_filter.
    unfold SHEET_NAME_VALUES in Hk. rewrite !elem_of_cons in Hk.
    destruct Hk as [?|[?|[?|Hk]]]; try done. by apply elem_of_nil in Hk.
  - rewrite <- !app_assoc. f_equal. unfold setup_requests.
    rewrite <- Hmissing. fold first_reqs. f_equal.
    unfold header_request, header_cells, SHEET_NAME_VALUES. simpl.
    by rewrite app_nil_r.
Qed.

Lemma lookup_setup_fold names (ss0 ss : gmap string (list (list string))) name :
  foldr (fun n acc => <[n := setup_grid (default [] (ss0 !! n))]> acc) ss names !! name
  = if decide (name ∈ names)
    then Some (setup_grid (default [] (ss0 !! name))) else ss !! name.
Proof.
  induction names as [|t names IH].
  - reflexivity.
  - cbn [foldr]. destruct (decide (t = name)) as [->|Hne].
    + rewrite lookup_insert_eq.
      destruct (decide (name ∈ name :: names)) as [|Hout]; [done|].
      exfalso. apply Hout. by left.
    + rewrite lookup_insert_ne by done. rewrite IH.
      destruct (decide (name ∈ names)) as [Hin|Hout];
        destruct (decide (name ∈ t :: names)) as [Hin'|Hout']; try done.
      * exfalso. apply Hout'. by right.
      * exfalso. apply elem_of_cons in Hin' as [->|?]; done.
Qed.

Lemma lookup_setup_sheets ss name :
  setup_sheets ss !! name
  = if decide (name ∈ SHEET_NAME_VALUES)
    then Some (setup_grid (default [] (ss !! name))) else ss !! name.
Proof. apply lookup_setup_fold. Qed.

Lemma setup_grid_data (g : Grid) : drop 1 (setup_grid g) = drop 1 g.
Proof.
  destruct g as [|h rest]; [done|]. unfold setup_grid. by case_bool_decide.
Qed.

Lemma setup_grid_header (g : Grid) :
  take 4 (default [] (head (setup_grid g))) = HEADER_ROW.
Proof.
  destruct g as [|h rest]; [done|]. unfold setup_grid. by case_bool_decide.
Qed.

Lemma setup_grid_nonempty (g : Grid) : setup_grid g <> [].
Proof.
  destruct g as [|h rest]; [done|]. unfold setup_grid. by case_bool_decide.
Qed.

Lemma data_rows_setup ss name : data_rows (setup_sheets ss) name = data_rows ss name.
Proof.
  unfold data_rows. rewrite lookup_setup_sheets.
  destruct (decide (name ∈ SHEET_NAME_VALUES)); [|done].
  simpl. apply setup_grid_data.
Qed.

Lemma occurrences_setup discordId ss name :
  occurrences discordId (setup_sheets ss) name = occurrences discordId ss name.
Proof. unfold occurrences. by rewrite data_rows_setup. Qed.

Lemma header_cells_setup ss name :
  name ∈ SHEET_NAME_VALUES -> header_cells (setup_sheets ss) name = HEADER_ROW.
Proof.
  intros Hname. unfold header_cells. rewrite lookup_setup_sheets.
  rewrite decide_True by done. simpl. apply setup_grid_header.
Qed.

Lemma setup_sheets_ready ss : ready (setup_sheets ss).
Proof.
  intros name Hname. rewrite lookup_setup_sheets, decide_True by done.
  pose proof (setup_grid_nonempty (default [] (ss !! name))) as Hne.
  destruct (setup_grid (default [] (ss !! name))) as [|h rest]; [done|]. eauto.
Qed.

Lemma getSheetNameForRole_known role target :
  getSheetNameForRole role = Some target -> target ∈ SHEET_NAME_VALUES.
Proof.
  unfold getSheetNameForRole, SHEET_NAME_VALUES.
  repeat (destruct (String.eqb _ _)); intros H; inversion H;
    rewrite !elem_of_cons; tauto.
Qed.

(** ** Scanning for a user *)

Lemma bears_take discordId (row : Row) :
  bears discordId (take 4 row) <-> bears discordId row.
Proof. unfold bears. by rewrite lookup_take_lt by lia. Qed.

Lemma find_row_spec discordId (rows : list (list string)) i :
  find_row discordId (map (take 4) rows) i
  = (fun p => (i + fst p)%nat) <$> list_find (bears discordId) rows.
Proof.
  revert i. induction rows as [|row rows IH]; intros i; [done|].
  cbn [map find_row list_find].
  destruct (decide (bears discordId row)) as [Hb|Hb].
  - rewrite bool_decide_eq_true_2 by (by apply (bears_take discordId row)).
    simpl. f_equal. lia.
  - rewrite bool_decide_eq_false_2
      by (intros H; by apply Hb, (bears_take discordId row)).
    rewrite IH. destruct (list_find (bears discordId) rows) as [[j x]|]; simpl; [|done].
    f_equal. lia.
Qed.

Lemma window_data ss name g :
  ss !! name = Some g -> window 2 None g = map (take 4) (data_rows ss name).
Proof. intros Hg. unfold window, data_rows. by rewrite Hg. Qed.

Lemma locate_existing_run discordId names ss reqs sl en :
  (forall name, name ∈ names -> is_Some (ss !! name)) ->
  locate_existing discordId names (world_of ss reqs sl en)
  = (Ok (locate_in discordId names ss), world_of ss reqs sl en).
Proof.
  induction names as [|name names IH]; intros Hex; [done|].
  destruct (Hex name ltac:(by left)) as [g Hg].
  cbn [locate_existing locate_in].
  erewrite bind_ok by (by eapply call_values_get).
  erewrite window_data by done. rewrite find_row_spec.
  destruct (list_find (bears discordId) (data_rows ss name)) as [[i x]|]; simpl.
  - done.
  - apply IH. intros n Hn. apply Hex. by right.
Qed.

(** A location found by the scan points at a data row bearing the id. *)
Lemma locate_in_Some discordId names ss loc :
  locate_in discordId names ss = Some loc ->
  loc_sheetName loc ∈ names
  /\ exists i row,
       loc_rowNumber loc = Z.of_nat i + 2
       /\ list_find (bears discordId) (data_rows ss (loc_sheetName loc)) = Some (i, row).
Proof.
  induction names as [|name names IH]; [done|].
  cbn [locate_in].
  destruct (list_find (bears discordId) (data_rows ss name)) as [[i x]|] eqn:Hfind.
  - intros [= <-]. simpl. split; [by left|]. eauto.
  - intros Hloc. destruct (IH Hloc) as [Hin Hrow]. split; [by right|done].
Qed.

(** ** deleteRowFromSheet *)

Lemma insert_as_alter (f : list (list string) -> list (list string))
    (ss : gmap string (list (list string))) name g :
  ss !! name = Some g -> <[name := f g]> ss = alter f name ss.
Proof.
  intros Hg. apply map_eq. intros k. destruct (decide (k = name)) as [->|Hne].
  - by rewrite lookup_insert_eq, lookup_alter_eq, Hg.
  - by rewrite lookup_insert_ne, lookup_alter_ne.
Qed.

Lemma alter_missing (f : list (list string) -> list (list string))
    (ss : gmap string (list (list string))) name :
  ss !! name = None -> alter f name ss = ss.
Proof.
  intros Hg. apply map_eq. intros k. destruct (decide (k = name)) as [->|Hne].
  - by rewrite lookup_alter_eq, Hg.
  - by rewrite lookup_alter_ne.
Qed.

Lemma delete_rows_one rowNumber (g : Grid) :
  1 <= rowNumber -> delete_rows (rowNumber - 1) rowNumber g = delete (row_index rowNumber) g.
Proof.
  intros Hrow. unfold delete_rows, row_index. rewrite delete_take_drop.
  by replace (Z.to_nat rowNumber) with (S (Z.to_nat (rowNumber - 1))) by lia.
Qed.

Lemma deleteRowFromSheet_run sheetName rowNumber ss reqs sl en :
  1 <= rowNumber ->
  deleteRowFromSheet sheetName rowNumber (world_of ss reqs sl en)
  = (Ok tt, world_of (delete_row_sheets sheetName rowNumber ss)
              (reqs ++ delete_row_requests sheetName rowNumber ss) sl en).
Proof.
  intros Hrow. unfold deleteRowFromSheet, delete_row_sheets, delete_row_requests.
  erewrite bind_ok by apply call_spreadsheets_get.
  destruct (ss !! sheetName) as [g|] eqn:Hg.
  - rewrite bool_decide_eq_true_2 by (apply elem_of_dom; eauto).
    erewrite call_deleteDimension by (done || lia).
    rewrite delete_rows_one by done.
    by rewrite (insert_as_alter (delete (row_index rowNumber)) ss sheetName g).
  - rewrite bool_decide_eq_false_2 by (by apply not_elem_of_dom).
    rewrite alter_missing by done. by rewrite app_nil_r.
Qed.

(** ** upsertWallet *)

Lemma append_row_nonempty vals (h : Row) (rest : Grid) :
  append_row vals (h :: rest) = (h :: rest) ++ [vals].
Proof. done. Qed.

Lemma update_row_in_place (vals : list string) rowNumber (g : Grid) :
  1 <= rowNumber -> (row_index rowNumber < length g)%nat -> length vals = 4%nat ->
  update_row 0 rowNumber vals g
  = <[row_index rowNumber := vals ++ drop 4 (default [] (g !! row_index rowNumber))]> g.
Proof.
  intros Hrow Hlen Hvals. unfold update_row, set_cells. fold (row_index rowNumber).
  replace (S (row_index rowNumber) - length g)%nat with 0%nat by lia.
  simpl. by rewrite app_nil_r, Hvals.
Qed.

Lemma upsertWallet_run input ss reqs sl en :
  upsertWallet input (world_of ss reqs sl en)
  = (Ok (upsert_action input ss),
     world_of (upsert_sheets input ss) (reqs ++ upsert_requests input ss) sl en).
Proof.
  unfold upsertWallet, upsert_action, upsert_sheets, upsert_requests, upsert_plan.
  erewrite bind_ok by apply ensureSheetSetup_run.
  pose proof (setup_sheets_ready ss) as Hready.
  set (ss1 := setup_sheets ss) in *.
  destruct (getSheetNameForRole (role input)) as [target|] eqn:Htarget.
  2:{ simpl. by rewrite app_nil_r. }
  pose proof (getSheetNameForRole_known _ _ Htarget) as Hknown.
  erewrite bind_ok.
  2:{ apply locate_existing_run. intros name Hname.
      destruct (Hready name Hname) as (h & rest & ->). eauto. }
  destruct (Hready target Hknown) as (ht & restt & Hgt).
  destruct (locate_in (discordId input) SHEET_NAME_VALUES ss1) as [loc|] eqn:Hloc.
  - destruct (locate_in_Some _ _ _ _ Hloc) as (Hin & i & row & Hnum & Hfind).
    destruct (decide (loc_sheetName loc = target)) as [Heq|Hne].
    + replace (String.eqb (loc_sheetName loc) target) with true
        by (symmetry; by apply String.eqb_eq).
      simpl negb. cbv iota.
      erewrite bind_ok by reflexivity. simpl.
      erewrite bind_ok.
      2:{ eapply call_values_update; [lia | exact Hgt]. }
      unfold ret. f_equal. unfold world_of. f_equal. f_equal.
      * apply list_find_Some in Hfind as (Hrow & _ & _).
        unfold data_rows in Hrow. rewrite Heq, Hgt in Hrow. simpl in Hrow.
        apply lookup_lt_Some in Hrow. rewrite drop_0 in Hrow.
        rewrite update_row_in_place;
          [|lia|unfold row_index; rewrite Hnum; cbn [length]; lia|done].
        rewrite Heq.
        by rewrite <- (insert_as_alter
          (overwrite_row (row_index (loc_rowNumber loc)) (new_row input))
          ss1 target (ht :: restt)).
      * rewrite <- app_assoc. by rewrite Heq.
    + replace (String.eqb (loc_sheetName loc) target) with false
        by (symmetry; by apply String.eqb_neq).
      simpl negb. cbv iota.
      erewrite bind_ok.
      2:{ erewrite bind_ok by (apply deleteRowFromSheet_run; lia). reflexivity. }
      simpl.
      assert (Hgt' : delete_row_sheets (loc_sheetName loc) (loc_rowNumber loc) ss1 !! target
                     = Some (ht :: restt)).
      { unfold delete_row_sheets. by rewrite lookup_alter_ne. }
      erewrite bind_ok.
      2:{ eapply call_values_append. exact Hgt'. }
      unfold ret. f_equal. unfold world_of. f_equal. f_equal.
      * rewrite append_row_nonempty.
        by rewrite (insert_as_alter (fun g => g ++ [new_row input]) _ target (ht :: restt)).
      * rewrite <- !app_assoc. do 2 f_equal. unfold delete_row_requests.
        destruct (Hready (loc_sheetName loc) Hin) as (h & rest & ->). done.
  - erewrite bind_ok by reflexivity. simpl.
    erewrite bind_ok.
    2:{ eapply call_values_append. exact Hgt. }
    unfold ret. f_equal. unfold world_of. f_equal. f_equal.
    + rewrite append_row_nonempty.
      by rewrite (insert_as_alter (fun g => g ++ [new_row input]) _ target (ht :: restt)).
    + by rewrite <- app_assoc.
Qed.

(** ** Counting the rows that satisfy a predicate *)

Section Count.
Context {X : Type} (P : X -> Prop) `{forall x, Decision (P x)}.

Lemma count_zero (l : list X) :
  length (filter P l) = 0%nat <-> forall x, x ∈ l -> ~ P x.
Proof.
  split.
  - intros Hlen x Hx HP.
    assert (Hin : x ∈ filter P l) by (by apply list_elem_of_filter).
    destruct (filter P l); [by apply elem_of_nil in Hin | done].
  - intros Hnone. destruct (filter P l) as [|x l'] eqn:Hf; [done|].
    assert (Hin : x ∈ filter P l) by (rewrite Hf; by left).
    apply list_elem_of_filter in Hin as [HP Hx]. by destruct (Hnone x Hx).
Qed.

Lemma count_split (l : list X) i x :
  l !! i = Some x ->
  length (filter P l)
  = (length (filter P (take i l)) + (if decide (P x) then 1 else 0)
     + length (filter P (drop (S i) l)))%nat.
Proof.
  intros Hi. rewrite <- (take_drop_middle l i x Hi) at 1.
  rewrite filter_app, filter_cons, length_app.
  destruct (decide (P x)); simpl; lia.
Qed.

Lemma count_delete (l : list X) i x :
  l !! i = Some x -> P x ->
  length (filter P (delete i l)) = (length (filter P l) - 1)%nat.
Proof.
  intros Hi HP. rewrite (count_split l i x Hi), decide_True by done.
  rewrite delete_take_drop, filter_app, length_app. lia.
Qed.

Lemma count_insert (l : list X) i x y :
  l !! i = Some x -> P x -> P y ->
  length (filter P (<[i := y]> l)) = length (filter P l).
Proof.
  intros Hi HPx HPy. rewrite (count_split l i x Hi), decide_True by done.
  rewrite insert_take_drop by (by eapply lookup_lt_Some).
  rewrite filter_app, filter_cons, decide_True by done.
  rewrite length_app. simpl. lia.
Qed.

(** With a single satisfying element at [i], replacing it leaves the new
    element as the only candidate. *)
Lemma count_one_insert (l : list X) i x y z :
  l !! i = Some x -> P x -> length (filter P l) = 1%nat ->
  z ∈ <[i := y]> l -> P z -> z = y.
Proof.
  intros Hi HPx Hone Hz HPz.
  rewrite (count_split l i x Hi), decide_True in Hone by done.
  rewrite insert_take_drop in Hz by (by eapply lookup_lt_Some).
  apply elem_of_app in Hz as [Hz|Hz].
  - exfalso. revert HPz. apply (proj1 (count_zero (take i l))); [lia|done].
  - apply elem_of_cons in Hz as [->|Hz]; [done|].
    exfalso. revert HPz. apply (proj1 (count_zero (drop (S i) l))); [lia|done].
Qed.
End Count.

(** ** The data rows after each change *)

Lemma data_rows_alter_ne f (ss : gmap string (list (list string))) t name :
  name <> t -> data_rows (alter f t ss) name = data_rows ss name.
Proof. intros Hne. unfold data_rows. by rewrite lookup_alter_ne. Qed.

Lemma data_rows_append (ss : gmap string (list (list string))) t h rest row :
  ss !! t = Some (h :: rest) ->
  data_rows (alter (fun g => g ++ [row]) t ss) t = data_rows ss t ++ [row].
Proof. intros Hg. unfold data_rows. rewrite lookup_alter_eq, Hg. by simpl. Qed.

Lemma row_index_data i : row_index (Z.of_nat i + 2) = S i.
Proof. unfold row_index. lia. Qed.

Lemma data_rows_delete (ss : gmap string (list (list string))) t h rest i :
  ss !! t = Some (h :: rest) ->
  data_rows (alter (delete (S i)) t ss) t = delete i (data_rows ss t).
Proof. intros Hg. unfold data_rows. rewrite lookup_alter_eq, Hg. by simpl. Qed.

Lemma data_rows_overwrite (ss : gmap string (list (list string))) t h rest i vals :
  ss !! t = Some (h :: rest) ->
  data_rows (alter (overwrite_row (S i) vals) t ss) t
  = <[i := vals ++ drop 4 (default [] (data_rows ss t !! i))]> (data_rows ss t).
Proof.
  intros Hg. unfold data_rows. rewrite lookup_alter_eq, Hg. simpl.
  by rewrite drop_0.
Qed.

Lemma occurrences_alter_ne discordId f (ss : gmap string (list (list string))) t name :
  name <> t -> occurrences discordId (alter f t ss) name = occurrences discordId ss name.
Proof. intros Hne. unfold occurrences. by rewrite data_rows_alter_ne. Qed.

Lemma bears_new_row input : bears (discordId input) (new_row input).
Proof. done. Qed.

Lemma bears_new_row_more input (tail : Row) :
  bears (discordId input) (new_row input ++ tail).
Proof. done. Qed.

(** ** What the scan finds, in terms of counts *)

Lemma locate_in_None discordId names ss :
  locate_in discordId names ss = None ->
  forall name, name ∈ names -> occurrences discordId ss name = 0%nat.
Proof.
  induction names as [|n names IH]; intros Hloc name Hname.
  - by apply elem_of_nil in Hname.
  - cbn [locate_in] in Hloc.
    destruct (list_find (bears discordId) (data_rows ss n)) as [[i x]|] eqn:Hfind; [done|].
    apply elem_of_cons in Hname as [->|Hname]; [|by apply IH].
    unfold occurrences. apply count_zero.
    apply list_find_None in Hfind. by apply Forall_forall.
Qed.

Lemma total_occurrences_split discordId ss :
  total_occurrences discordId ss
  = (occurrences discordId ss SHEET_NAMES.MONADIANS
     + occurrences discordId ss SHEET_NAMES.MONARCH
     + occurrences discordId ss SHEET_NAMES.MONALISTA)%nat.
Proof. unfold total_occurrences, SHEET_NAME_VALUES. simpl. lia. Qed.

Lemma found_row_counts discordId ss name i row :
  list_find (bears discordId) (data_rows ss name) = Some (i, row) ->
  data_rows ss name !! i = Some row /\ bears discordId row
  /\ (1 <= occurrences discordId ss name)%nat.
Proof.
  intros (Hrow & Hb & _)%list_find_Some. split; [done|]. split; [done|].
  unfold occurrences. rewrite (count_split _ _ i row Hrow), decide_True by done. lia.
Qed.

(** With at most one row overall, a partition that has a row has the only one. *)
Lemma only_partition discordId ss name :
  (total_occurrences discordId ss <= 1)%nat ->
  name ∈ SHEET_NAME_VALUES ->
  (1 <= occurrences discordId ss name)%nat ->
  occurrences discordId ss name = 1%nat
  /\ forall other, other ∈ SHEET_NAME_VALUES -> other <> name ->
       occurrences discordId ss other = 0%nat.
Proof.
  rewrite total_occurrences_split. unfold SHEET_NAME_VALUES.
  intros Htotal Hname Hone.
  rewrite !elem_of_cons in Hname.
  destruct Hname as [->|[->|[->|Hname]]]; [| | |by apply elem_of_nil in Hname].
  all: split; [lia|]; intros other Hother Hne; rewrite !elem_of_cons in Hother.
  all: destruct Hother as [->|[->|[->|Hother]]];
         [..|by apply elem_of_nil in Hother]; try done; lia.
Qed.

(** ** upsertWallet keeps one row per user *)

Lemma take_new_row input (tail : Row) : take 4 (new_row input ++ tail) = new_row input.
Proof. done. Qed.

Lemma upsert_sheets_one_row input ss target :
  getSheetNameForRole (role input) = Some target ->
  (total_occurrences (discordId input) ss <= 1)%nat ->
  one_row_in (discordId input) (new_row input) target (upsert_sheets input ss)
  /\ (upsert_action input ss = updated
      <-> occurrences (discordId input) ss target = 1%nat)
  /\ (upsert_action input ss = inserted
      <-> occurrences (discordId input) ss target = 0%nat).
Proof.
  intros Htarget Htotal.
  pose proof (getSheetNameForRole_known _ _ Htarget) as Hknown.
  pose proof (setup_sheets_ready ss) as Hready.
  assert (Htotal1 : (total_occurrences (discordId input) (setup_sheets ss) <= 1)%nat).
  { rewrite total_occurrences_split, !occurrences_setup.
    by rewrite <- total_occurrences_split. }
  rewrite <- (occurrences_setup (discordId input) ss target).
  unfold upsert_sheets, upsert_action, upsert_plan. rewrite Htarget.
  set (ss1 := setup_sheets ss) in *. set (id := discordId input) in *.
  destruct (Hready target Hknown) as (ht & restt & Hgt).
  destruct (locate_in id SHEET_NAME_VALUES ss1) as [loc|] eqn:Hloc.
  - destruct (locate_in_Some _ _ _ _ Hloc) as (Hin & i & row & Hnum & Hfind).
    destruct (found_row_counts _ _ _ _ _ Hfind) as (Hrow & Hbears & Hge).
    destruct (only_partition id ss1 _ Htotal1 Hin Hge) as [Hone Hothers].
    destruct (Hready _ Hin) as (hs & rests & Hgs).
    destruct (decide (loc_sheetName loc = target)) as [Heq|Hne]; simpl.
    + (* the row is in the target sheet already: it is overwritten *)
      rewrite Hnum, row_index_data, Heq in *.
      split; [|split; [by split|split; [done|lia]]].
      unfold one_row_in, occurrences.
      rewrite (data_rows_overwrite ss1 target ht restt i) by done.
      split; [|split].
      * erewrite count_insert; [exact Hone|exact Hrow|exact Hbears|].
        apply bears_new_row_more.
      * intros name Hname Hneq.
        rewrite data_rows_alter_ne by done. by apply Hothers.
      * intros r Hr Hbr.
        rewrite (count_one_insert (bears id) _ i row _ r Hrow Hbears Hone Hr Hbr).
        apply take_new_row.
    + (* the row is in another sheet: it is deleted there and appended here *)
      rewrite Hnum, row_index_data in *.
      assert (Hzero : occurrences id ss1 target = 0%nat).
      { apply Hothers; [done|]. by intros ->. }
      split; [|split; [split; [done|lia]|by split]].
      assert (Hgt' : alter (delete (S i)) (loc_sheetName loc) ss1 !! target
                     = Some (ht :: restt)) by (by rewrite lookup_alter_ne).
      unfold one_row_in, occurrences.
      rewrite (data_rows_append _ target ht restt) by done.
      rewrite data_rows_alter_ne by (by intros ->).
      split; [|split].
      * rewrite filter_app, length_app.
        fold (occurrences id ss1 target). rewrite Hzero.
        rewrite filter_cons, decide_True by apply bears_new_row. done.
      * intros name Hname Hneq.
        rewrite data_rows_alter_ne by done.
        destruct (decide (name = loc_sheetName loc)) as [->|Hneq'].
        -- rewrite (data_rows_delete ss1 _ hs rests i) by done.
           rewrite (count_delete (bears id) _ i row Hrow Hbears).
           fold (occurrences id ss1 (loc_sheetName loc)). lia.
        -- rewrite data_rows_alter_ne by done. by apply Hothers.
      * intros r Hr Hbr. apply elem_of_app in Hr as [Hr|Hr].
        -- exfalso. revert Hbr.
           by apply (proj1 (count_zero (bears id) (data_rows ss1 target)) Hzero).
        -- apply list_elem_of_singleton in Hr as ->. done.
  - (* no row anywhere: it is appended *)
    pose proof (locate_in_None _ _ _ Hloc) as Hnone. simpl.
    split; [|split; [split; [done|]|split; [|done]]].
    2:{ rewrite (Hnone target Hknown). lia. }
    2:{ intros _. by apply Hnone. }
    unfold one_row_in, occurrences.
    rewrite (data_rows_append _ target ht restt) by done.
    split; [|split].
    + rewrite filter_app, length_app.
      fold (occurrences id ss1 target). rewrite (Hnone target Hknown).
      rewrite filter_cons, decide_True by apply bears_new_row. done.
    + intros name Hname Hneq. rewrite data_rows_alter_ne by done.
      by apply Hnone.
    + intros r Hr Hbr. apply elem_of_app in Hr as [Hr|Hr].
      * exfalso. revert Hbr.
        by apply (proj1 (count_zero (bears id) (data_rows ss1 target))
                    (Hnone target Hknown)).
      * apply list_elem_of_singleton in Hr as ->. done.
Qed.

(** C1 (amended).  Let the user id be borne by at most one data row across
    the three partitions, and let the role label resolve to the partition
    [target].  Then upsertWallet completes with [inserted] or [updated], and
    afterwards exactly one data row bears the id across the three
    partitions: it is in [target] and holds the given username, id, wallet
    and role; every other partition, the one the row may have lived in
    before included, holds no row for the id. *)
Theorem upsertWallet_one_row input (w : World Remote) target :
  getSheetNameForRole (role input) = Some target ->
  (total_occurrences (discordId input) (sheets (remote w)) <= 1)%nat ->
  exists action w',
    upsertWallet input w = (Ok action, w')
    /\ (action = inserted \/ action = updated)
    /\ one_row_in (discordId input) (new_row input) target (sheets (remote w')).
Proof.
  intros Htarget Htotal. destruct w as [[ss reqs] sl en]. simpl in Htotal.
  destruct (upsert_sheets_one_row input ss target Htarget Htotal) as (Hrow & _ & _).
  eexists _, _. split; [apply upsertWallet_run|]. split; [|exact Hrow].
  unfold upsert_action, upsert_plan. rewrite Htarget.
  destruct (locate_in _ _ _); [|by left].
  destruct (decide _); [by right|by left].
Qed.

Lemma upsertWallet_one_row_witness :
  exists action w',
    upsertWallet (alice_as "Monadian") monarch_world = (Ok action, w')
    /\ (action = inserted \/ action = updated)
    /\ one_row_in "user1" ["alice"; "user1"; "0xabc"; "Monadian"] "Monadians"
         (sheets (remote w')).
Proof.
  apply (upsertWallet_one_row (alice_as "Monadian") monarch_world "Monadians").
  - reflexivity.
  - vm_compute. lia.
Defined.

(** C1 as stated fails: a user id that appears in one partition only, but in
    two rows of it, is still borne by two rows after upsertWallet. *)
Lemma upsertWallet_one_partition_counterexample :
  ~ (forall input (w : World Remote) target,
       getSheetNameForRole (role input) = Some target ->
       in_at_most_one_partition (discordId input) (sheets (remote w)) ->
       exists action w',
         upsertWallet input w = (Ok action, w')
         /\ (action = inserted \/ action = updated)
         /\ one_row_in (discordId input) (new_row input) target (sheets (remote w'))).
Proof.
  intros Hclaim.
  destruct (Hclaim (alice_as "Monarch") twice_world "Monarch" eq_refl)
    as (action & w' & Hrun & _ & Hone & _).
  - vm_compute. lia.
  - assert (Hw : w' = snd (upsertWallet (alice_as "Monarch") twice_world))
      by (by rewrite Hrun).
    rewrite Hw in Hone. vm_compute in Hone. discriminate.
Qed.

(** ** Setup on sheets that are set up *)

Lemma setup_sheets_set_up ss : set_up (setup_sheets ss).
Proof.
  intros name Hname. rewrite lookup_setup_sheets, decide_True by done.
  pose proof (setup_grid_header (default [] (ss !! name))) as Hh.
  pose proof (setup_grid_nonempty (default [] (ss !! name))) as Hne.
  destruct (setup_grid (default [] (ss !! name))) as [|h rest]; [done|]. eauto.
Qed.

Lemma set_up_ready ss : set_up ss -> ready ss.
Proof. intros Hs name Hname. destruct (Hs name Hname) as (h & rest & ? & _). eauto. Qed.

Lemma set_up_setup_id ss : set_up ss -> setup_sheets ss = ss.
Proof.
  intros Hs. apply map_eq. intros name. rewrite lookup_setup_sheets.
  destruct (decide (name ∈ SHEET_NAME_VALUES)) as [Hname|]; [|done].
  destruct (Hs name Hname) as (h & rest & -> & Hh). simpl.
  by rewrite bool_decide_eq_true_2.
Qed.

Lemma set_up_no_requests ss : set_up ss -> setup_requests ss = [].
Proof.
  intros Hs. unfold setup_requests.
  assert (Hnone : filter (fun name => ss !! name = None) SHEET_NAME_VALUES = []).
  { apply length_zero_iff_nil. apply count_zero. intros name Hname.
    destruct (Hs name Hname) as (h & rest & -> & _). done. }
  rewrite Hnone. simpl.
  assert (Hhead : forall name, name ∈ SHEET_NAME_VALUES ->
            bool_decide (header_cells ss name = HEADER_ROW) = true).
  { intros name Hname. apply bool_decide_eq_true_2. unfold header_cells.
    destruct (Hs name Hname) as (h & rest & -> & Hh). done. }
  unfold SHEET_NAME_VALUES in *. simpl.
  rewrite !Hhead by (rewrite !elem_of_cons; tauto). done.
Qed.

Lemma set_up_alter (f : list (list string) -> list (list string)) t ss :
  (forall h rest, exists rest', f (h :: rest) = h :: rest') ->
  set_up ss -> set_up (alter f t ss).
Proof.
  intros Hf Hs name Hname. destruct (Hs name Hname) as (h & rest & Hg & Hh).
  destruct (decide (name = t)) as [->|Hne].
  - rewrite lookup_alter_eq, Hg. simpl. destruct (Hf h rest) as [rest' ->]. eauto.
  - rewrite lookup_alter_ne by done. eauto.
Qed.

Lemma upsert_sheets_set_up input ss : set_up (upsert_sheets input ss).
Proof.
  unfold upsert_sheets, upsert_plan.
  pose proof (setup_sheets_set_up ss) as Hs. set (ss1 := setup_sheets ss) in *.
  destruct (getSheetNameForRole (role input)) as [target|]; [|done].
  destruct (locate_in (discordId input) SHEET_NAME_VALUES ss1) as [loc|] eqn:Hloc.
  - destruct (locate_in_Some _ _ _ _ Hloc) as (_ & i & row & Hnum & _).
    destruct (decide (loc_sheetName loc = target)); simpl;
      rewrite Hnum, row_index_data.
    + apply set_up_alter; [|done]. intros h rest. unfold overwrite_row. simpl. eauto.
    + apply set_up_alter; [intros h rest; simpl; eauto|].
      apply set_up_alter; [|done]. intros h rest. simpl. eauto.
  - simpl. apply set_up_alter; [|done]. intros h rest. simpl. eauto.
Qed.

(** ** upsertWallet without a qualifying role *)

Lemma setup_requests_spare_data ss :
  Forall (fun req => touches_data_rows req = false) (setup_requests ss).
Proof.
  unfold setup_requests. apply Forall_app. split.
  - destruct (filter _ SHEET_NAME_VALUES); repeat constructor.
  - unfold SHEET_NAME_VALUES. simpl.
    repeat case_bool_decide; repeat constructor.
Qed.

(** C3.  When the role label resolves to no partition, upsertWallet returns
    [skipped]; every data row of every sheet is as it was before the call (a
    row already stored for the same user included), and the requests sent
    are those of the setup alone: none writes to, inserts or deletes a data
    row. *)
Theorem upsertWallet_skips input (w : World Remote) :
  getSheetNameForRole (role input) = None ->
  exists w',
    upsertWallet input w = (Ok skipped, w')
    /\ (forall name,
          data_rows (sheets (remote w')) name = data_rows (sheets (remote w)) name)
    /\ (exists sent,
          requests (remote w') = requests (remote w) ++ sent
          /\ Forall (fun req => touches_data_rows req = false) sent).
Proof.
  intros Hnone. destruct w as [[ss reqs] sl en].
  eexists. split; [|split].
  - etrans; [apply upsertWallet_run|].
    unfold upsert_action, upsert_plan. by rewrite Hnone.
  - intros name. simpl. unfold upsert_sheets, upsert_plan. rewrite Hnone. simpl.
    apply data_rows_setup.
  - exists (setup_requests ss). simpl. split.
    + unfold upsert_requests, upsert_plan. rewrite Hnone. simpl. by rewrite app_nil_r.
    + apply setup_requests_spare_data.
Qed.

Lemma upsertWallet_skips_witness :
  exists w',
    upsertWallet (alice_as "") monarch_world = (Ok skipped, w')
    /\ (forall name,
          data_rows (sheets (remote w')) name
          = data_rows (sheets (remote monarch_world)) name)
    /\ (exists sent,
          requests (remote w') = requests (remote monarch_world) ++ sent
          /\ Forall (fun req => touches_data_rows req = false) sent).
Proof.
  apply (upsertWallet_skips (alice_as "") monarch_world). reflexivity.
Defined.

(** ** upsertWallet twice *)

Lemma overwrite_same (vals row : Row) (g : Grid) n :
  g !! n = Some row -> take 4 row = vals -> overwrite_row n vals g = g.
Proof.
  intros Hrow Htake. unfold overwrite_row. rewrite Hrow. simpl.
  rewrite <- Htake, take_drop. by apply list_insert_id.
Qed.

Lemma alter_same (f : list (list string) -> list (list string))
    (ss : gmap string (list (list string))) name g :
  ss !! name = Some g -> f g = g -> alter f name ss = ss.
Proof.
  intros Hg Hf. rewrite <- (insert_as_alter f ss name g Hg), Hf. by apply insert_id.
Qed.

(** On sheets that are set up and hold the user's only row in the target
    sheet, with the values of the input, upsertWallet overwrites that row
    with what it holds. *)
Lemma upsert_settled input ss target :
  getSheetNameForRole (role input) = Some target ->
  set_up ss ->
  one_row_in (discordId input) (new_row input) target ss ->
  upsert_action input ss = updated
  /\ upsert_sheets input ss = ss
  /\ exists i row,
       data_rows ss target !! i = Some row /\ bears (discordId input) row
       /\ upsert_requests input ss
          = [ValuesUpdate target 0 (Z.of_nat i + 2) (new_row input)].
Proof.
  intros Htarget Hs (Hone & Hothers & Hvals).
  pose proof (getSheetNameForRole_known _ _ Htarget) as Hknown.
  unfold upsert_action, upsert_sheets, upsert_requests, upsert_plan.
  rewrite (set_up_setup_id ss Hs), (set_up_no_requests ss Hs), Htarget.
  destruct (locate_in (discordId input) SHEET_NAME_VALUES ss) as [loc|] eqn:Hloc.
  2:{ pose proof (locate_in_None _ _ _ Hloc target Hknown). lia. }
  destruct (locate_in_Some _ _ _ _ Hloc) as (Hin & i & row & Hnum & Hfind).
  destruct (found_row_counts _ _ _ _ _ Hfind) as (Hrow & Hbears & Hge).
  destruct (decide (loc_sheetName loc = target)) as [Heq|Hne].
  2:{ pose proof (Hothers _ Hin Hne). lia. }
  rewrite Heq in *. simpl. rewrite Hnum, row_index_data, !Heq.
  split; [done|]. split.
  - destruct (Hs target Hknown) as (h & rest & Hg & _).
    apply (alter_same _ ss target (h :: rest) Hg).
    unfold data_rows in Hrow. rewrite Hg in Hrow. simpl in Hrow.
    rewrite drop_0 in Hrow.
    apply (overwrite_same _ row); [done|].
    apply Hvals; [|done]. unfold data_rows. rewrite Hg. simpl. rewrite drop_0.
    by eapply list_elem_of_lookup_2.
  - by exists i, row.
Qed.

(** C4 (amended).  Let the user id be borne by at most one data row across
    the three partitions, and let the role label resolve to [target].  Two
    upsertWallet calls in a row with the same input leave exactly one row
    for the user, in [target] and with the input's values; the second call
    returns [updated], sends a single request, the overwrite of that row,
    and leaves the sheets as the first call left them. *)
Theorem upsertWallet_twice input (w : World Remote) target :
  getSheetNameForRole (role input) = Some target ->
  (total_occurrences (discordId input) (sheets (remote w)) <= 1)%nat ->
  exists action w1 w2,
    upsertWallet input w = (Ok action, w1)
    /\ upsertWallet input w1 = (Ok updated, w2)
    /\ one_row_in (discordId input) (new_row input) target (sheets (remote w2))
    /\ sheets (remote w2) = sheets (remote w1)
    /\ exists i row,
         data_rows (sheets (remote w1)) target !! i = Some row
         /\ bears (discordId input) row
         /\ requests (remote w2)
            = requests (remote w1)
              ++ [ValuesUpdate target 0 (Z.of_nat i + 2) (new_row input)].
Proof.
  intros Htarget Htotal. destruct w as [[ss reqs] sl en]. simpl in Htotal.
  destruct (upsert_sheets_one_row input ss target Htarget Htotal) as (Hrow & _ & _).
  pose proof (upsert_sheets_set_up input ss) as Hs.
  destruct (upsert_settled input _ target Htarget Hs Hrow)
    as (Hact & Hsame & i & row & Hi & Hb & Hreq).
  eexists _, _, _. split; [apply upsertWallet_run|].
  split; [etrans; [apply upsertWallet_run|]; by rewrite Hact|].
  simpl. rewrite Hsame. split; [done|]. split; [done|].
  exists i, row. by rewrite Hreq.
Qed.

Lemma upsertWallet_twice_witness :
  exists action w1 w2,
    upsertWallet (alice_as "Monadian") monarch_world = (Ok action, w1)
    /\ upsertWallet (alice_as "Monadian") w1 = (Ok updated, w2)
    /\ one_row_in "user1" ["alice"; "user1"; "0xabc"; "Monadian"] "Monadians"
         (sheets (remote w2))
    /\ sheets (remote w2) = sheets (remote w1)
    /\ exists i row,
         data_rows (sheets (remote w1)) "Monadians" !! i = Some row
         /\ bears "user1" row
         /\ requests (remote w2)
            = requests (remote w1)
              ++ [ValuesUpdate "Monadians" 0 (Z.of_nat i + 2)
                    ["alice"; "user1"; "0xabc"; "Monadian"]].
Proof.
  apply (upsertWallet_twice (alice_as "Monadian") monarch_world "Monadians").
  - reflexivity.
  - vm_compute. lia.
Defined.

(** C4 as stated fails: with the user id in two rows of one partition, two
    upsertWallet calls in a row still leave two rows bearing it. *)
Lemma upsertWallet_twice_counterexample :
  ~ (forall input (w : World Remote) target,
       getSheetNameForRole (role input) = Some target ->
       in_at_most_one_partition (discordId input) (sheets (remote w)) ->
       exists action w1 w2,
         upsertWallet input w = (Ok action, w1)
         /\ upsertWallet input w1 = (Ok updated, w2)
         /\ one_row_in (discordId input) (new_row input) target (sheets (remote w2))).
Proof.
  intros Hclaim.
  destruct (Hclaim (alice_as "Monarch") twice_world "Monarch" eq_refl)
    as (action & w1 & w2 & Hrun1 & Hrun2 & Hone & _).
  - vm_compute. lia.
  - assert (Hw1 : w1 = snd (upsertWallet (alice_as "Monarch") twice_world))
      by (by rewrite Hrun1).
    assert (Hw2 : w2 = snd (upsertWallet (alice_as "Monarch") w1))
      by (by rewrite Hrun2).
    rewrite Hw2, Hw1 in Hone. vm_compute in Hone. discriminate.
Qed.

(** ** The record locator *)

Section FirstMatch.
Context {X : Type} (P : X -> Prop) `{forall x, Decision (P x)}.

Lemma snd_shift (o : option (nat * X)) :
  snd <$> (prod_map S id <$> o) = snd <$> o.
Proof. by destruct o as [[i x]|]. Qed.

Lemma first_app (l1 l2 : list X) :
  snd <$> list_find P (l1 ++ l2)
  = match snd <$> list_find P l1 with
    | Some x => Some x
    | None => snd <$> list_find P l2
    end.
Proof.
  induction l1 as [|x l1 IH]; simpl.
  - by destruct (list_find P l2).
  - destruct (decide (P x)); [done|].
    rewrite !snd_shift. exact IH.
Qed.

Lemma first_imap {Y} (Q : Y -> Prop) `{forall y, Decision (Q y)}
    (g : nat -> X -> Y) (l : list X) :
  (forall i x, Q (g i x) <-> P x) ->
  snd <$> list_find Q (imap g l)
  = (fun p => g (fst p) (snd p)) <$> list_find P l.
Proof.
  revert g. induction l as [|x l IH]; intros g Hg; [done|].
  cbn [imap list_find].
  destruct (decide (P x)) as [HP|HP].
  - by rewrite decide_True by (by apply Hg).
  - rewrite decide_False by (by rewrite Hg).
    specialize (IH (g ∘ S) (fun i x => Hg (S i) x)).
    destruct (list_find Q (imap (g ∘ S) l)) as [[i y]|];
      destruct (list_find P l) as [[j z]|]; simpl in *; congruence.
Qed.
End FirstMatch.

Lemma locate_in_first discordId names ss :
  (fun c => mkLocation (fst (fst c)) (snd (fst c)))
    <$> (snd <$> list_find (fun c => bears discordId (snd c))
           (flat_map (fun name =>
              imap (fun i row => (name, Z.of_nat i + 2, row)) (data_rows ss name)) names))
  = locate_in discordId names ss.
Proof.
  induction names as [|name names IH]; [done|].
  cbn [flat_map locate_in]. rewrite first_app.
  rewrite (first_imap (bears discordId) (fun c => bears discordId (snd c))) by done.
  destruct (list_find (bears discordId) (data_rows ss name)) as [[i row]|]; simpl; [done|].
  apply IH.
Qed.

Lemma record_of_row_take (row : Row) : record_of_row (take 4 row) = record_of_row row.
Proof. unfold record_of_row. by rewrite !lookup_take_lt by lia. Qed.

Lemma find_record_spec discordId (rows : list (list string)) :
  find_record discordId (map (take 4) rows)
  = (fun p => record_of_row (snd p)) <$> list_find (bears discordId) rows.
Proof.
  induction rows as [|row rows IH]; [done|].
  cbn [map find_record list_find].
  destruct (decide (bears discordId row)) as [Hb|Hb].
  - rewrite bool_decide_eq_true_2 by (by apply (bears_take discordId row)).
    simpl. by rewrite record_of_row_take.
  - rewrite bool_decide_eq_false_2
      by (intros H; by apply Hb, (bears_take discordId row)).
    rewrite IH. by destruct (list_find (bears discordId) rows) as [[j x]|].
Qed.

Lemma getWallet_scan_run discordId names ss reqs sl en :
  (forall name, name ∈ names -> is_Some (ss !! name)) ->
  getWallet_scan discordId names (world_of ss reqs sl en)
  = (Ok (record_in discordId names ss), world_of ss reqs sl en).
Proof.
  induction names as [|name names IH]; intros Hex; [done|].
  destruct (Hex name ltac:(by left)) as [g Hg].
  cbn [getWallet_scan record_in].
  erewrite bind_ok by (by eapply call_values_get).
  erewrite window_data by done. rewrite find_record_spec.
  destruct (list_find (bears discordId) (data_rows ss name)) as [[i x]|]; simpl.
  - done.
  - apply IH. intros n Hn. apply Hex. by right.
Qed.

Lemma record_in_first discordId names ss :
  (fun c => record_of_row (snd c))
    <$> (snd <$> list_find (fun c => bears discordId (snd c))
           (flat_map (fun name =>
              imap (fun i row => (name, Z.of_nat i + 2, row)) (data_rows ss name)) names))
  = record_in discordId names ss.
Proof.
  induction names as [|name names IH]; [done|].
  cbn [flat_map record_in]. rewrite first_app.
  rewrite (first_imap (bears discordId) (fun c => bears discordId (snd c))) by done.
  destruct (list_find (bears discordId) (data_rows ss name)) as [[i row]|]; simpl; [done|].
  apply IH.
Qed.

Lemma scan_order_setup ss : scan_order (setup_sheets ss) = scan_order ss.
Proof.
  unfold scan_order. apply flat_map_ext. intros name. by rewrite data_rows_setup.
Qed.

Lemma first_match_setup discordId ss :
  first_match discordId (setup_sheets ss) = first_match discordId ss.
Proof. unfold first_match. by rewrite scan_order_setup. Qed.

(** What a first match is, in terms of the sheets. *)
Lemma first_match_Some discordId ss name rowNumber row :
  first_match discordId ss = Some (name, rowNumber, row) ->
  name ∈ SHEET_NAME_VALUES
  /\ bears discordId row
  /\ (exists i, rowNumber = Z.of_nat i + 2
        /\ data_rows ss name !! i = Some row
        /\ forall j r, data_rows ss name !! j = Some r -> (j < i)%nat ->
             ~ bears discordId r)
  /\ (forall earlier, earlier ∈ scanned_before name ->
        occurrences discordId ss earlier = 0%nat).
Proof.
  unfold first_match, scan_order, scanned_before.
  induction SHEET_NAME_VALUES as [|n names IH]; [done|].
  cbn [flat_map]. rewrite first_app.
  rewrite (first_imap (bears discordId) (fun c => bears discordId (snd c))) by done.
  destruct (list_find (bears discordId) (data_rows ss n)) as [[i r]|] eqn:Hfind; simpl.
  - intros [= <- <- <-]. apply list_find_Some in Hfind as (Hi & Hb & Hfirst).
    split; [by left|]. split; [done|]. split; [by eauto|].
    cbn [names_before]. rewrite decide_True by done.
    intros earlier Hin. by apply elem_of_nil in Hin.
  - intros Hrest. destruct (IH Hrest) as (Hin & Hb & Hi & Hearlier).
    split; [by right|]. split; [done|]. split; [done|].
    intros earlier He. cbn [names_before] in He.
    destruct (decide (n = name)) as [Heq|Hne].
    + by apply elem_of_nil in He.
    + apply elem_of_cons in He as [->|He]; [|by apply Hearlier].
      unfold occurrences. apply count_zero.
      apply list_find_None in Hfind. by apply Forall_forall.
Qed.

Lemma first_match_None discordId ss :
  first_match discordId ss = None <->
  forall name, name ∈ SHEET_NAME_VALUES -> occurrences discordId ss name = 0%nat.
Proof.
  unfold first_match, scan_order.
  induction SHEET_NAME_VALUES as [|n names IH].
  - split; [|done]. intros _ name Hname. by apply elem_of_nil in Hname.
  - cbn [flat_map]. rewrite first_app.
    rewrite (first_imap (bears discordId) (fun c => bears discordId (snd c))) by done.
    destruct (list_find (bears discordId) (data_rows ss n)) as [[i r]|] eqn:Hfind; simpl.
    + split; [done|]. intros Hzero. exfalso.
      destruct (found_row_counts _ _ _ _ _ Hfind) as (_ & _ & Hge).
      specialize (Hzero n ltac:(by left)). lia.
    + rewrite IH. split.
      * intros Hrest name [->|Hname]%elem_of_cons; [|by apply Hrest].
        unfold occurrences. apply count_zero.
        apply list_find_None in Hfind. by apply Forall_forall.
      * intros Hall name Hname. apply Hall. by right.
Qed.

(** C8.  The record locator.  getWallet, and the scan with which
    upsertWallet looks for the user's current row, go through the partitions
    in the order Monadians, Monarch, Monalista and through the data rows of
    a partition in row order, and report the first row whose identity column
    is the user id: getWallet its record, the scan its sheet and row number.
    The reported row is the first bearing the id in its sheet, and no sheet
    scanned before holds a row bearing the id; rows in sheets scanned later
    play no part.  Nothing is reported exactly when no data row of the three
    partitions bears the id. *)
Theorem locator_first_match discordId (w : World Remote) :
  (exists w',
     getWallet discordId w
     = (Ok ((fun c => record_of_row (snd c)) <$> first_match discordId (sheets (remote w))),
        w')
     /\ (ensureSheetSetup ;; locate_existing discordId SHEET_NAME_VALUES) w
        = (Ok ((fun c => mkLocation (fst (fst c)) (snd (fst c)))
                 <$> first_match discordId (sheets (remote w))),
           w'))
  /\ (first_match discordId (sheets (remote w)) = None <->
      forall name, name ∈ SHEET_NAME_VALUES ->
        occurrences discordId (sheets (remote w)) name = 0%nat)
  /\ (forall name rowNumber row,
        first_match discordId (sheets (remote w)) = Some (name, rowNumber, row) ->
        name ∈ SHEET_NAME_VALUES
        /\ bears discordId row
        /\ (exists i, rowNumber = Z.of_nat i + 2
              /\ data_rows (sheets (remote w)) name !! i = Some row
              /\ forall j r, data_rows (sheets (remote w)) name !! j = Some r ->
                   (j < i)%nat -> ~ bears discordId r)
        /\ (forall earlier, earlier ∈ scanned_before name ->
              occurrences discordId (sheets (remote w)) earlier = 0%nat))
  /\ scanned_before "Monadians" = []
  /\ scanned_before "Monarch" = ["Monadians"]
  /\ scanned_before "Monalista" = ["Monadians"; "Monarch"].
Proof.
  destruct w as [[ss reqs] sl en]. cbn [sheets remote].
  split; [|split; [apply first_match_None|split; [apply first_match_Some|done]]].
  exists (world_of (setup_sheets ss) (reqs ++ setup_requests ss) sl en).
  assert (Hex : forall name, name ∈ SHEET_NAME_VALUES -> is_Some (setup_sheets ss !! name)).
  { intros name Hname.
    destruct (setup_sheets_ready ss name Hname) as (h & rest & ->). eauto. }
  split.
  - unfold getWallet. erewrite bind_ok by apply ensureSheetSetup_run.
    rewrite getWallet_scan_run by done.
    rewrite <- record_in_first. fold (scan_order (setup_sheets ss)).
    fold (first_match discordId (setup_sheets ss)). by rewrite first_match_setup.
  - erewrite bind_ok by apply ensureSheetSetup_run. cbv beta.
    rewrite locate_existing_run by done.
    rewrite <- locate_in_first. fold (scan_order (setup_sheets ss)).
    fold (first_match discordId (setup_sheets ss)). by rewrite first_match_setup.
Qed.

(** ** Requests are only ever added *)

Lemma grows_ret {A} (a : A) : grows (ret a).
Proof. intros w. exists []. simpl. by rewrite app_nil_r. Qed.

Lemma grows_throw {A} e : grows (@throw Remote A e).
Proof. intros w. exists []. simpl. by rewrite app_nil_r. Qed.

Lemma grows_bind {A B} (m : M Remote A) (k : A -> M Remote B) :
  grows m -> (forall a, grows (k a)) -> grows (bind m k).
Proof.
  intros Hm Hk w. unfold bind. destruct (Hm w) as [r1 H1].
  destruct (m w) as [[a|e] w1]; simpl in *.
  - destruct (Hk a w1) as [r2 H2]. exists (r1 ++ r2).
    by rewrite H2, H1, app_assoc.
  - by exists r1.
Qed.

Lemma grows_call {A} (f : Api Remote A) :
  api_grows f -> steady_api f -> grows (callWithRetry f).
Proof.
  intros Hg Hs w. rewrite callWithRetry_steady by (intros e s; apply Hs).
  unfold attempt_once. destruct (Hg (remote w)) as [rest Hrest].
  destruct (f (remote w)) as [o s]. by exists rest.
Qed.

Lemma with_sheet_grows {A} title r (k : Grid -> outcome A * Remote) :
  (forall g, exists rest, requests (snd (k g)) = requests r ++ rest) ->
  exists rest, requests (snd (with_sheet title r k)) = requests r ++ rest.
Proof.
  intros Hk. unfold with_sheet. destruct (sheets r !! title); [done|].
  exists []. simpl. by rewrite app_nil_r.
Qed.

Ltac api_grows :=
  intros r; simpl;
  repeat match goal with
         | |- context [if ?b then _ else _] => destruct b
         end;
  try (exists []; simpl; by rewrite app_nil_r);
  try (apply with_sheet_grows; intros g; simpl; eauto);
  try (simpl; eauto).

Lemma spreadsheets_get_grows : grows (callWithRetry spreadsheets_get).
Proof.
  apply grows_call.
  - intros r. exists []. simpl. by rewrite app_nil_r.
  - intros r e s H. inversion H.
Qed.

Lemma addSheet_grows titles : grows (callWithRetry (batchUpdate_addSheet titles)).
Proof.
  apply grows_call.
  - unfold batchUpdate_addSheet. api_grows.
  - intros r. unfold batchUpdate_addSheet. steady.
Qed.

Lemma deleteDimension_grows title a b :
  grows (callWithRetry (batchUpdate_deleteDimension title a b)).
Proof.
  apply grows_call.
  - unfold batchUpdate_deleteDimension. api_grows.
  - intros r. unfold batchUpdate_deleteDimension. steady.
Qed.

Lemma values_get_grows title a b : grows (callWithRetry (values_get title a b)).
Proof.
  apply grows_call.
  - unfold values_get. api_grows. exists []. by rewrite app_nil_r.
  - intros r. unfold values_get. steady.
Qed.

Lemma values_update_grows title col row vals :
  grows (callWithRetry (values_update title col row vals)).
Proof.
  apply grows_call.
  - unfold values_update. api_grows.
  - intros r. unfold values_update. steady.
Qed.

Lemma values_append_grows title vals : grows (callWithRetry (values_append title vals)).
Proof.
  apply grows_call.
  - unfold values_append. api_grows.
  - intros r. unfold values_append. steady.
Qed.

Lemma deleteRowFromSheet_grows sheetName rowNumber :
  grows (deleteRowFromSheet sheetName rowNumber).
Proof.
  unfold deleteRowFromSheet. apply grows_bind; [apply spreadsheets_get_grows|].
  intros titles. case_bool_decide; [apply deleteDimension_grows|apply grows_ret].
Qed.

Lemma ensureSheetSetup_grows : grows ensureSheetSetup.
Proof.
  intros [[ss reqs] sl en].
  change (mkWorld (mkRemote ss reqs) sl en) with (world_of ss reqs sl en).
  rewrite ensureSheetSetup_run. simpl. eauto.
Qed.

Lemma upsertWallet_grows input : grows (upsertWallet input).
Proof.
  intros [[ss reqs] sl en].
  change (mkWorld (mkRemote ss reqs) sl en) with (world_of ss reqs sl en).
  rewrite upsertWallet_run. simpl. eauto.
Qed.

Lemma batchUpdateRoles_loop_grows updates nupdated nmoved :
  grows (batchUpdateRoles_loop updates nupdated nmoved).
Proof.
  revert nupdated nmoved.
  induction updates as [|u updates IH]; intros nupdated nmoved; [apply grows_ret|].
  cbn [batchUpdateRoles_loop].
  destruct (getSheetNameForRole (upd_newRole u)) as [target|].
  - destruct (negb _).
    + apply grows_bind; [apply deleteRowFromSheet_grows|]. intros _.
      apply grows_bind; [apply upsertWallet_grows|]. intros _. apply IH.
    + apply grows_bind; [apply values_update_grows|]. intros _. apply IH.
  - apply grows_bind; [apply deleteRowFromSheet_grows|]. intros _. apply IH.
Qed.

(** An operation that runs the setup and then only adds requests starts
    with the setup. *)
Lemma setup_then_grows {A} (body : M Remote A) :
  grows body -> starts_with_setup (ensureSheetSetup ;; body).
Proof.
  intros Hbody [[ss reqs] sl en]. unfold bind.
  change (mkWorld (mkRemote ss reqs) sl en) with (world_of ss reqs sl en).
  rewrite ensureSheetSetup_run. cbn [snd].
  apply (Hbody (world_of _ _ _ _)).
Qed.

Lemma locate_existing_grows discordId names : grows (locate_existing discordId names).
Proof.
  induction names as [|name names IH]; [apply grows_ret|].
  cbn [locate_existing]. apply grows_bind; [apply values_get_grows|].
  intros rows. destruct (find_row _ _ _); [apply grows_ret|apply IH].
Qed.

Lemma getWallet_scan_grows discordId names : grows (getWallet_scan discordId names).
Proof.
  induction names as [|name names IH]; [apply grows_ret|].
  cbn [getWallet_scan]. apply grows_bind; [apply values_get_grows|].
  intros rows. destruct (find_record _ _); [apply grows_ret|apply IH].
Qed.

Lemma listWallets_scan_grows names items : grows (listWallets_scan names items).
Proof.
  revert items. induction names as [|name names IH]; intros items; [apply grows_ret|].
  cbn [listWallets_scan]. apply grows_bind; [apply values_get_grows|].
  intros rows. apply IH.
Qed.

Lemma listWalletsWithRow_scan_grows names items :
  grows (listWalletsWithRow_scan names items).
Proof.
  revert items. induction names as [|name names IH]; intros items; [apply grows_ret|].
  cbn [listWalletsWithRow_scan]. apply grows_bind; [apply values_get_grows|].
  intros rows. apply IH.
Qed.

Lemma delete_sorted_grows sheetName sorted deleted :
  grows (delete_sorted sheetName sorted deleted).
Proof.
  revert deleted. induction sorted as [|n sorted IH]; intros deleted; [apply grows_ret|].
  cbn [delete_sorted]. apply grows_bind; [apply deleteRowFromSheet_grows|].
  intros _. apply IH.
Qed.

Lemma delete_by_sheet_grows entries deleted : grows (delete_by_sheet entries deleted).
Proof.
  revert deleted.
  induction entries as [|[sheetName rowNumbers] entries IH]; intros deleted;
    [apply grows_ret|].
  cbn [delete_by_sheet]. apply grows_bind; [apply delete_sorted_grows|].
  intros d. apply IH.
Qed.

(** ** ensureSheetSetup and the header rows *)

Lemma header_write_sent ss names name :
  ValuesUpdate name 0 1 HEADER_ROW
    ∈ flat_map (fun n =>
        if bool_decide (header_cells ss n = HEADER_ROW) then []
        else [ValuesUpdate n 0 1 HEADER_ROW]) names
  <-> name ∈ names /\ header_cells ss name <> HEADER_ROW.
Proof.
  rewrite list_elem_of_In, in_flat_map. split.
  - intros (n & Hn%list_elem_of_In & Hin). case_bool_decide as Hh.
    + by destruct Hin.
    + destruct Hin as [[= ->]|[]]. done.
  - intros [Hn Hh]. exists name. split; [by apply list_elem_of_In|].
    rewrite bool_decide_eq_false_2 by done. by left.
Qed.

Lemma setup_requests_updates ss title col row vals :
  ValuesUpdate title col row vals ∈ setup_requests ss ->
  title ∈ SHEET_NAME_VALUES /\ col = 0%nat /\ row = 1 /\ vals = HEADER_ROW.
Proof.
  unfold setup_requests. intros [Hin|Hin]%elem_of_app.
  - destruct (filter _ SHEET_NAME_VALUES); [by apply elem_of_nil in Hin|].
    apply list_elem_of_singleton in Hin. done.
  - apply list_elem_of_In, in_flat_map in Hin as (n & Hn%list_elem_of_In & Hin).
    case_bool_decide; [by destruct Hin|].
    destruct Hin as [[= -> -> -> ->]|[]]. done.
Qed.

Lemma setup_requests_header ss name :
  name ∈ SHEET_NAME_VALUES ->
  ValuesUpdate name 0 1 HEADER_ROW ∈ setup_requests ss
  <-> header_cells ss name <> HEADER_ROW.
Proof.
  intros Hname. unfold setup_requests. rewrite elem_of_app, header_write_sent.
  split.
  - intros [Hin|[_ Hh]]; [|done].
    destruct (filter _ SHEET_NAME_VALUES); [by apply elem_of_nil in Hin|].
    by apply list_elem_of_singleton in Hin.
  - intros Hh. by right.
Qed.

(** C9 (amended).  ensureSheetSetup always completes; afterwards the three
    partitions exist and the header cells A1:D1 of each are exactly the
    schema.  The header of a partition is written if and only if it was
    absent or differed from the schema, and nothing but headers of the
    partitions is written.  upsertWallet, getWallet, listWallets,
    listWalletsWithRow and batchDeleteRows start with the setup on every
    input, and batchUpdateRoles does on every list that is not empty. *)
Theorem ensureSheetSetup_headers (w : World Remote) input discordId items update updates :
  (exists w',
     ensureSheetSetup w = (Ok tt, w')
     /\ (forall name, name ∈ SHEET_NAME_VALUES ->
           is_Some (sheets (remote w') !! name)
           /\ header_cells (sheets (remote w')) name = HEADER_ROW)
     /\ (exists sent,
           requests (remote w') = requests (remote w) ++ sent
           /\ (forall name, name ∈ SHEET_NAME_VALUES ->
                 ValuesUpdate name 0 1 HEADER_ROW ∈ sent
                 <-> header_cells (sheets (remote w)) name <> HEADER_ROW)
           /\ (forall title col row vals,
                 ValuesUpdate title col row vals ∈ sent ->
                 title ∈ SHEET_NAME_VALUES /\ col = 0%nat /\ row = 1
                 /\ vals = HEADER_ROW)))
  /\ starts_with_setup (upsertWallet input)
  /\ starts_with_setup (getWallet discordId)
  /\ starts_with_setup listWallets
  /\ starts_with_setup listWalletsWithRow
  /\ starts_with_setup (batchDeleteRows items)
  /\ starts_with_setup (batchUpdateRoles (update :: updates)).
Proof.
  split.
  { destruct w as [[ss reqs] sl en].
    exists (world_of (setup_sheets ss) (reqs ++ setup_requests ss) sl en).
    split; [apply ensureSheetSetup_run|]. cbn [sheets requests remote world_of].
    split.
    - intros name Hname. split; [|by apply header_cells_setup].
      destruct (setup_sheets_ready ss name Hname) as (h & rest & ->). eauto.
    - exists (setup_requests ss). split; [done|].
      split; [apply setup_requests_header|apply setup_requests_updates]. }
  split.
  { unfold upsertWallet. apply setup_then_grows.
    destruct (getSheetNameForRole (role input)) as [target|]; [|apply grows_ret].
    apply grows_bind; [apply locate_existing_grows|]. intros found.
    apply grows_bind.
    - destruct found as [loc|]; [|apply grows_ret].
      destruct (negb _); [|apply grows_ret].
      apply grows_bind; [apply deleteRowFromSheet_grows|]. intros _. apply grows_ret.
    - intros [loc|].
      + apply grows_bind; [apply values_update_grows|]. intros _. apply grows_ret.
      + apply grows_bind; [apply values_append_grows|]. intros _. apply grows_ret. }
  split; [apply setup_then_grows, getWallet_scan_grows|].
  split; [apply setup_then_grows, listWallets_scan_grows|].
  split; [apply setup_then_grows, listWalletsWithRow_scan_grows|].
  split.
  { unfold batchDeleteRows. apply setup_then_grows.
    destruct (length items =? 0)%nat; [apply grows_ret|].
    destruct (group_by_sheet items []); [apply delete_by_sheet_grows|apply grows_throw]. }
  unfold batchUpdateRoles. cbn [length Nat.eqb].
  apply setup_then_grows, batchUpdateRoles_loop_grows.
Qed.

(** C9 as stated fails for batchUpdateRoles: on an empty list it returns
    before the setup, so from a spreadsheet without sheets it sends nothing,
    where the setup creates the partitions and writes their headers. *)
Lemma batchUpdateRoles_empty_counterexample :
  ~ starts_with_setup (batchUpdateRoles [])
  /\ batchUpdateRoles [] blank_world = (Ok (mkBatchResult 0 0), blank_world)
  /\ sheets (remote (snd (batchUpdateRoles [] blank_world))) !! "Monadians" = None.
Proof.
  split; [|split; reflexivity].
  intros Hstarts. destruct (Hstarts blank_world) as [rest Hrest].
  vm_compute in Hrest. discriminate.
Qed.

(** ** batchUpdateRoles *)

Lemma bind_assoc {St A B C} (m : M St A) (k : A -> M St B) (h : B -> M St C) w :
  bind (bind m k) h w = bind m (fun a => bind (k a) h) w.
Proof. unfold bind. by destruct (m w) as [[a|e] w1]. Qed.

Lemma bind_ext {St A B} (m : M St A) (k k' : A -> M St B) w :
  (forall a w1, k a w1 = k' a w1) -> bind m k w = bind m k' w.
Proof. intros Hk. unfold bind. destruct (m w) as [[a|e] w1]; [apply Hk|done]. Qed.

Lemma tally_cons_updated t updates :
  counted_as t = CountsUpdated ->
  reconcile_tally (t :: updates)
  = mkBatchResult (S (res_updated (reconcile_tally updates)))
      (res_moved (reconcile_tally updates)).
Proof.
  intros Ht. unfold reconcile_tally. rewrite !filter_cons, Ht.
  rewrite decide_True by done. by rewrite decide_False by done.
Qed.

Lemma tally_cons_moved t updates :
  counted_as t = CountsMoved ->
  reconcile_tally (t :: updates)
  = mkBatchResult (res_updated (reconcile_tally updates))
      (S (res_moved (reconcile_tally updates))).
Proof.
  intros Ht. unfold reconcile_tally. rewrite !filter_cons, Ht.
  rewrite decide_False by done. by rewrite decide_True by done.
Qed.

(** The loop with its two counters is the sequence of the transitions,
    followed by the report of the tallies. *)
Lemma batchUpdateRoles_loop_refines updates : forall nupdated nmoved w,
  batchUpdateRoles_loop updates nupdated nmoved w
  = (for_of updates reconcile_one ;;
     ret (mkBatchResult (nupdated + res_updated (reconcile_tally updates))
            (nmoved + res_moved (reconcile_tally updates)))) w.
Proof.
  induction updates as [|t updates IH]; intros nupdated nmoved w.
  - cbn. by rewrite !Nat.add_0_r.
  - cbn [batchUpdateRoles_loop for_of]. rewrite bind_assoc.
    unfold reconcile_one, counted_as in *.
    pose proof (tally_cons_updated t updates) as Hup.
    pose proof (tally_cons_moved t updates) as Hmv.
    unfold counted_as in Hup, Hmv.
    destruct (getSheetNameForRole (upd_newRole t)) as [partition|].
    + destruct (decide (partition = upd_sheetName t)) as [Heq|Hne].
      * replace (String.eqb (upd_sheetName t) partition) with true
          by (symmetry; by apply String.eqb_eq).
        cbn [negb]. apply bind_ext. intros _ w1. rewrite IH, Hup by done.
        cbn [res_updated res_moved]. by rewrite Nat.add_succ_r.
      * replace (String.eqb (upd_sheetName t) partition) with false
          by (symmetry; apply String.eqb_neq; congruence).
        cbn [negb]. rewrite bind_assoc. apply bind_ext. intros _ w1.
        rewrite bind_assoc. apply bind_ext. intros _ w2.
        rewrite IH, Hmv by done. cbn [res_updated res_moved].
        by rewrite Nat.add_succ_r.
    + apply bind_ext. intros _ w1. rewrite IH, Hup by done.
      cbn [res_updated res_moved]. by rewrite Nat.add_succ_r.
Qed.

Lemma partitions_exist_alter (f : list (list string) -> list (list string)) t ss :
  partitions_exist ss -> partitions_exist (alter f t ss).
Proof.
  intros Hex name Hname. destruct (Hex name Hname) as [g Hg].
  destruct (decide (name = t)) as [->|Hne].
  - rewrite lookup_alter_eq, Hg. eauto.
  - rewrite lookup_alter_ne by done. eauto.
Qed.

Lemma set_up_partitions_exist ss : set_up ss -> partitions_exist ss.
Proof. intros Hs name Hname. destruct (Hs name Hname) as (h & rest & -> & _). eauto. Qed.

Lemma step_sheets_partitions_exist ss t :
  partitions_exist ss -> partitions_exist (step_sheets ss t).
Proof.
  intros Hex. unfold step_sheets, delete_row_sheets.
  destruct (getSheetNameForRole (upd_newRole t)) as [partition|].
  - destruct (decide _).
    + by apply partitions_exist_alter.
    + apply set_up_partitions_exist, upsert_sheets_set_up.
  - by apply partitions_exist_alter.
Qed.

(** One transition with a row number of at least 1 goes through. *)
Lemma reconcile_one_run t ss reqs sl en :
  partitions_exist ss -> 1 <= upd_rowNumber t ->
  exists reqs',
    reconcile_one t (world_of ss reqs sl en)
    = (Ok tt, world_of (step_sheets ss t) reqs' sl en).
Proof.
  intros Hex Hrow. unfold reconcile_one, step_sheets.
  destruct (getSheetNameForRole (upd_newRole t)) as [partition|] eqn:Hp.
  - destruct (decide (partition = upd_sheetName t)) as [Heq|Hne].
    + destruct (Hex partition (getSheetNameForRole_known _ _ Hp)) as [g Hg].
      rewrite Heq in Hg. eexists.
      erewrite call_values_update by done.
      by rewrite (insert_as_alter
                    (update_row 3 (upd_rowNumber t) [default "" (upd_newRole t)])
                    ss (upd_sheetName t) g).
    + eexists. erewrite bind_ok by (by apply deleteRowFromSheet_run).
      erewrite bind_ok by apply upsertWallet_run. reflexivity.
  - eexists. by apply deleteRowFromSheet_run.
Qed.

Lemma reconcile_all_run updates : forall ss reqs sl en,
  partitions_exist ss ->
  Forall (fun t => 1 <= upd_rowNumber t) updates ->
  exists reqs',
    for_of updates reconcile_one (world_of ss reqs sl en)
    = (Ok tt, world_of (foldl step_sheets ss updates) reqs' sl en).
Proof.
  induction updates as [|t updates IH]; intros ss reqs sl en Hex Hrows.
  - by exists reqs.
  - apply Forall_cons in Hrows as [Hrow Hrows].
    destruct (reconcile_one_run t ss reqs sl en Hex Hrow) as [reqs1 Hstep].
    destruct (IH (step_sheets ss t) reqs1 sl en
                (step_sheets_partitions_exist ss t Hex) Hrows) as [reqs2 Hrest].
    exists reqs2. cbn [for_of foldl]. erewrite bind_ok by exact Hstep. exact Hrest.
Qed.

(** ** Writing the role column *)

Lemma set_cells_role (old : Row) newRole i :
  i <> 3%nat ->
  default "" (set_cells 3 [newRole] old !! i) = default "" (old !! i).
Proof.
  intros Hi. unfold set_cells.
  destruct (decide (i < 3)%nat) as [Hlt|Hge].
  - rewrite lookup_app_l by (rewrite length_take, length_app, length_replicate; lia).
    rewrite lookup_take_lt by done.
    destruct (decide (i < length old)%nat).
    + by rewrite lookup_app_l.
    + rewrite lookup_app_r by lia.
      rewrite lookup_replicate_2 by lia.
      by rewrite lookup_ge_None_2 by lia.
  - assert (Hlen : length (take 3 (old ++ replicate (3 - length old) "")) = 3%nat).
    { rewrite length_take, length_app, length_replicate. lia. }
    rewrite lookup_app_r by lia. rewrite Hlen.
    destruct (i - 3)%nat as [|k] eqn:Hk; [lia|]. simpl.
    rewrite lookup_drop. f_equal. f_equal. lia.
Qed.

Lemma set_cells_role_written (old : Row) newRole :
  set_cells 3 [newRole] old !! 3%nat = Some newRole.
Proof.
  unfold set_cells.
  assert (Hlen : length (take 3 (old ++ replicate (3 - length old) "")) = 3%nat).
  { rewrite length_take, length_app, length_replicate. lia. }
  rewrite lookup_app_r by lia. by rewrite Hlen.
Qed.

Lemma role_write_frame (g : Grid) rowNumber newRole :
  1 <= rowNumber ->
  grid_cell (update_row 3 rowNumber [newRole] g) (row_index rowNumber) 3 = newRole
  /\ forall j i, (j, i) <> (row_index rowNumber, 3%nat) ->
       grid_cell (update_row 3 rowNumber [newRole] g) j i = grid_cell g j i.
Proof.
  intros Hrow. unfold update_row, grid_cell. fold (row_index rowNumber).
  set (n := row_index rowNumber).
  set (padded := g ++ replicate (S n - length g) []).
  assert (Hn : (n < length padded)%nat).
  { unfold padded. rewrite length_app, length_replicate. lia. }
  assert (Hpad : forall j, default [] (padded !! j) = default [] (g !! j)).
  { intros j. unfold padded. destruct (decide (j < length g)%nat).
    - by rewrite lookup_app_l.
    - rewrite lookup_app_r by lia. rewrite (lookup_ge_None_2 g j) by lia.
      destruct (decide (j - length g < S n - length g)%nat).
      + by rewrite lookup_replicate_2.
      + by rewrite lookup_ge_None_2 by (rewrite length_replicate; lia). }
  split.
  - rewrite list_lookup_insert_eq by done. simpl. by rewrite set_cells_role_written.
  - intros j i Hji. destruct (decide (j = n)) as [->|Hj].
    + rewrite list_lookup_insert_eq by done. simpl.
      apply set_cells_role. intros ->. by apply Hji.
    + rewrite list_lookup_insert_ne by done. by rewrite Hpad.
Qed.

(** C5.  batchUpdateRoles applies the transitions one after the other, in
    the order given, and reports the tallies.  An empty list returns
    [{updated: 0, moved: 0}] at once; otherwise, after the setup, each
    transition is a removal of the row at the given location (counted as
    updated) when the new role resolves to no partition, a move (that row
    deleted, then a full upsertWallet; counted as moved) when it resolves to
    another partition than the given one, and otherwise a write of the role
    cell at that location (counted as updated).  When every row number is at
    least 1 and at most 2^53, where the row indices sent are exact, the call
    completes with these tallies and the sheets are the transitions' effects
    applied in order.  The role write changes the cell
    in column D of that row and no other cell of the sheet; the removal
    takes that row out and moves the later rows up by one. *)
Theorem batchUpdateRoles_reconciles updates (w : World Remote) :
  batchUpdateRoles updates w
  = match updates with
    | [] => (Ok (mkBatchResult 0 0), w)
    | _ => (ensureSheetSetup ;; reconcile updates) w
    end
  /\ (Forall (fun t => 1 <= upd_rowNumber t <= 2 ^ 53) updates ->
      exists w',
        batchUpdateRoles updates w = (Ok (reconcile_tally updates), w')
        /\ sheets (remote w')
           = match updates with
             | [] => sheets (remote w)
             | _ => foldl step_sheets (setup_sheets (sheets (remote w))) updates
             end)
  /\ (forall (g : Grid) rowNumber newRole,
        1 <= rowNumber ->
        grid_cell (update_row 3 rowNumber [newRole] g) (row_index rowNumber) 3 = newRole
        /\ forall j i, (j, i) <> (row_index rowNumber, 3%nat) ->
             grid_cell (update_row 3 rowNumber [newRole] g) j i = grid_cell g j i)
  /\ (forall (g : Grid) rowNumber j,
        delete (row_index rowNumber) g !! j
        = if decide (j < row_index rowNumber)%nat then g !! j else g !! S j).
Proof.
  assert (Hrefines : batchUpdateRoles updates w
            = match updates with
              | [] => (Ok (mkBatchResult 0 0), w)
              | _ => (ensureSheetSetup ;; reconcile updates) w
              end).
  { destruct updates as [|t updates]; [done|].
    unfold batchUpdateRoles, reconcile. cbn [length Nat.eqb].
    apply bind_ext. intros _ w1. by rewrite batchUpdateRoles_loop_refines. }
  split; [exact Hrefines|]. split; [|split].
  - intros Hexact. rewrite Hrefines.
    assert (Hrows : Forall (fun t => 1 <= upd_rowNumber t) updates).
    { eapply Forall_impl; [exact Hexact|]. simpl. intros t Ht. lia. }
    clear Hexact. destruct updates as [|t updates].
    { by exists w. }
    destruct w as [[ss reqs] sl en].
    change (mkWorld (mkRemote ss reqs) sl en) with (world_of ss reqs sl en).
    erewrite bind_ok by apply ensureSheetSetup_run.
    destruct (reconcile_all_run (t :: updates) (setup_sheets ss)
                (reqs ++ setup_requests ss) sl en
                (set_up_partitions_exist _ (setup_sheets_set_up ss)) Hrows)
      as [reqs' Hrun].
    unfold reconcile. erewrite bind_ok by exact Hrun. by eexists.
  - intros g rowNumber newRole. apply role_write_frame.
  - intros g rowNumber j. destruct (decide (j < row_index rowNumber)%nat).
    + by apply list_lookup_delete_lt.
    + apply list_lookup_delete_ge. lia.
Qed.

Lemma batchUpdateRoles_reconciles_witness :
  exists w',
    batchUpdateRoles mixed_updates five_rows_world = (Ok (mkBatchResult 2 1), w')
    /\ sheets (remote w')
       = foldl step_sheets (setup_sheets (sheets (remote five_rows_world))) mixed_updates.
Proof.
  destruct (batchUpdateRoles_reconciles mixed_updates five_rows_world) as (_ & Hrun & _).
  apply Hrun. repeat constructor; simpl; lia.
Defined.

(** C2, on batchUpdateRoles: the transitions are applied in the order given,
    without sorting.  For ann (row 2) and bob (row 3) of one snapshot, row 2
    is deleted first and then row 3 of the shifted sheet, which by then
    holds cat: bob stays and cat is lost. *)
Theorem batchUpdateRoles_ascending_removals :
  let w' := snd (batchUpdateRoles two_removals five_rows_world) in
  fst (batchUpdateRoles two_removals five_rows_world) = Ok (mkBatchResult 2 0)
  /\ requests (remote w') = [DeleteRows "Monarch" 1 2; DeleteRows "Monarch" 2 3]
  /\ data_rows (sheets (remote w')) "Monarch"
     = [["bob"; "id-b"; "0xb"; "Monarch"];
        ["dan"; "id-d"; "0xd"; "Monarch"];
        ["eve"; "id-e"; "0xe"; "Monarch"]].
Proof. vm_compute. done. Qed.

(** The same removals through batchDeleteRows go from the bottom up and hit
    the rows meant; the specification's example deletes row 5, then 3, then
    2. *)
Lemma batchDeleteRows_example :
  let w' := snd (batchDeleteRows three_deletions five_rows_world) in
  fst (batchDeleteRows three_deletions five_rows_world) = Ok 3%nat
  /\ requests (remote w')
     = [DeleteRows "Monarch" 4 5; DeleteRows "Monarch" 2 3; DeleteRows "Monarch" 1 2]
  /\ data_rows (sheets (remote w')) "Monarch"
     = [["cat"; "id-c"; "0xc"; "Monarch"]; ["eve"; "id-e"; "0xe"; "Monarch"]].
Proof. vm_compute. done. Qed.

(** ** batchDeleteRows: grouping *)

Lemma accepted_Some item sheetName rowNumber :
  accepted item = Some (sheetName, rowNumber) <->
  del_sheetName item = Some sheetName /\ del_rowNumber item = RowInt rowNumber
  /\ sheetName <> "" /\ 2 <= rowNumber.
Proof.
  unfold accepted. destruct item as [[s|] [n|]]; simpl;
    try (split; [done|by intros (? & ? & _)]).
  destruct (String.eqb s "") eqn:Hs; simpl.
  - apply String.eqb_eq in Hs. split; [done|]. intros ([= ->] & _ & Hne & _). done.
  - apply String.eqb_neq in Hs. destruct (n <? 2) eqn:Hn.
    + split; [done|]. intros ([= ->] & [= ->] & _ & Hge). lia.
    + split.
      * intros [= -> ->]. repeat split; try done. lia.
      * intros ([= ->] & [= ->] & _). done.
Qed.

Lemma group_by_sheet_Ok items : forall bySheet,
  plain_names items ->
  group_by_sheet items bySheet = Ok (group_pairs (valid_pairs items) bySheet).
Proof.
  unfold plain_names, valid_pairs, group_pairs.
  induction items as [|item items IH]; intros bySheet Hplain; [done|].
  cbn [group_by_sheet omap list_omap]. fold (omap accepted items) in *.
  cbn [omap list_omap] in Hplain. fold (omap accepted items) in *.
  destruct (accepted item) as [[s n]|].
  - apply Forall_cons in Hplain as [Hs Hplain]. simpl in Hs.
    rewrite bool_decide_eq_false_2 by done. cbn [foldl fst snd]. by apply IH.
  - by apply IH.
Qed.

Lemma group_by_sheet_Throw items : forall bySheet,
  ~ plain_names items -> group_by_sheet items bySheet = Throw plain_error.
Proof.
  unfold plain_names, valid_pairs.
  induction items as [|item items IH]; intros bySheet Hplain.
  - exfalso. apply Hplain. constructor.
  - cbn [group_by_sheet]. cbn [omap list_omap] in Hplain.
    fold (omap accepted items) in *.
    destruct (accepted item) as [[s n]|].
    + case_bool_decide as Hs; [done|]. apply IH. intros Hrest. apply Hplain.
      by constructor.
    + by apply IH.
Qed.

Lemma push_row_keys sheetName rowNumber bySheet :
  NoDup (map fst bySheet) -> NoDup (map fst (push_row sheetName rowNumber bySheet))
  /\ forall k, k ∈ map fst (push_row sheetName rowNumber bySheet)
       <-> k ∈ map fst bySheet \/ k = sheetName.
Proof.
  induction bySheet as [|[k rows] bySheet IH]; intros Hnd.
  - simpl. split; [repeat constructor; by intros ?%elem_of_nil|].
    intros k. rewrite list_elem_of_singleton, elem_of_nil. tauto.
  - cbn [push_row]. apply NoDup_cons in Hnd as [Hk Hnd]. simpl in Hk.
    destruct (String.eqb k sheetName) eqn:Hks.
    + apply String.eqb_eq in Hks as ->. split.
      * simpl. by apply NoDup_cons.
      * intros k. simpl. rewrite elem_of_cons. tauto.
    + apply String.eqb_neq in Hks. destruct (IH Hnd) as [Hnd' Hkeys]. split.
      * simpl. apply NoDup_cons. split; [|done].
        rewrite Hkeys. intros [?|?]; done.
      * intros k'. simpl. rewrite !elem_of_cons, Hkeys. tauto.
Qed.

Lemma push_row_pairs sheetName rowNumber bySheet p :
  p ∈ pairs_of (push_row sheetName rowNumber bySheet)
  <-> p ∈ pairs_of bySheet \/ p = (sheetName, rowNumber).
Proof.
  unfold pairs_of. induction bySheet as [|[k rows] bySheet IH].
  - simpl. rewrite list_elem_of_singleton, elem_of_nil. tauto.
  - cbn [push_row]. destruct (String.eqb k sheetName) eqn:Hks.
    + apply String.eqb_eq in Hks as ->. cbn [flat_map fst snd].
      rewrite map_app, !elem_of_app. simpl. rewrite list_elem_of_singleton. tauto.
    + cbn [flat_map fst snd]. rewrite !elem_of_app, IH. tauto.
Qed.

Lemma group_pairs_spec pairs : forall bySheet,
  NoDup (map fst bySheet) ->
  NoDup (map fst (group_pairs pairs bySheet))
  /\ forall p, p ∈ pairs_of (group_pairs pairs bySheet)
       <-> p ∈ pairs_of bySheet \/ p ∈ pairs.
Proof.
  unfold group_pairs.
  induction pairs as [|[s n] pairs IH]; intros bySheet Hnd.
  - simpl. split; [done|]. intros p. rewrite elem_of_nil. tauto.
  - cbn [foldl fst snd]. destruct (push_row_keys s n bySheet Hnd) as [Hnd' _].
    destruct (IH _ Hnd') as [Hnd'' Hpairs]. split; [done|].
    intros p. rewrite Hpairs, push_row_pairs, elem_of_cons. tauto.
Qed.

(** ** batchDeleteRows: the order of the entries and of the rows *)

Lemma Object_entries_perm {V} (o : list (string * V)) : Object_entries o ≡ₚ o.
Proof.
  unfold Object_entries. rewrite merge_sort_Permutation.
  assert (Hidx : map snd (omap (fun e => (fun n => (n, e)) <$> array_index (fst e)) o)
                 = filter (fun e => array_index (fst e) <> None) o).
  { induction o as [|e o IH]; [done|].
    cbn [omap list_omap]. rewrite filter_cons.
    fold (omap (fun e => (fun n => (n, e)) <$> array_index (fst e)) o).
    destruct (decide (array_index (fst e) <> None)) as [Hd|Hd];
      destruct (array_index (fst e)) eqn:He; simpl; try done.
    + by rewrite IH.
    + exfalso. by apply Hd. }
  rewrite Hidx.
  rewrite <- (filter_app_complement (fun e => array_index (fst e) <> None) o) at 3.
  apply Permutation_app; [done|].
  assert (Heq : filter (fun e => array_index (fst e) = None) o
                = filter (fun e => ~ array_index (fst e) <> None) o).
  { apply list_filter_iff. intros e.
    destruct (array_index (fst e)) as [n|]; split; try done.
    - intros H. exfalso. by apply H.
    - intros _ H. by apply H. }
  by rewrite Heq.
Qed.

Lemma array_from_set_elem (xs : list Z) x : x ∈ array_from_set xs <-> x ∈ xs.
Proof.
  unfold array_from_set. by rewrite elem_of_reverse, elem_of_remove_dups, elem_of_reverse.
Qed.

Lemma array_from_set_NoDup (xs : list Z) : NoDup (array_from_set xs).
Proof. unfold array_from_set. rewrite reverse_Permutation. apply NoDup_remove_dups. Qed.

#[global] Instance descending_total : Total descending.
Proof. intros a b. unfold descending. lia. Qed.

#[global] Instance descending_trans : Transitive descending.
Proof. intros a b c. unfold descending. lia. Qed.

Lemma sort_descending_elem (xs : list Z) x : x ∈ sort_descending xs <-> x ∈ xs.
Proof. unfold sort_descending. by rewrite merge_sort_Permutation. Qed.

Lemma sort_descending_NoDup (xs : list Z) : NoDup xs -> NoDup (sort_descending xs).
Proof. unfold sort_descending. by rewrite merge_sort_Permutation. Qed.

(** Without repetitions, the sorted rows go strictly down. *)
Lemma sort_descending_strict (xs : list Z) :
  NoDup xs -> StronglySorted (fun a b => b < a) (sort_descending xs).
Proof.
  intros Hnd%sort_descending_NoDup.
  pose proof (StronglySorted_merge_sort descending xs) as Hsorted.
  fold (sort_descending xs) in Hsorted.
  induction Hsorted as [|a l Hl IH Hall]; [constructor|].
  apply NoDup_cons in Hnd as [Ha Hnd]. constructor; [by apply IH|].
  apply Forall_forall. intros b Hb.
  pose proof (proj1 (Forall_forall _ _) Hall b Hb) as Hle. unfold descending in Hle.
  assert (b <> a) by (intros ->; done). lia.
Qed.

Lemma plan_of_elem entries p :
  p ∈ plan_of entries <-> p ∈ pairs_of entries.
Proof.
  unfold plan_of, pairs_of. rewrite !list_elem_of_In, !in_flat_map.
  split; intros (e & He & Hp); exists e; split; try done;
    apply list_elem_of_In in Hp; apply list_elem_of_In;
    apply list_elem_of_fmap in Hp as (n & -> & Hn); apply list_elem_of_fmap;
    exists n; split; try done.
  - by apply array_from_set_elem, sort_descending_elem.
  - by apply sort_descending_elem, array_from_set_elem.
Qed.

Lemma plan_of_NoDup entries : NoDup (map fst entries) -> NoDup (plan_of entries).
Proof.
  unfold plan_of. induction entries as [|[k rows] entries IH]; intros Hnd.
  - constructor.
  - simpl in Hnd. apply NoDup_cons in Hnd as [Hk Hnd]. cbn [flat_map fst snd].
    apply NoDup_app. split; [|split; [|by apply IH]].
    + apply NoDup_fmap_2; [intros a b [=]; done|].
      apply sort_descending_NoDup, array_from_set_NoDup.
    + intros p (n & -> & _)%list_elem_of_fmap Hin.
      apply list_elem_of_In, in_flat_map in Hin as ([k' rows'] & He & Hp).
      apply list_elem_of_In, list_elem_of_fmap in Hp as (n' & [= <- _] & _).
      apply Hk. apply list_elem_of_fmap. exists (k, rows'). split; [done|].
      by apply list_elem_of_In.
Qed.

Lemma planned_rows_other (sheetName k : string) (rows : list Z) :
  k <> sheetName -> filter (fun p => fst p = sheetName) (map (pair k) rows) = [].
Proof.
  intros Hk. induction rows as [|n rows IH]; [done|].
  simpl. rewrite filter_cons, decide_False by done. exact IH.
Qed.

Lemma planned_rows_same (sheetName : string) (rows : list Z) :
  map snd (filter (fun p => fst p = sheetName) (map (pair sheetName) rows)) = rows.
Proof.
  induction rows as [|n rows IH]; [done|].
  simpl. rewrite filter_cons, decide_True by done. simpl. by rewrite IH.
Qed.

(** The rows planned for one sheet go strictly down. *)
Lemma plan_of_descending entries sheetName :
  NoDup (map fst entries) ->
  StronglySorted (fun a b => b < a) (planned_rows sheetName (plan_of entries)).
Proof.
  unfold planned_rows, plan_of.
  induction entries as [|[k rows] entries IH]; intros Hnd; [constructor|].
  simpl in Hnd. apply NoDup_cons in Hnd as [Hk Hnd]. cbn [flat_map fst snd].
  rewrite filter_app, map_app.
  destruct (decide (k = sheetName)) as [->|Hne].
  - rewrite planned_rows_same.
    assert (Hrest : filter (fun p => fst p = sheetName)
              (flat_map (fun e => map (pair (fst e))
                           (sort_descending (array_from_set (snd e)))) entries) = []).
    { apply length_zero_iff_nil, count_zero. intros p Hp Hfst.
      apply list_elem_of_In, in_flat_map in Hp as ([k' rows'] & He & Hp).
      apply list_elem_of_In, list_elem_of_fmap in Hp as (n' & -> & _).
      simpl in Hfst. subst k'. apply Hk. apply list_elem_of_fmap.
      exists (sheetName, rows'). split; [done|]. by apply list_elem_of_In. }
    rewrite Hrest. simpl. rewrite app_nil_r.
    apply sort_descending_strict, array_from_set_NoDup.
  - rewrite planned_rows_other by done. simpl. by apply IH.
Qed.

(** ** batchDeleteRows: the deletions *)

Lemma delete_row_requests_after s' n' s n (ss : gmap string (list (list string))) :
  delete_row_requests s' n' (delete_row_sheets s n ss) = delete_row_requests s' n' ss.
Proof.
  unfold delete_row_requests, delete_row_sheets.
  destruct (decide (s' = s)) as [->|Hne].
  - rewrite lookup_alter_eq. by destruct (ss !! s).
  - by rewrite lookup_alter_ne.
Qed.

Lemma deletions_of_after plan s n (ss : gmap string (list (list string))) :
  deletions_of plan (delete_row_sheets s n ss) = deletions_of plan ss.
Proof.
  unfold deletions_of. apply flat_map_ext. intros p. apply delete_row_requests_after.
Qed.

Lemma deletions_of_after_plan plan plan' (ss : gmap string (list (list string))) :
  deletions_of plan (apply_plan ss plan') = deletions_of plan ss.
Proof.
  revert ss. induction plan' as [|p plan' IH]; intros ss; [done|].
  cbn [apply_plan foldl]. fold (apply_plan (delete_row_sheets (fst p) (snd p) ss) plan').
  by rewrite IH, deletions_of_after.
Qed.

Lemma apply_plan_app ss plan plan' :
  apply_plan ss (plan ++ plan') = apply_plan (apply_plan ss plan) plan'.
Proof. unfold apply_plan. by rewrite foldl_app. Qed.

Lemma deletions_of_app plan plan' ss :
  deletions_of (plan ++ plan') ss = deletions_of plan ss ++ deletions_of plan' ss.
Proof. unfold deletions_of. by rewrite flat_map_app. Qed.

Lemma delete_sorted_run sheetName sorted : forall deleted ss reqs sl en,
  Forall (fun n => 1 <= n) sorted ->
  delete_sorted sheetName sorted deleted (world_of ss reqs sl en)
  = (Ok (deleted + length sorted)%nat,
     world_of (apply_plan ss (map (pair sheetName) sorted))
       (reqs ++ deletions_of (map (pair sheetName) sorted) ss) sl en).
Proof.
  induction sorted as [|n sorted IH]; intros deleted ss reqs sl en Hrows.
  - cbn. by rewrite Nat.add_0_r, app_nil_r.
  - apply Forall_cons in Hrows as [Hn Hrows]. cbn [delete_sorted].
    erewrite bind_ok by (by apply deleteRowFromSheet_run).
    rewrite IH by done. rewrite deletions_of_after, <- app_assoc.
    cbn [map length]. f_equal. f_equal. lia.
Qed.

Lemma delete_by_sheet_run entries : forall deleted ss reqs sl en,
  Forall (fun p => 1 <= snd p) (plan_of entries) ->
  delete_by_sheet entries deleted (world_of ss reqs sl en)
  = (Ok (deleted + length (plan_of entries))%nat,
     world_of (apply_plan ss (plan_of entries))
       (reqs ++ deletions_of (plan_of entries) ss) sl en).
Proof.
  induction entries as [|[sheetName rowNumbers] entries IH];
    intros deleted ss reqs sl en Hrows.
  - cbn. by rewrite Nat.add_0_r, app_nil_r.
  - unfold plan_of in Hrows. cbn [flat_map fst snd] in Hrows.
    apply Forall_app in Hrows as [Hhere Hrest].
    cbn [delete_by_sheet].
    erewrite bind_ok.
    2:{ apply delete_sorted_run. apply Forall_forall. intros n Hn.
        apply (proj1 (Forall_forall _ _) Hhere (sheetName, n)).
        apply list_elem_of_fmap. eauto. }
    rewrite IH by exact Hrest.
    unfold plan_of. cbn [flat_map fst snd].
    rewrite length_app, length_map, apply_plan_app, deletions_of_app.
    f_equal; [f_equal; lia|].
    unfold world_of. f_equal. f_equal. rewrite <- app_assoc. f_equal. f_equal.
    apply deletions_of_after_plan.
Qed.

Lemma pairs_of_perm (o o' : list (string * list Z)) p :
  o ≡ₚ o' -> p ∈ pairs_of o <-> p ∈ pairs_of o'.
Proof.
  intros Hperm. unfold pairs_of. rewrite !list_elem_of_In, !in_flat_map.
  split; intros (e & He & Hp); exists e; split; try done;
    apply list_elem_of_In; apply list_elem_of_In in He.
  - by rewrite <- Hperm.
  - by rewrite Hperm.
Qed.

Lemma deletion_plan_elem items p :
  p ∈ deletion_plan items <-> p ∈ valid_pairs items.
Proof.
  unfold deletion_plan. rewrite plan_of_elem.
  rewrite (pairs_of_perm _ _ p (Object_entries_perm _)).
  destruct (group_pairs_spec (valid_pairs items) [] (NoDup_nil_2)) as [_ Hpairs].
  rewrite Hpairs. unfold pairs_of. simpl. rewrite elem_of_nil. tauto.
Qed.

Lemma deletion_plan_NoDup items : NoDup (deletion_plan items).
Proof.
  unfold deletion_plan. apply plan_of_NoDup.
  rewrite (Object_entries_perm _).
  by destruct (group_pairs_spec (valid_pairs items) [] (NoDup_nil_2)) as [Hnd _].
Qed.

Lemma deletion_plan_length items :
  length (deletion_plan items) = length (remove_dups (valid_pairs items)).
Proof.
  apply Permutation_length. apply NoDup_Permutation.
  - apply deletion_plan_NoDup.
  - apply NoDup_remove_dups.
  - intros p. by rewrite deletion_plan_elem, elem_of_remove_dups.
Qed.

Lemma valid_pairs_elem items s n :
  (s, n) ∈ valid_pairs items <->
  exists item, item ∈ items /\ accepted item = Some (s, n).
Proof. unfold valid_pairs. by rewrite list_elem_of_omap. Qed.

Lemma deletion_plan_rows items s n : (s, n) ∈ deletion_plan items -> 2 <= n.
Proof.
  rewrite deletion_plan_elem, valid_pairs_elem.
  intros (item & _ & Hacc). apply accepted_Some in Hacc. tauto.
Qed.

Lemma deletion_plan_descending items sheetName :
  StronglySorted (fun a b => b < a) (planned_rows sheetName (deletion_plan items)).
Proof.
  unfold deletion_plan. apply plan_of_descending.
  rewrite (Object_entries_perm _).
  by destruct (group_pairs_spec (valid_pairs items) [] (NoDup_nil_2)) as [Hnd _].
Qed.

Lemma deletions_of_elem plan (ss : gmap string (list (list string))) req :
  req ∈ deletions_of plan ss <->
  exists s n, (s, n) ∈ plan /\ is_Some (ss !! s) /\ req = DeleteRows s (n - 1) n.
Proof.
  unfold deletions_of. rewrite list_elem_of_In, in_flat_map. split.
  - intros ([s n] & Hp%list_elem_of_In & Hreq). exists s, n.
    unfold delete_row_requests in Hreq. simpl in Hreq.
    destruct (ss !! s); [|by destruct Hreq].
    destruct Hreq as [<-|[]]. eauto.
  - intros (s & n & Hp & [g Hg] & ->). exists (s, n).
    split; [by apply list_elem_of_In|].
    unfold delete_row_requests. simpl. rewrite Hg. by left.
Qed.

Lemma deletions_of_NoDup plan (ss : gmap string (list (list string))) :
  NoDup plan -> NoDup (deletions_of plan ss).
Proof.
  unfold deletions_of. induction plan as [|[s n] plan IH]; intros Hnd; [constructor|].
  apply NoDup_cons in Hnd as [Hp Hnd]. cbn [flat_map].
  apply NoDup_app. split; [|split; [|by apply IH]].
  - unfold delete_row_requests. simpl. destruct (ss !! s); [|constructor].
    apply NoDup_singleton.
  - intros req Hreq Hin.
    unfold delete_row_requests in Hreq. simpl in Hreq.
    destruct (ss !! s); [|by apply elem_of_nil in Hreq].
    apply list_elem_of_singleton in Hreq as ->.
    apply (deletions_of_elem plan ss) in Hin as (s' & n' & Hin & _ & Heq).
    injection Heq as -> _ ->. done.
Qed.

Lemma head_delete (g : Grid) k : (1 <= k)%nat -> head (delete k g) = head g.
Proof. intros Hk. destruct g as [|h g]; [done|]. by destruct k; [lia|]. Qed.

Lemma apply_plan_header plan : forall (ss : gmap string (list (list string))) name,
  Forall (fun p => 2 <= snd p) plan ->
  head (default [] (apply_plan ss plan !! name)) = head (default [] (ss !! name)).
Proof.
  induction plan as [|[s n] plan IH]; intros ss name Hrows; [done|].
  apply Forall_cons in Hrows as [Hn Hrows]. simpl in Hn.
  cbn [apply_plan foldl fst snd].
  fold (apply_plan (delete_row_sheets s n ss) plan). rewrite IH by done.
  unfold delete_row_sheets. destruct (decide (name = s)) as [->|Hne].
  - rewrite lookup_alter_eq. destruct (ss !! s) as [g|]; [|done].
    simpl. apply head_delete. unfold row_index. lia.
  - by rewrite lookup_alter_ne.
Qed.

Lemma batchDeleteRows_run items ss reqs sl en :
  batchDeleteRows items (world_of ss reqs sl en)
  = if decide (plain_names items)
    then (Ok (length (deletion_plan items)),
          world_of (apply_plan (setup_sheets ss) (deletion_plan items))
            (reqs ++ setup_requests ss
               ++ deletions_of (deletion_plan items) (setup_sheets ss)) sl en)
    else (Throw plain_error,
          world_of (setup_sheets ss) (reqs ++ setup_requests ss) sl en).
Proof.
  unfold batchDeleteRows. erewrite bind_ok by apply ensureSheetSetup_run.
  destruct items as [|item items].
  - rewrite decide_True by constructor. cbn. by rewrite !app_nil_r.
  - cbn [length Nat.eqb]. destruct (decide (plain_names (item :: items))) as [Hp|Hp].
    + rewrite group_by_sheet_Ok by done. fold (deletion_plan (item :: items)).
      rewrite delete_by_sheet_run.
      * by rewrite <- app_assoc.
      * apply Forall_forall. intros [s n] Hin. simpl.
        pose proof (deletion_plan_rows _ _ _ Hin). lia.
    + by rewrite group_by_sheet_Throw.
Qed.

(** C10.  batchDeleteRows, on every list of items.  An item is skipped
    exactly when it has no sheet name (or an empty one), or a row number
    that is not an integer, or one below 2.  The deletions planned are the
    distinct (sheet name, row number) pairs of the other items, each once,
    the rows of one sheet in descending order.  When the row numbers of
    these items are at most 2^53, where the row indices sent are exact, the
    function, after the setup, carries out the plan and nothing else: every
    deletion request removes the single row of a planned pair, numbered 2 or
    more, no request is sent twice, row 1 of every sheet stays what the
    setup left, and the count returned is the number of distinct pairs.  An
    empty list, and an argument that is not an array, return 0 without any
    deletion.  (A sheet name that the grouping object inherits from
    [Object.prototype] makes line 336 throw before any deletion.) *)
Theorem batchDeleteRows_safe items (w : World Remote) :
  let plan := deletion_plan items in
  let ss1 := setup_sheets (sheets (remote w)) in
  (exact_rows items ->
   batchDeleteRows items w
   = (if decide (plain_names items)
      then (Ok (length (remove_dups (valid_pairs items))),
            world_of (apply_plan ss1 plan)
              (requests (remote w) ++ setup_requests (sheets (remote w))
                 ++ deletions_of plan ss1)
              (slept w) (entropy w))
      else (Throw plain_error,
            world_of ss1 (requests (remote w) ++ setup_requests (sheets (remote w)))
              (slept w) (entropy w)))
   /\ (forall req,
         req ∈ deletions_of plan ss1 <->
         exists s n, (s, n) ∈ plan /\ is_Some (ss1 !! s) /\ req = DeleteRows s (n - 1) n)
   /\ NoDup (deletions_of plan ss1)
   /\ (forall name,
         head (default [] (apply_plan ss1 plan !! name))
         = head (default [] (ss1 !! name))))
  /\ (forall item,
        accepted item = None <->
        del_sheetName item = None \/ del_sheetName item = Some ""
        \/ del_rowNumber item = RowOther
        \/ exists n, del_rowNumber item = RowInt n /\ n < 2)
  /\ (forall s n,
        (s, n) ∈ plan <->
        exists item, item ∈ items /\ del_sheetName item = Some s
                     /\ del_rowNumber item = RowInt n /\ s <> "" /\ 2 <= n)
  /\ NoDup plan
  /\ (forall sheetName, StronglySorted (fun a b => b < a) (planned_rows sheetName plan))
  /\ batchDeleteRows [] w
     = (Ok 0%nat,
        world_of ss1 (requests (remote w) ++ setup_requests (sheets (remote w)))
          (slept w) (entropy w))
  /\ batchDeleteRows_on NotAnArray w
     = (Ok 0%nat,
        world_of ss1 (requests (remote w) ++ setup_requests (sheets (remote w)))
          (slept w) (entropy w))
  /\ batchDeleteRows_on (ArrayOf items) w = batchDeleteRows items w.
Proof.
  intros plan ss1. destruct w as [[ss reqs] sl en].
  change (mkWorld (mkRemote ss reqs) sl en) with (world_of ss reqs sl en).
  cbn [world_of sheets requests remote slept entropy] in *.
  split; [|split; [|split; [|split; [|split; [|split; [|split]]]]]].
  - intros _. split; [|split; [|split]].
    + fold (world_of ss reqs sl en). rewrite batchDeleteRows_run.
      rewrite deletion_plan_length. by destruct (decide (plain_names items)).
    + apply deletions_of_elem.
    + apply deletions_of_NoDup, deletion_plan_NoDup.
    + intros name. apply apply_plan_header. apply Forall_forall. intros [s n] Hin.
      simpl. by apply (deletion_plan_rows items s).
  - intros [[s|] [n|]]; unfold accepted; simpl.
    + destruct (String.eqb s "") eqn:Hs; simpl.
      * apply String.eqb_eq in Hs as ->. split; [by auto|done].
      * apply String.eqb_neq in Hs. destruct (n <? 2) eqn:Hn.
        -- split; [|done]. intros _. right. right. right. exists n. split; [done|lia].
        -- split; [done|]. intros [?|[[= ?]|[?|(m & [= <-] & Hm)]]]; try done. lia.
    + split; [by auto|done].
    + split; [by auto|done].
    + split; [by auto|done].
  - intros s n. unfold plan. rewrite deletion_plan_elem, valid_pairs_elem.
    split; intros (item & Hin & Hacc); exists item; split; try done.
    + by apply accepted_Some.
    + by apply accepted_Some.
  - apply deletion_plan_NoDup.
  - apply deletion_plan_descending.
  - fold (world_of ss reqs sl en). rewrite batchDeleteRows_run.
    rewrite decide_True by constructor. unfold deletion_plan, deletions_of. simpl.
    by rewrite app_nil_r.
  - unfold batchDeleteRows_on. fold (world_of ss reqs sl en).
    by erewrite bind_ok by apply ensureSheetSetup_run.
  - done.
Qed.

Lemma batchDeleteRows_safe_witness :
  batchDeleteRows three_deletions five_rows_world
  = (Ok 3%nat,
     world_of
       (apply_plan (setup_sheets (sheets (remote five_rows_world)))
          (deletion_plan three_deletions))
       [DeleteRows "Monarch" 4 5; DeleteRows "Monarch" 2 3; DeleteRows "Monarch" 1 2]
       [] []).
Proof.
  destruct (batchDeleteRows_safe three_deletions five_rows_world) as [Hrun _].
  destruct Hrun as [Hrun _].
  - repeat constructor; simpl; lia.
  - rewrite Hrun. vm_compute. reflexivity.
Defined.

(** * Further properties *)

(** ** ensureSheetSetup, once more *)

Lemma setup_sheets_other ss name :
  name ∉ SHEET_NAME_VALUES -> setup_sheets ss !! name = ss !! name.
Proof. intros Hname. by rewrite lookup_setup_sheets, decide_False. Qed.


(** ** upsertWallet, sheet by sheet *)

Lemma data_index_data i : data_index (Z.of_nat i + 2) = i.
Proof. unfold data_index. lia. Qed.

Lemma row_index_data_index rowNumber :
  2 <= rowNumber -> row_index rowNumber = S (data_index rowNumber).
Proof. unfold row_index, data_index. lia. Qed.

Lemma upsert_plan_grounds input ss :
  plan_grounds input (upsert_plan input ss) ss.
Proof.
  unfold upsert_plan, plan_grounds.
  destruct (getSheetNameForRole (role input)) as [target|] eqn:Htarget; [|done].
  destruct (locate_in (discordId input) SHEET_NAME_VALUES ss) as [loc|] eqn:Hloc.
  - destruct (locate_in_Some _ _ _ _ Hloc) as (Hin & i & row & Hnum & Hfind).
    destruct (decide (loc_sheetName loc = target)) as [Heq|Hne].
    + rewrite Heq, Hnum, data_index_data. split; [done|]. split; [lia|].
      exists row. by rewrite <- Heq.
    + rewrite Hnum, data_index_data. repeat split; try done; [lia|eauto].
  - split; [done|]. by apply locate_in_None.
Qed.

Lemma plan_sheets_data_rows input ss name :
  ready ss ->
  data_rows (plan_sheets input (upsert_plan input ss) ss) name
  = plan_data_rows input (upsert_plan input ss) name (data_rows ss name).
Proof.
  intros Hready. pose proof (upsert_plan_grounds input ss) as Hgrounds.
  destruct (upsert_plan input ss) as [|target|from target|loc];
    cbn [plan_sheets plan_data_rows plan_grounds] in *.
  - done.
  - destruct Hgrounds as [Htarget _].
    destruct (Hready target (getSheetNameForRole_known _ _ Htarget)) as (h & rest & Hg).
    destruct (decide (name = target)) as [->|Hne].
    + by rewrite (data_rows_append ss target h rest).
    + by rewrite data_rows_alter_ne.
  - destruct Hgrounds as (Htarget & Hne & Hin & Hrow & _).
    destruct (Hready target (getSheetNameForRole_known _ _ Htarget)) as (h & rest & Hg).
    destruct (Hready _ Hin) as (hs & rests & Hgs).
    rewrite row_index_data_index by done.
    destruct (decide (name = target)) as [->|Hnt].
    + rewrite (data_rows_append _ target h rest) by (by rewrite lookup_alter_ne).
      by rewrite data_rows_alter_ne by (by intros ->).
    + rewrite data_rows_alter_ne by done.
      destruct (decide (name = loc_sheetName from)) as [->|Hnf].
      * by rewrite (data_rows_delete ss _ hs rests).
      * by rewrite data_rows_alter_ne.
  - destruct Hgrounds as (Htarget & Hrow & _).
    destruct (Hready _ (getSheetNameForRole_known _ _ Htarget)) as (h & rest & Hg).
    rewrite row_index_data_index by done.
    destruct (decide (name = loc_sheetName loc)) as [->|Hne].
    + by rewrite (data_rows_overwrite ss _ h rest).
    + by rewrite data_rows_alter_ne.
Qed.

(** The data rows of every sheet after upsertWallet. *)
Lemma upsert_sheets_data_rows input ss name :
  data_rows (upsert_sheets input ss) name
  = plan_data_rows input (upsert_plan input (setup_sheets ss)) name (data_rows ss name).
Proof.
  unfold upsert_sheets. rewrite plan_sheets_data_rows by apply setup_sheets_ready.
  by rewrite data_rows_setup.
Qed.

Lemma upsert_sheets_other input ss name :
  name ∉ SHEET_NAME_VALUES -> upsert_sheets input ss !! name = ss !! name.
Proof.
  intros Hname. unfold upsert_sheets.
  pose proof (upsert_plan_grounds input (setup_sheets ss)) as Hgrounds.
  destruct (upsert_plan input (setup_sheets ss)) as [|target|from target|loc];
    cbn [plan_sheets plan_grounds] in *.
  - by apply setup_sheets_other.
  - destruct Hgrounds as [Htarget%getSheetNameForRole_known _].
    rewrite lookup_alter_ne by (by intros <-). by apply setup_sheets_other.
  - destruct Hgrounds as (Htarget%getSheetNameForRole_known & _ & Hin & _).
    rewrite !lookup_alter_ne by (by intros <-). by apply setup_sheets_other.
  - destruct Hgrounds as (Htarget%getSheetNameForRole_known & _).
    rewrite lookup_alter_ne by (by intros <-). by apply setup_sheets_other.
Qed.

(** ** Rows that do not satisfy a predicate *)

Section Others.
Context {X : Type} (P : X -> Prop) `{forall x, Decision (P x)}.

Lemma others_snoc (l : list X) y :
  P y -> filter (fun x => ~ P x) (l ++ [y]) = filter (fun x => ~ P x) l.
Proof.
  intros Hy. rewrite filter_app, filter_cons, decide_False by (by intros Hn).
  by rewrite filter_nil, app_nil_r.
Qed.

Lemma others_delete (l : list X) i x :
  l !! i = Some x -> P x ->
  filter (fun x => ~ P x) (delete i l) = filter (fun x => ~ P x) l.
Proof.
  intros Hi Hx. rewrite <- (take_drop_middle l i x Hi) at 2.
  rewrite delete_take_drop, !filter_app, filter_cons.
  by rewrite decide_False by (by intros Hn).
Qed.

Lemma others_insert (l : list X) i x y :
  l !! i = Some x -> P x -> P y ->
  filter (fun x => ~ P x) (<[i := y]> l) = filter (fun x => ~ P x) l.
Proof.
  intros Hi Hx Hy. rewrite <- (take_drop_middle l i x Hi) at 2.
  rewrite insert_take_drop by (by eapply lookup_lt_Some).
  rewrite !filter_app, !filter_cons.
  rewrite decide_False by (by intros Hn). by rewrite decide_False by (by intros Hn).
Qed.
End Others.

(** X2.  upsertWallet leaves the other users alone: in every sheet the data
    rows that do not bear the input's user id are the same rows in the same
    order after the call as before, whatever the state (duplicates
    included) and whatever the role; sheets other than the three partitions
    are not changed at all. *)
Theorem upsertWallet_spares_others input (w : World Remote) :
  (forall name,
     rows_of_others (discordId input) (sheets (remote (snd (upsertWallet input w)))) name
     = rows_of_others (discordId input) (sheets (remote w)) name)
  /\ (forall name, name ∉ SHEET_NAME_VALUES ->
        sheets (remote (snd (upsertWallet input w))) !! name = sheets (remote w) !! name).
Proof.
  destruct w as [[ss reqs] sl en].
  change (mkWorld (mkRemote ss reqs) sl en) with (world_of ss reqs sl en).
  rewrite upsertWallet_run. cbn [snd world_of remote sheets].
  split; [|intros name; apply upsert_sheets_other].
  intros name. unfold rows_of_others. rewrite upsert_sheets_data_rows.
  pose proof (upsert_plan_grounds input (setup_sheets ss)) as Hgrounds.
  destruct (upsert_plan input (setup_sheets ss)) as [|target|from target|loc];
    cbn [plan_data_rows plan_grounds] in *.
  - done.
  - destruct (decide (name = target)); [|done].
    apply (others_snoc (bears (discordId input))), bears_new_row.
  - destruct (decide (name = target)).
    { apply (others_snoc (bears (discordId input))), bears_new_row. }
    destruct (decide (name = loc_sheetName from)) as [->|]; [|done].
    destruct Hgrounds as (_ & _ & _ & _ & row & Hfind).
    rewrite data_rows_setup in Hfind.
    apply list_find_Some in Hfind as (Hrow & Hb & _).
    by apply (others_delete (bears (discordId input)) _ _ row).
  - destruct (decide (name = loc_sheetName loc)) as [->|]; [|done].
    destruct Hgrounds as (_ & _ & row & Hfind).
    rewrite data_rows_setup in Hfind.
    apply list_find_Some in Hfind as (Hrow & Hb & _).
    apply (others_insert (bears (discordId input)) _ _ row); [done|done|].
    apply bears_new_row_more.
Qed.

(** ** Roles stay consistent *)

Lemma elem_of_insert_inv {X} (l : list X) i y x :
  x ∈ <[i := y]> l -> x = y \/ x ∈ l.
Proof.
  destruct (decide (i < length l)%nat) as [Hi|Hi].
  - rewrite insert_take_drop by done. rewrite elem_of_app, elem_of_cons.
    intros [Hx|[->|Hx]]; [right|by left|right].
    + apply elem_of_take in Hx as (j & Hj & _). by eapply list_elem_of_lookup_2.
    + apply list_elem_of_lookup_1 in Hx as [j Hj]. rewrite lookup_drop in Hj.
      by eapply list_elem_of_lookup_2.
  - rewrite list_insert_ge by lia. by right.
Qed.

Lemma new_row_role input target :
  getSheetNameForRole (role input) = Some target ->
  forall tail, getSheetNameForRole ((new_row input ++ tail) !! 3%nat) = Some target.
Proof.
  intros Htarget tail. unfold new_row. simpl.
  destruct (role input) as [s|]; [done|]. by rewrite <- Htarget.
Qed.

(** X3.  upsertWallet keeps the roles consistent: if every data row of the
    three partitions carries a role label that resolves to the partition it
    is in, the same holds after the call. *)
Theorem upsertWallet_keeps_roles input (w : World Remote) :
  role_consistent (sheets (remote w)) ->
  role_consistent (sheets (remote (snd (upsertWallet input w)))).
Proof.
  destruct w as [[ss reqs] sl en].
  change (mkWorld (mkRemote ss reqs) sl en) with (world_of ss reqs sl en).
  rewrite upsertWallet_run. cbn [snd world_of remote sheets].
  unfold role_consistent. rewrite !Forall_forall. intros Hcons name Hname.
  specialize (Hcons name Hname). rewrite Forall_forall in *.
  rewrite upsert_sheets_data_rows.
  pose proof (upsert_plan_grounds input (setup_sheets ss)) as Hgrounds.
  destruct (upsert_plan input (setup_sheets ss)) as [|target|from target|loc];
    cbn [plan_data_rows plan_grounds] in *.
  - done.
  - destruct Hgrounds as [Htarget _].
    destruct (decide (name = target)) as [->|]; [|done].
    intros row [Hrow|Hrow]%elem_of_app; [by apply Hcons|].
    apply list_elem_of_singleton in Hrow as ->.
    rewrite <- (app_nil_r (new_row input)). by apply new_row_role.
  - destruct Hgrounds as (Htarget & _).
    destruct (decide (name = target)) as [->|].
    { intros row [Hrow|Hrow]%elem_of_app; [by apply Hcons|].
      apply list_elem_of_singleton in Hrow as ->.
      rewrite <- (app_nil_r (new_row input)). by apply new_row_role. }
    destruct (decide (name = loc_sheetName from)) as [->|]; [|done].
    intros row Hrow%list_elem_of_delete_inv. by apply Hcons.
  - destruct Hgrounds as (Htarget & _).
    destruct (decide (name = loc_sheetName loc)) as [->|]; [|done].
    intros row [->|Hrow]%elem_of_insert_inv; [|by apply Hcons].
    by apply new_row_role.
Qed.

Lemma upsertWallet_keeps_roles_witness :
  role_consistent (sheets (remote (snd (upsertWallet (alice_as "Monadian") monarch_world)))).
Proof.
  apply (upsertWallet_keeps_roles (alice_as "Monadian") monarch_world).
  vm_compute. repeat constructor.
Defined.

(** ** getWallet after upsertWallet *)

Lemma record_in_setup discordId names ss :
  record_in discordId names (setup_sheets ss) = record_in discordId names ss.
Proof.
  induction names as [|name names IH]; [done|].
  cbn [record_in]. by rewrite data_rows_setup, IH.
Qed.

Lemma getWallet_run discordId ss reqs sl en :
  getWallet discordId (world_of ss reqs sl en)
  = (Ok (record_in discordId SHEET_NAME_VALUES ss),
     world_of (setup_sheets ss) (reqs ++ setup_requests ss) sl en).
Proof.
  unfold getWallet. erewrite bind_ok by apply ensureSheetSetup_run.
  rewrite getWallet_scan_run.
  - by rewrite record_in_setup.
  - intros name Hname. destruct (setup_sheets_ready ss name Hname) as (h & rest & ->).
    eauto.
Qed.

Lemma record_in_None discordId names ss :
  record_in discordId names ss = None ->
  forall name, name ∈ names -> occurrences discordId ss name = 0%nat.
Proof.
  induction names as [|n names IH]; intros Hrec name Hname.
  - by apply elem_of_nil in Hname.
  - cbn [record_in] in Hrec.
    destruct (list_find (bears discordId) (data_rows ss n)) as [[i x]|] eqn:Hfind; [done|].
    apply elem_of_cons in Hname as [->|Hname]; [|by apply IH].
    unfold occurrences. apply count_zero.
    apply list_find_None in Hfind. by apply Forall_forall.
Qed.

Lemma record_in_Some discordId names ss r :
  record_in discordId names ss = Some r ->
  exists name row,
    name ∈ names /\ row ∈ data_rows ss name /\ bears discordId row
    /\ r = record_of_row row.
Proof.
  induction names as [|n names IH]; [done|].
  cbn [record_in].
  destruct (list_find (bears discordId) (data_rows ss n)) as [[i x]|] eqn:Hfind.
  - intros [= <-]. apply list_find_Some in Hfind as (Hx & Hb & _).
    exists n, x. split; [by left|]. split; [by eapply list_elem_of_lookup_2|done].
  - intros Hrec. destruct (IH Hrec) as (name & row & Hin & Hrest).
    exists name, row. split; [by right|done].
Qed.




(** ** updateRole *)

Lemma total_occurrences_setup discordId ss :
  total_occurrences discordId (setup_sheets ss) = total_occurrences discordId ss.
Proof. by rewrite !total_occurrences_split, !occurrences_setup. Qed.

Lemma total_zero discordId ss :
  total_occurrences discordId ss = 0%nat <->
  forall name, name ∈ SHEET_NAME_VALUES -> occurrences discordId ss name = 0%nat.
Proof.
  rewrite total_occurrences_split. unfold SHEET_NAME_VALUES. split.
  - intros Hz name. rewrite !elem_of_cons.
    intros [->|[->|[->|Hn]]]; [lia..|by apply elem_of_nil in Hn].
  - intros Hall.
    rewrite (Hall SHEET_NAMES.MONADIANS), (Hall SHEET_NAMES.MONARCH),
      (Hall SHEET_NAMES.MONALISTA) by (rewrite !elem_of_cons; tauto).
    done.
Qed.

Lemma record_in_is_Some discordId ss :
  is_Some (record_in discordId SHEET_NAME_VALUES ss) <->
  (0 < total_occurrences discordId ss)%nat.
Proof.
  split.
  - intros [r Hr]. destruct (record_in_Some _ _ _ _ Hr) as (name & row & Hin & Hrow & Hb & _).
    destruct (decide (total_occurrences discordId ss = 0)%nat) as [Hz|]; [|lia].
    exfalso. revert Hb.
    apply (proj1 (count_zero (bears discordId) (data_rows ss name))); [|done].
    by apply (proj1 (total_zero discordId ss) Hz).
  - intros Hpos. destruct (record_in discordId SHEET_NAME_VALUES ss) eqn:Hrec; [done|].
    pose proof (proj2 (total_zero discordId ss) (record_in_None _ _ _ Hrec)). lia.
Qed.

Lemma updateRole_run discordId roleLabel ss reqs sl en :
  updateRole discordId roleLabel (world_of ss reqs sl en)
  = match record_in discordId SHEET_NAME_VALUES ss with
    | None =>
      (Ok false, world_of (setup_sheets ss) (reqs ++ setup_requests ss) sl en)
    | Some record =>
      let input := mkInput discordId (default "" (rec_discordUsername record))
                     (default "" (rec_wallet record)) roleLabel in
      (Ok true,
       world_of (upsert_sheets input (setup_sheets ss))
         ((reqs ++ setup_requests ss) ++ upsert_requests input (setup_sheets ss)) sl en)
    end.
Proof.
  unfold updateRole. erewrite bind_ok by apply getWallet_run.
  destruct (record_in discordId SHEET_NAME_VALUES ss) as [record|]; [|done].
  erewrite bind_ok by apply upsertWallet_run. done.
Qed.

(** X5.  updateRole reports whether the user has a row, not whether anything
    was written: it returns [true] exactly when some data row of the three
    partitions bears the id.  When no row bears the id, or when the new role
    resolves to no partition, it leaves the spreadsheet as the setup alone
    would: a user whose new role does not qualify keeps the old row and the
    old role, and the call still returns [true]. *)
Theorem updateRole_reports_presence discordId roleLabel (w : World Remote) :
  fst (updateRole discordId roleLabel w)
  = Ok (bool_decide (0 < total_occurrences discordId (sheets (remote w)))%nat)
  /\ (total_occurrences discordId (sheets (remote w)) = 0%nat
      \/ getSheetNameForRole roleLabel = None ->
      snd (updateRole discordId roleLabel w) = snd (ensureSheetSetup w)).
Proof.
  destruct w as [[ss reqs] sl en].
  change (mkWorld (mkRemote ss reqs) sl en) with (world_of ss reqs sl en).
  rewrite updateRole_run, ensureSheetSetup_run. cbn [world_of remote sheets].
  pose proof (record_in_is_Some discordId ss) as Hsome.
  destruct (record_in discordId SHEET_NAME_VALUES ss) as [record|].
  - assert (Hpos : (0 < total_occurrences discordId ss)%nat) by (by apply Hsome).
    cbn [fst snd]. split; [by rewrite bool_decide_eq_true_2|].
    intros [Hz|Hnone]; [lia|].
    unfold upsert_sheets, upsert_requests, upsert_plan. cbn [role]. rewrite Hnone.
    cbn [plan_sheets plan_requests].
    pose proof (setup_sheets_set_up ss) as Hs.
    rewrite (set_up_setup_id _ Hs), (set_up_no_requests _ Hs). by rewrite !app_nil_r.
  - cbn [fst snd]. split; [|done].
    rewrite bool_decide_eq_false_2; [done|].
    intros Hpos. apply Hsome in Hpos. by destruct Hpos.
Qed.

Lemma updateRole_reports_presence_witness :
  snd (updateRole "user1" (Some "") monarch_world) = snd (ensureSheetSetup monarch_world)
  /\ fst (updateRole "user1" (Some "") monarch_world) = Ok true.
Proof.
  destruct (updateRole_reports_presence "user1" (Some "") monarch_world) as [Hfst Hsnd].
  split.
  - apply Hsnd. right. reflexivity.
  - rewrite Hfst. reflexivity.
Defined.

Lemma first_match_record discordId ss :
  record_in discordId SHEET_NAME_VALUES ss
  = (fun c => record_of_row (snd c)) <$> first_match discordId ss.
Proof. unfold first_match, scan_order. by rewrite record_in_first. Qed.

(** X6.  updateRole moves the user's record with its data: for a user with
    exactly one row and a new role that resolves to [target], updateRole
    returns [true], and afterwards the user's only row is in [target] and
    holds the username and the wallet of the old row, the id, and the new
    role. *)
Theorem updateRole_carries_record discordId roleLabel (w : World Remote) target :
  getSheetNameForRole roleLabel = Some target ->
  total_occurrences discordId (sheets (remote w)) = 1%nat ->
  exists name rowNumber row,
    first_match discordId (sheets (remote w)) = Some (name, rowNumber, row)
    /\ fst (updateRole discordId roleLabel w) = Ok true
    /\ one_row_in discordId
         [cell row 0; discordId; cell row 2; default "" roleLabel] target
         (sheets (remote (snd (updateRole discordId roleLabel w)))).
Proof.
  intros Htarget Hone. destruct w as [[ss reqs] sl en].
  change (mkWorld (mkRemote ss reqs) sl en) with (world_of ss reqs sl en).
  cbn [world_of remote sheets] in *. rewrite updateRole_run.
  pose proof (proj2 (record_in_is_Some discordId ss) ltac:(lia)) as [record Hrec].
  rewrite Hrec. pose proof Hrec as Hfirst. rewrite first_match_record in Hfirst.
  destruct (first_match discordId ss) as [[[name rowNumber] row]|]; [|done].
  injection Hfirst as <-. exists name, rowNumber, row. split; [done|].
  cbn [fst snd world_of remote sheets]. split; [done|].
  set (input := mkInput discordId (default "" (rec_discordUsername (record_of_row row)))
                  (default "" (rec_wallet (record_of_row row))) roleLabel).
  destruct (upsert_sheets_one_row input (setup_sheets ss) target Htarget) as (Hrow & _).
  { change (total_occurrences discordId (setup_sheets ss) <= 1)%nat.
    rewrite total_occurrences_setup. lia. }
  exact Hrow.
Qed.

Lemma updateRole_carries_record_witness :
  exists name rowNumber row,
    first_match "user1" (sheets (remote monarch_world)) = Some (name, rowNumber, row)
    /\ fst (updateRole "user1" (Some "monalista") monarch_world) = Ok true
    /\ one_row_in "user1" [cell row 0; "user1"; cell row 2; "monalista"] "Monalista"
         (sheets (remote (snd (updateRole "user1" (Some "monalista") monarch_world)))).
Proof.
  apply (updateRole_carries_record "user1" (Some "monalista") monarch_world "Monalista").
  - reflexivity.
  - vm_compute. reflexivity.
Defined.

(** ** Deleting rows from the bottom up *)

Lemma rows_without_below (numbers : list Z) first (rows : Grid) :
  (forall n, n ∈ numbers -> n < first) -> rows_without numbers first rows = rows.
Proof.
  revert first. induction rows as [|row rows IH]; intros first Hbelow; [done|].
  cbn [rows_without]. rewrite decide_False.
  - f_equal. apply IH. intros n Hn. specialize (Hbelow n Hn). lia.
  - intros Hin. specialize (Hbelow first Hin). lia.
Qed.

Lemma rows_without_ext (numbers numbers' : list Z) first (rows : Grid) :
  (forall n, n ∈ numbers <-> n ∈ numbers') ->
  rows_without numbers first rows = rows_without numbers' first rows.
Proof.
  intros Hsame. revert first. induction rows as [|row rows IH]; intros first; [done|].
  cbn [rows_without]. rewrite IH.
  destruct (decide (first ∈ numbers)) as [Hin|Hout];
    destruct (decide (first ∈ numbers')) as [Hin'|Hout']; try done.
  - exfalso. by apply Hout', Hsame.
  - exfalso. by apply Hout, Hsame.
Qed.

(** Deleting the row numbered [n], the highest of those named, commutes
    with leaving out the others. *)
Lemma rows_without_delete (numbers : list Z) n (rows : Grid) : forall first,
  first <= n -> (forall m, m ∈ numbers -> m < n) ->
  rows_without (n :: numbers) first rows
  = rows_without numbers first (delete (Z.to_nat (n - first)) rows).
Proof.
  induction rows as [|row rows IH]; intros first Hfirst Hbelow; [done|].
  destruct (decide (first = n)) as [->|Hne].
  - replace (Z.to_nat (n - n)) with 0%nat by lia. cbn [delete list_delete rows_without].
    rewrite decide_True by (by left).
    rewrite !rows_without_below; [done| |].
    + intros m Hm. by apply Hbelow.
    + intros m [->|Hm]%elem_of_cons; [lia|]. specialize (Hbelow m Hm). lia.
  - replace (Z.to_nat (n - first)) with (S (Z.to_nat (n - (first + 1)))) by lia.
    cbn [delete list_delete rows_without].
    rewrite <- IH by (done || lia).
    destruct (decide (first ∈ n :: numbers)) as [Hin|Hout];
      destruct (decide (first ∈ numbers)) as [Hin'|Hout']; try done.
    + apply elem_of_cons in Hin as [?|?]; done.
    + exfalso. apply Hout. by right.
Qed.

(** Deleting rows one by one, in strictly descending order of their numbers,
    leaves exactly the rows not named. *)
Lemma delete_descending (numbers : list Z) first : forall rows : Grid,
  StronglySorted (fun a b => b < a) numbers ->
  Forall (fun n => first <= n) numbers ->
  foldl (fun g n => delete (Z.to_nat (n - first)) g) rows numbers
  = rows_without numbers first rows.
Proof.
  induction numbers as [|n numbers IH]; intros rows Hsorted Hfirst.
  - simpl. by rewrite rows_without_below by (intros n Hn; by apply elem_of_nil in Hn).
  - apply StronglySorted_inv in Hsorted as [Hsorted Hbelow].
    apply Forall_cons in Hfirst as [Hn Hfirst].
    cbn [foldl]. rewrite IH by done.
    rewrite rows_without_delete; [done|done|].
    intros m Hm. by apply (proj1 (Forall_forall _ _) Hbelow).
Qed.

(** A plan acts on a sheet through the row numbers planned for it alone. *)
Lemma apply_plan_lookup plan : forall (ss : gmap string (list (list string))) name,
  apply_plan ss plan !! name
  = (fun g => foldl (fun g n => delete (row_index n) g) g (planned_rows name plan))
      <$> ss !! name.
Proof.
  induction plan as [|[s n] plan IH]; intros ss name.
  - cbn. by destruct (ss !! name).
  - cbn [apply_plan foldl fst snd].
    fold (apply_plan (delete_row_sheets s n ss) plan). rewrite IH.
    unfold planned_rows, delete_row_sheets. rewrite filter_cons. cbn [fst].
    destruct (decide (s = name)) as [->|Hne].
    + rewrite lookup_alter_eq. by destruct (ss !! name).
    + by rewrite lookup_alter_ne.
Qed.

Lemma rows_without_header (numbers : list Z) (g : Grid) :
  Forall (fun n => 2 <= n) numbers ->
  drop 1 (rows_without numbers 1 g) = rows_without numbers 2 (drop 1 g).
Proof.
  intros Hrows. destruct g as [|h g]; [done|].
  cbn [rows_without]. rewrite decide_False; [done|].
  intros Hin. pose proof (proj1 (Forall_forall _ _) Hrows 1 Hin) as Hone.
  simpl in Hone. lia.
Qed.

(** The data rows a plan leaves in a sheet, when the rows planned for each
    sheet go strictly down and the header is not among them. *)
Lemma apply_plan_data_rows plan (ss : gmap string (list (list string))) name :
  StronglySorted (fun a b => b < a) (planned_rows name plan) ->
  Forall (fun n => 2 <= n) (planned_rows name plan) ->
  data_rows (apply_plan ss plan) name
  = rows_without (planned_rows name plan) 2 (data_rows ss name).
Proof.
  intros Hsorted Hrows. unfold data_rows. rewrite apply_plan_lookup.
  destruct (ss !! name) as [g|]; simpl.
  - unfold row_index. rewrite (delete_descending _ 1) by
      (done || (eapply Forall_impl; [exact Hrows|]; simpl; intros; lia)).
    by apply rows_without_header.
  - done.
Qed.

Lemma planned_rows_elem name plan n :
  n ∈ planned_rows name plan <-> (name, n) ∈ plan.
Proof.
  unfold planned_rows. rewrite list_elem_of_fmap. split.
  - intros ([s m] & -> & [Hs Hin]%list_elem_of_filter). simpl in *. by subst.
  - intros Hin. exists (name, n). split; [done|]. by apply list_elem_of_filter.
Qed.

Lemma batchDeleteRows_data_rows items ss reqs sl en name :
  plain_names items ->
  data_rows (sheets (remote (snd (batchDeleteRows items (world_of ss reqs sl en))))) name
  = rows_without (selected_rows name items) 2 (data_rows ss name).
Proof.
  intros Hplain. rewrite batchDeleteRows_run, decide_True by done.
  cbn [snd world_of remote sheets]. rewrite apply_plan_data_rows.
  - rewrite data_rows_setup. apply rows_without_ext. intros n.
    rewrite planned_rows_elem, deletion_plan_elem. unfold selected_rows.
    rewrite list_elem_of_fmap. split.
    + intros Hin. exists (name, n). split; [done|]. by apply list_elem_of_filter.
    + intros ([s m] & -> & [Hs Hin]%list_elem_of_filter). simpl in *. by subst.
  - apply deletion_plan_descending.
  - apply Forall_forall. intros n Hn%planned_rows_elem.
    by apply (deletion_plan_rows items name).
Qed.

(** X7.  batchDeleteRows removes the rows named and only those.  When the
    accepted row numbers are at most 2^53, where the row indices sent are
    exact, and it returns, the data rows of every sheet are the data rows it
    had before, in order, less those whose row number an accepted item names
    for that sheet: deleting from the bottom up, no deletion moves a row
    that is still to be deleted.  (When the grouping throws, no data row is
    touched.) *)
Theorem batchDeleteRows_removes_selected items (w : World Remote) name :
  exact_rows items ->
  data_rows (sheets (remote (snd (batchDeleteRows items w)))) name
  = if decide (plain_names items)
    then rows_without (selected_rows name items) 2 (data_rows (sheets (remote w)) name)
    else data_rows (sheets (remote w)) name.
Proof.
  intros _. destruct w as [[ss reqs] sl en].
  change (mkWorld (mkRemote ss reqs) sl en) with (world_of ss reqs sl en).
  destruct (decide (plain_names items)) as [Hplain|Hplain].
  - by apply batchDeleteRows_data_rows.
  - rewrite batchDeleteRows_run, decide_False by done.
    cbn [snd world_of remote sheets]. apply data_rows_setup.
Qed.

Lemma batchDeleteRows_removes_selected_witness :
  data_rows (sheets (remote (snd (batchDeleteRows three_deletions five_rows_world))))
    "Monarch"
  = [["cat"; "id-c"; "0xc"; "Monarch"]; ["eve"; "id-e"; "0xe"; "Monarch"]].
Proof.
  rewrite (batchDeleteRows_removes_selected three_deletions five_rows_world "Monarch").
  - vm_compute. reflexivity.
  - repeat constructor; simpl; lia.
Defined.

(** ** batchUpdateRoles with roles that resolve to no partition *)

Lemma removals_loop_run updates : forall nupdated nmoved ss reqs sl en,
  Forall (fun u => getSheetNameForRole (upd_newRole u) = None) updates ->
  Forall (fun u => 1 <= upd_rowNumber u) updates ->
  batchUpdateRoles_loop updates nupdated nmoved (world_of ss reqs sl en)
  = (Ok (mkBatchResult (nupdated + length updates) nmoved),
     world_of (apply_plan ss (removal_plan updates))
       (reqs ++ deletions_of (removal_plan updates) ss) sl en).
Proof.
  induction updates as [|u updates IH]; intros nupdated nmoved ss reqs sl en Hnone Hrows.
  - cbn. by rewrite Nat.add_0_r, app_nil_r.
  - apply Forall_cons in Hnone as [Hu Hnone]. apply Forall_cons in Hrows as [Hrow Hrows].
    cbn [batchUpdateRoles_loop]. rewrite Hu.
    erewrite bind_ok by (by apply deleteRowFromSheet_run).
    rewrite IH by done. rewrite deletions_of_after, <- app_assoc.
    replace (nupdated + length (u :: updates))%nat
      with (S nupdated + length updates)%nat by (cbn [length]; lia).
    reflexivity.
Qed.

Lemma data_rows_delete_sublist sheetName rowNumber
    (ss : gmap string (list (list string))) name :
  data_rows (delete_row_sheets sheetName rowNumber ss) name
  `sublist_of` data_rows ss name.
Proof.
  unfold data_rows, delete_row_sheets. destruct (decide (name = sheetName)) as [->|Hne].
  - rewrite lookup_alter_eq. destruct (ss !! sheetName) as [g|]; [|done]. simpl.
    destruct g as [|h g]; [done|]. destruct (row_index rowNumber) as [|k]; simpl.
    + rewrite drop_0. apply sublist_drop.
    + rewrite !drop_0. apply sublist_delete.
  - by rewrite lookup_alter_ne.
Qed.

Lemma data_rows_plan_sublist plan : forall (ss : gmap string (list (list string))) name,
  data_rows (apply_plan ss plan) name `sublist_of` data_rows ss name.
Proof.
  induction plan as [|[s n] plan IH]; intros ss name; [done|].
  cbn [apply_plan foldl fst snd]. fold (apply_plan (delete_row_sheets s n ss) plan).
  etrans; [apply IH|apply data_rows_delete_sublist].
Qed.

Lemma setup_requests_write_no_data ss :
  Forall (fun req => writes_data req = false) (setup_requests ss).
Proof.
  unfold setup_requests. apply Forall_app. split.
  - destruct (filter _ SHEET_NAME_VALUES); repeat constructor.
  - unfold SHEET_NAME_VALUES. simpl. repeat case_bool_decide; repeat constructor.
Qed.

Lemma deletions_write_no_data plan ss :
  Forall (fun req => writes_data req = false) (deletions_of plan ss).
Proof.
  apply Forall_forall. intros req (s & n & _ & _ & ->)%deletions_of_elem. done.
Qed.

(** X8.  A transition whose new role resolves to no partition is a removal,
    whatever the label says.  For a list of such transitions with row
    numbers of at least 1 and at most 2^53, where the row indices sent are
    exact, batchUpdateRoles returns [updated] equal to the
    length of the list and [moved] 0, sends nothing that writes a data cell
    or appends a row, and leaves in every sheet a sub-sequence of the data
    rows it had: the rows are deleted, the label is written nowhere.  The
    fill-monad-airdrop-role command sends the label 'Monad Airdrop', which
    is such a label. *)
Theorem batchUpdateRoles_unresolved_deletes updates (w : World Remote) :
  Forall (fun u => getSheetNameForRole (upd_newRole u) = None) updates ->
  Forall (fun u => 1 <= upd_rowNumber u <= 2 ^ 53) updates ->
  exists w',
    batchUpdateRoles updates w = (Ok (mkBatchResult (length updates) 0), w')
    /\ (exists sent,
          requests (remote w') = requests (remote w) ++ sent
          /\ Forall (fun req => writes_data req = false) sent)
    /\ (forall name,
          data_rows (sheets (remote w')) name
          `sublist_of` data_rows (sheets (remote w)) name).
Proof.
  intros Hnone Hexact.
  assert (Hrows : Forall (fun u => 1 <= upd_rowNumber u) updates).
  { eapply Forall_impl; [exact Hexact|]. simpl. intros u Hu. lia. }
  clear Hexact. destruct w as [[ss reqs] sl en].
  change (mkWorld (mkRemote ss reqs) sl en) with (world_of ss reqs sl en).
  destruct updates as [|u updates].
  { eexists. split; [reflexivity|]. split; [|done].
    exists []. cbn. by rewrite app_nil_r. }
  unfold batchUpdateRoles. cbn [length Nat.eqb].
  erewrite bind_ok by apply ensureSheetSetup_run.
  rewrite removals_loop_run by done.
  eexists. split; [reflexivity|]. cbn [world_of remote sheets requests]. split.
  - eexists. split; [by rewrite <- app_assoc|].
    apply Forall_app. split;
      [apply setup_requests_write_no_data|apply deletions_write_no_data].
  - intros name. etrans; [apply data_rows_plan_sublist|]. by rewrite data_rows_setup.
Qed.

Lemma batchUpdateRoles_unresolved_deletes_witness :
  exists w',
    batchUpdateRoles (map airdrop_update airdrop_items) five_rows_world
    = (Ok (mkBatchResult 2 0), w')
    /\ (exists sent,
          requests (remote w') = requests (remote five_rows_world) ++ sent
          /\ Forall (fun req => writes_data req = false) sent)
    /\ (forall name,
          data_rows (sheets (remote w')) name
          `sublist_of` data_rows (sheets (remote five_rows_world)) name).
Proof.
  apply (batchUpdateRoles_unresolved_deletes (map airdrop_update airdrop_items)
           five_rows_world).
  - repeat constructor.
  - repeat constructor; simpl; lia.
Defined.

(** X9.  Removals listed from the bottom up are exact.  When every
    transition of the list is a removal, the row numbers are at least 2, at
    most 2^53 (where the row indices sent are exact) and, sheet by sheet,
    strictly descending in the order of the list, batchUpdateRoles leaves in
    every sheet exactly the data rows whose row number the list does not
    name for that sheet. *)
Theorem batchUpdateRoles_descending_removals updates (w : World Remote) name :
  Forall (fun u => getSheetNameForRole (upd_newRole u) = None) updates ->
  Forall (fun u => 2 <= upd_rowNumber u <= 2 ^ 53) updates ->
  (forall sheetName,
     StronglySorted (fun a b => b < a) (planned_rows sheetName (removal_plan updates))) ->
  data_rows (sheets (remote (snd (batchUpdateRoles updates w)))) name
  = rows_without (planned_rows name (removal_plan updates)) 2
      (data_rows (sheets (remote w)) name).
Proof.
  intros Hnone Hexact Hsorted.
  assert (Hrows : Forall (fun u => 2 <= upd_rowNumber u) updates).
  { eapply Forall_impl; [exact Hexact|]. simpl. intros u Hu. lia. }
  clear Hexact. destruct w as [[ss reqs] sl en].
  change (mkWorld (mkRemote ss reqs) sl en) with (world_of ss reqs sl en).
  assert (Hplan : Forall (fun n => 2 <= n) (planned_rows name (removal_plan updates))).
  { apply Forall_forall. intros n Hn%planned_rows_elem.
    unfold removal_plan in Hn. apply list_elem_of_fmap in Hn as (u & [= _ ->] & Hu).
    by apply (proj1 (Forall_forall _ _) Hrows). }
  destruct updates as [|u updates].
  { cbn. by rewrite rows_without_below by (intros n Hn; by apply elem_of_nil in Hn). }
  unfold batchUpdateRoles. cbn [length Nat.eqb].
  erewrite bind_ok by apply ensureSheetSetup_run.
  rewrite removals_loop_run;
    [|done|eapply Forall_impl; [exact Hrows|]; simpl; intros; lia].
  cbn [snd world_of remote sheets].
  rewrite apply_plan_data_rows by done. by rewrite data_rows_setup.
Qed.

Lemma batchUpdateRoles_descending_removals_witness :
  data_rows (sheets (remote (snd (batchUpdateRoles two_removals_descending
                                    five_rows_world)))) "Monarch"
  = rows_without (planned_rows "Monarch" (removal_plan two_removals_descending)) 2
      (data_rows (sheets (remote five_rows_world)) "Monarch").
Proof.
  apply (batchUpdateRoles_descending_removals two_removals_descending five_rows_world).
  - repeat constructor.
  - repeat constructor; simpl; lia.
  - intros sheetName. unfold planned_rows, removal_plan, two_removals_descending.
    simpl. rewrite !filter_cons, filter_nil. simpl.
    destruct (decide ("Monarch" = sheetName)); simpl; repeat constructor; lia.
Defined.

(** ** listWallets and listWalletsWithRow *)

Lemma listWalletsWithRow_scan_run names : forall items ss reqs sl en,
  (forall name, name ∈ names -> is_Some (ss !! name)) ->
  listWalletsWithRow_scan names items (world_of ss reqs sl en)
  = (Ok (items
         ++ flat_map (fun name => items_with_row name (map (take 4) (data_rows ss name)))
              names),
     world_of ss reqs sl en).
Proof.
  induction names as [|name names IH]; intros items ss reqs sl en Hex.
  - cbn. by rewrite app_nil_r.
  - destruct (Hex name ltac:(by left)) as [g Hg].
    cbn [listWalletsWithRow_scan flat_map].
    erewrite bind_ok by (by eapply call_values_get).
    erewrite window_data by done. rewrite IH by (intros n Hn; apply Hex; by right).
    by rewrite <- app_assoc.
Qed.

Lemma listWallets_scan_run names : forall items ss reqs sl en,
  (forall name, name ∈ names -> is_Some (ss !! name)) ->
  listWallets_scan names items (world_of ss reqs sl en)
  = (Ok (items
         ++ flat_map (fun name => items_of_rows (map (take 4) (data_rows ss name))) names),
     world_of ss reqs sl en).
Proof.
  induction names as [|name names IH]; intros items ss reqs sl en Hex.
  - cbn. by rewrite app_nil_r.
  - destruct (Hex name ltac:(by left)) as [g Hg].
    cbn [listWallets_scan flat_map].
    erewrite bind_ok by (by eapply call_values_get).
    erewrite window_data by done. rewrite IH by (intros n Hn; apply Hex; by right).
    by rewrite <- app_assoc.
Qed.

Lemma items_with_row_items_from name (rows : list (list string)) : forall f : nat -> nat,
  at_item <$> omap (fun p : nat * list string =>
      if (length (snd p) =? 0)%nat then None
      else Some (mkItemWithRow name (Z.of_nat (fst p) + 2) (item_of_row (snd p))))
    (imap (fun i r => (f i, r)) rows)
  = items_of_rows rows.
Proof.
  unfold items_of_rows. induction rows as [|row rows IH]; intros f; [done|].
  rewrite imap_cons. cbn [omap list_omap snd].
  fold (omap (fun row => if (length row =? 0)%nat then None
                         else Some (item_of_row row)) rows).
  specialize (IH (f ∘ S)).
  destruct (length row =? 0)%nat; [exact IH|].
  rewrite fmap_cons. cbn [at_item]. f_equal. exact IH.
Qed.

Lemma items_with_row_items name (rows : list (list string)) :
  at_item <$> items_with_row name rows = items_of_rows rows.
Proof. apply (items_with_row_items_from name rows id). Qed.

Lemma listed_with_row_setup ss : listed_with_row (setup_sheets ss) = listed_with_row ss.
Proof.
  unfold listed_with_row, SHEET_NAME_VALUES. cbn [flat_map].
  by rewrite !data_rows_setup.
Qed.

Lemma listWalletsWithRow_run ss reqs sl en :
  listWalletsWithRow (world_of ss reqs sl en)
  = (Ok (listed_with_row ss),
     world_of (setup_sheets ss) (reqs ++ setup_requests ss) sl en).
Proof.
  unfold listWalletsWithRow. erewrite bind_ok by apply ensureSheetSetup_run.
  rewrite listWalletsWithRow_scan_run.
  - fold (listed_with_row (setup_sheets ss)). by rewrite listed_with_row_setup.
  - intros name Hname. destruct (setup_sheets_ready ss name Hname) as (h & rest & ->).
    eauto.
Qed.

Lemma at_item_listed ss :
  at_item <$> listed_with_row ss
  = flat_map (fun name => items_of_rows (map (take 4) (data_rows ss name)))
      SHEET_NAME_VALUES.
Proof.
  unfold listed_with_row. induction SHEET_NAME_VALUES as [|name names IH]; [done|].
  cbn [flat_map]. by rewrite fmap_app, items_with_row_items, IH.
Qed.

Lemma listWallets_run ss reqs sl en :
  listWallets (world_of ss reqs sl en)
  = (Ok (at_item <$> listed_with_row ss),
     world_of (setup_sheets ss) (reqs ++ setup_requests ss) sl en).
Proof.
  unfold listWallets. erewrite bind_ok by apply ensureSheetSetup_run.
  rewrite listWallets_scan_run.
  - rewrite <- (listed_with_row_setup ss), at_item_listed. done.
  - intros name Hname. destruct (setup_sheets_ready ss name Hname) as (h & rest & ->).
    eauto.
Qed.

Lemma elem_of_items_with_row name (rows : list (list string)) x :
  x ∈ items_with_row name rows <->
  exists i row, rows !! i = Some row /\ row <> []
    /\ x = mkItemWithRow name (Z.of_nat i + 2) (item_of_row row).
Proof.
  unfold items_with_row. rewrite list_elem_of_omap. split.
  - intros ([i row] & Hin & Hx). apply elem_of_lookup_imap in Hin as (j & r & Heq & Hj).
    inversion Heq; subst. simpl in Hx.
    destruct r as [|c r]; [done|]. simpl in Hx. inversion Hx. exists j, (c :: r). done.
  - intros (i & row & Hi & Hne & ->). exists (i, row). split.
    + apply elem_of_lookup_imap. eauto.
    + simpl. by destruct row.
Qed.

Lemma elem_of_listed ss x :
  x ∈ listed_with_row ss <->
  at_sheetName x ∈ SHEET_NAME_VALUES /\ 2 <= at_rowNumber x
  /\ exists row,
       data_rows ss (at_sheetName x) !! data_index (at_rowNumber x) = Some row
       /\ take 4 row <> []
       /\ at_item x = item_of_row (take 4 row).
Proof.
  unfold listed_with_row. rewrite list_elem_of_In, in_flat_map. split.
  - intros (name & Hname%list_elem_of_In & Hx%list_elem_of_In).
    apply elem_of_items_with_row in Hx as (i & row & Hi & Hne & ->). cbn.
    split; [done|]. split; [lia|].
    rewrite list_lookup_fmap in Hi. unfold data_index.
    replace (Z.to_nat (Z.of_nat i + 2 - 2)) with i by lia.
    destruct (data_rows ss name !! i) as [r|]; [|done]. simpl in Hi.
    inversion Hi; subst. eauto.
  - intros (Hname & Hrow & row & Hi & Hne & Hitem). exists (at_sheetName x).
    split; [by apply list_elem_of_In|]. apply list_elem_of_In.
    apply elem_of_items_with_row. exists (data_index (at_rowNumber x)), (take 4 row).
    split; [by rewrite list_lookup_fmap, Hi|]. split; [done|].
    destruct x as [s n it]. simpl in *. subst it. f_equal. unfold data_index. lia.
Qed.

Lemma items_with_row_locations name (rows : list (list string)) :
  NoDup (location <$> items_with_row name rows)
  /\ Forall (fun x => at_sheetName x = name) (items_with_row name rows).
Proof.
  split.
  - unfold items_with_row.
    assert (Hgen : forall f : nat -> nat, (forall i j, f i = f j -> i = j) ->
      NoDup (location <$> omap (fun p : nat * list string =>
          if (length (snd p) =? 0)%nat then None
          else Some (mkItemWithRow name (Z.of_nat (fst p) + 2) (item_of_row (snd p))))
        (imap (fun i r => (f i, r)) rows))
      /\ forall x, x ∈ omap (fun p : nat * list string =>
          if (length (snd p) =? 0)%nat then None
          else Some (mkItemWithRow name (Z.of_nat (fst p) + 2) (item_of_row (snd p))))
        (imap (fun i r => (f i, r)) rows) -> exists i, at_rowNumber x = Z.of_nat (f i) + 2).
    { induction rows as [|row rows IH]; intros f Hf.
      - split; [constructor|]. intros x Hx. by apply elem_of_nil in Hx.
      - rewrite imap_cons. cbn [omap list_omap snd fst].
        destruct (IH (f ∘ S)) as [Hnd Hidx].
        { intros i j Hij. apply Hf in Hij. by inversion Hij. }
        destruct (length row =? 0)%nat.
        + split; [exact Hnd|]. intros x Hx. destruct (Hidx x Hx) as [i Hi]. by exists (S i).
        + split.
          * rewrite fmap_cons. constructor; [|exact Hnd].
            intros (x & Hloc & Hx)%list_elem_of_fmap.
            destruct (Hidx x Hx) as [i Hi]. unfold location in Hloc. simpl in Hloc.
            injection Hloc as _ Hrow. rewrite Hi in Hrow. simpl in Hrow.
            assert (f 0%nat = f (S i)) as Heq by lia. by apply Hf in Heq.
          * intros x [->|Hx]%elem_of_cons; [by exists 0%nat|].
            destruct (Hidx x Hx) as [i Hi]. by exists (S i). }
    apply (Hgen id). by intros i j.
  - apply Forall_forall. intros x (i & row & _ & _ & ->)%elem_of_items_with_row. done.
Qed.

Lemma listed_locations ss : NoDup (location <$> listed_with_row ss).
Proof.
  unfold listed_with_row, SHEET_NAME_VALUES. cbn [flat_map].
  rewrite app_nil_r, !fmap_app.
  pose proof (fun name rows => proj1 (items_with_row_locations name rows)) as Hnd.
  pose proof (fun name rows => proj2 (items_with_row_locations name rows)) as Hname.
  assert (Hin : forall name rows p, p ∈ location <$> items_with_row name rows -> fst p = name).
  { intros name rows p (x & -> & Hx)%list_elem_of_fmap.
    exact (proj1 (Forall_forall _ _) (Hname name rows) x Hx). }
  apply NoDup_app. split; [apply Hnd|]. split.
  - intros p Hp [Hq|Hq]%elem_of_app; apply Hin in Hp; apply Hin in Hq;
      rewrite Hp in Hq; discriminate.
  - apply NoDup_app. split; [apply Hnd|]. split; [|apply Hnd].
    intros p Hp Hq. apply Hin in Hp; apply Hin in Hq. rewrite Hp in Hq; discriminate.
Qed.

(** X10.  The listings list every row with a cell once, at its address.
    listWalletsWithRow returns one item for each data row of the three
    partitions that has a cell in columns A to D, partition by partition and
    top down, with the sheet and the row number at which the row is; no two
    items have the same address.  listWallets returns the same items without
    the addresses.  Neither changes anything beyond the setup. *)
Theorem listWalletsWithRow_addresses (w : World Remote) :
  listWalletsWithRow w
  = (Ok (listed_with_row (sheets (remote w))), snd (ensureSheetSetup w))
  /\ listWallets w
     = (Ok (at_item <$> listed_with_row (sheets (remote w))), snd (ensureSheetSetup w))
  /\ (forall x, x ∈ listed_with_row (sheets (remote w)) <->
        at_sheetName x ∈ SHEET_NAME_VALUES /\ 2 <= at_rowNumber x
        /\ exists row,
             data_rows (sheets (remote w)) (at_sheetName x)
               !! data_index (at_rowNumber x) = Some row
             /\ take 4 row <> []
             /\ at_item x = item_of_row (take 4 row))
  /\ NoDup (location <$> listed_with_row (sheets (remote w))).
Proof.
  destruct w as [[ss reqs] sl en].
  change (mkWorld (mkRemote ss reqs) sl en) with (world_of ss reqs sl en).
  rewrite listWalletsWithRow_run, listWallets_run, ensureSheetSetup_run.
  cbn [world_of remote sheets snd].
  split; [done|]. split; [done|]. split; [apply elem_of_listed|apply listed_locations].
Qed.

(** ** getWallet and the listings *)

Lemma item_of_row_take row : item_of_row (take 4 row) = item_of_row row.
Proof.
  unfold item_of_row, cell. by rewrite !lookup_take_lt by lia.
Qed.

Lemma item_of_record_row row : item_of_record (record_of_row row) = item_of_row row.
Proof. done. Qed.

Lemma first_listed_in discordId (rows : list (list string)) (rest : list WalletItem) :
  discordId <> "" ->
  head (filter (fun it => item_discordId it = discordId)
          (items_of_rows (map (take 4) rows) ++ rest))
  = match list_find (bears discordId) rows with
    | Some (_, row) => Some (item_of_record (record_of_row row))
    | None => head (filter (fun it => item_discordId it = discordId) rest)
    end.
Proof.
  intros Hid. unfold items_of_rows. induction rows as [|row rows IH]; [done|].
  cbn [map omap list_omap list_find].
  fold (omap (fun row => if (length row =? 0)%nat then None
                         else Some (item_of_row row)) (map (take 4) rows)).
  destruct (decide (bears discordId row)) as [Hb|Hb].
  - unfold bears in Hb.
    assert (take 4 row <> []) as Hne.
    { destruct row as [|c0 [|c1 r]]; done. }
    destruct (take 4 row) as [|c r] eqn:Htake; [done|]. cbn [length Nat.eqb].
    rewrite <- Htake, item_of_row_take. cbn [app]. rewrite filter_cons_True.
    + done.
    + unfold item_of_row, cell. simpl. by rewrite Hb.
  - destruct (length (take 4 row) =? 0)%nat.
    + rewrite IH. by destruct (list_find (bears discordId) rows) as [[j x]|].
    + cbn [app]. rewrite filter_cons_False.
      * rewrite IH. by destruct (list_find (bears discordId) rows) as [[j x]|].
      * rewrite item_of_row_take. unfold item_of_row, cell. simpl.
        unfold bears in Hb. destruct (row !! 1%nat) as [s|]; simpl; congruence.
Qed.

Lemma first_listed discordId ss names :
  discordId <> "" ->
  head (filter (fun it => item_discordId it = discordId)
          (flat_map (fun name => items_of_rows (map (take 4) (data_rows ss name))) names))
  = item_of_record <$> record_in discordId names ss.
Proof.
  intros Hid. induction names as [|name names IH]; [done|].
  cbn [flat_map record_in]. rewrite first_listed_in by done.
  destruct (list_find (bears discordId) (data_rows ss name)) as [[i row]|]; [done|].
  exact IH.
Qed.

(** X11.  getWallet returns the first listed item of the user.  For a user id
    other than the empty string, getWallet returns the record of the first
    item, in the order of listWallets, whose id is the user's, and [null]
    when the listing has no such item. *)
Theorem getWallet_first_listed discordId (w : World Remote) :
  discordId <> "" ->
  exists record items,
    fst (getWallet discordId w) = Ok record
    /\ fst (listWallets w) = Ok items
    /\ item_of_record <$> record
       = head (filter (fun it => item_discordId it = discordId) items).
Proof.
  intros Hid. destruct w as [[ss reqs] sl en].
  change (mkWorld (mkRemote ss reqs) sl en) with (world_of ss reqs sl en).
  rewrite getWallet_run, listWallets_run. eexists _, _.
  split; [done|]. split; [done|].
  by rewrite at_item_listed, first_listed.
Qed.

Lemma getWallet_first_listed_witness :
  "id-b" <> ""
  /\ exists record items,
       fst (getWallet "id-b" five_rows_world) = Ok record
       /\ fst (listWallets five_rows_world) = Ok items
       /\ item_of_record <$> record
          = head (filter (fun it => item_discordId it = "id-b") items).
Proof. split; [done|]. apply (getWallet_first_listed "id-b" five_rows_world). done. Defined.

(** ** Listing, pruning, listing again *)

Lemma filter_ext_in {X} (P Q : X -> Prop) `{forall x, Decision (P x)}
    `{forall x, Decision (Q x)} (l : list X) :
  (forall x, x ∈ l -> P x <-> Q x) -> filter P l = filter Q l.
Proof.
  induction l as [|x l IH]; intros Hsame; [done|].
  rewrite !filter_cons, IH by (intros y Hy; apply Hsame; by right).
  destruct (decide (P x)) as [HP|HP]; destruct (decide (Q x)) as [HQ|HQ]; try done.
  - exfalso. apply HQ, (Hsame x); [by left|done].
  - exfalso. apply HP, (Hsame x); [by left|done].
Qed.

Lemma partition_names_plain name :
  name ∈ SHEET_NAME_VALUES -> name <> "" /\ name ∉ Object_prototype_keys.
Proof.
  unfold SHEET_NAME_VALUES. rewrite !elem_of_cons, elem_of_nil.
  intros [->|[->|[->|[]]]]; (split; [done|]);
    unfold Object_prototype_keys; rewrite !elem_of_cons, elem_of_nil;
    intros H; repeat (destruct H as [H|H]; [discriminate H|]); done.
Qed.

Lemma valid_pairs_prune chosen :
  Forall (fun x => at_sheetName x ∈ SHEET_NAME_VALUES /\ 2 <= at_rowNumber x) chosen ->
  valid_pairs (prune_item <$> chosen) = location <$> chosen.
Proof.
  unfold valid_pairs. induction 1 as [|x chosen [Hname Hrow] _ IH]; [done|].
  rewrite !fmap_cons. cbn [omap list_omap]. unfold accepted at 1. cbn [prune_item del_sheetName del_rowNumber].
  destruct (partition_names_plain _ Hname) as [Hne _].
  apply String.eqb_neq in Hne. rewrite Hne.
  replace (at_rowNumber x <? 2) with false by (symmetry; apply Z.ltb_ge; lia).
  cbn [orb]. fold (omap accepted (prune_item <$> chosen)). by rewrite IH.
Qed.

Lemma items_without (sel : list Z) name (rows : Grid) : forall k,
  at_item <$> filter (fun x => at_rowNumber x ∉ sel)
    (omap (fun p : nat * list string =>
             if (length (snd p) =? 0)%nat then None
             else Some (mkItemWithRow name (Z.of_nat (fst p) + 2) (item_of_row (snd p))))
       (imap (fun i r => ((k + i)%nat, r)) (map (take 4) rows)))
  = items_of_rows (map (take 4) (rows_without sel (Z.of_nat k + 2) rows)).
Proof.
  unfold items_of_rows. induction rows as [|row rows IH]; intros k; [done|].
  cbn [map]. rewrite imap_cons. cbn [omap list_omap snd fst rows_without].
  rewrite (imap_ext _ (fun i r => ((S k + i)%nat, r)))
    by (intros i r _; simpl; f_equal; lia).
  specialize (IH (S k)).
  replace (Z.of_nat (S k) + 2) with (Z.of_nat k + 2 + 1) in IH by lia.
  replace (Z.of_nat (k + 0) + 2) with (Z.of_nat k + 2) by lia.
  destruct (decide (Z.of_nat k + 2 ∈ sel)) as [Hin|Hout].
  - destruct (length (take 4 row) =? 0)%nat; [exact IH|].
    rewrite filter_cons_False by (simpl; tauto). exact IH.
  - cbn [map omap list_omap].
    destruct (length (take 4 row) =? 0)%nat; [exact IH|].
    rewrite filter_cons_True by done. rewrite fmap_cons. cbn [at_item].
    f_equal. exact IH.
Qed.

Lemma listed_without (chosen : list WalletItemWithRow) name (rows : Grid) :
  at_item <$> filter (fun x => location x ∉ location <$> chosen)
    (items_with_row name (map (take 4) rows))
  = items_of_rows
      (map (take 4)
         (rows_without (planned_rows name (location <$> chosen)) 2 rows)).
Proof.
  rewrite <- (items_without _ name rows 0).
  change (imap (fun i r => ((0 + i)%nat, r)) (map (take 4) rows))
    with (imap pair (map (take 4) rows)).
  fold (items_with_row name (map (take 4) rows)). f_equal.
  apply filter_ext_in. intros x (i & row & _ & _ & ->)%elem_of_items_with_row.
  unfold location at 1. cbn [at_sheetName at_rowNumber].
  by rewrite planned_rows_elem.
Qed.

(** X12.  Listing, pruning and listing again.  When the items chosen for
    deletion are among those that listWalletsWithRow returned, in any order
    and with repetitions, batchDeleteRows on their addresses returns the
    number of distinct addresses, and listWallets then returns the items
    that were listed before and not chosen, in the same order: the row
    numbers of the listing stay valid throughout the batch. *)
Theorem prune_then_list chosen (w : World Remote) :
  chosen ⊆ listed_with_row (sheets (remote w)) ->
  exists w1 w2,
    listWalletsWithRow w = (Ok (listed_with_row (sheets (remote w))), w1)
    /\ batchDeleteRows (prune_item <$> chosen) w1
       = (Ok (length (remove_dups (location <$> chosen))), w2)
    /\ fst (listWallets w2)
       = Ok (at_item <$> filter (fun x => location x ∉ location <$> chosen)
                           (listed_with_row (sheets (remote w)))).
Proof.
  intros Hchosen. destruct w as [[ss reqs] sl en].
  change (mkWorld (mkRemote ss reqs) sl en) with (world_of ss reqs sl en) in *.
  cbn [world_of remote sheets] in *.
  assert (Hwell : Forall (fun x => at_sheetName x ∈ SHEET_NAME_VALUES
                                   /\ 2 <= at_rowNumber x) chosen).
  { apply Forall_forall. intros x Hx%Hchosen%elem_of_listed. tauto. }
  pose proof (valid_pairs_prune chosen Hwell) as Hpairs.
  assert (Hplain : plain_names (prune_item <$> chosen)).
  { unfold plain_names. rewrite Hpairs. apply Forall_fmap.
    eapply Forall_impl; [exact Hwell|]. intros x [Hname _]. simpl.
    by apply partition_names_plain. }
  rewrite listWalletsWithRow_run.
  set (reqs1 := reqs ++ setup_requests ss).
  pose proof (batchDeleteRows_run (prune_item <$> chosen) (setup_sheets ss) reqs1 sl en)
    as Hrun.
  rewrite decide_True in Hrun by done.
  rewrite deletion_plan_length, Hpairs in Hrun.
  eexists _, _. split; [done|]. split; [exact Hrun|].
  rewrite listWallets_run. cbn [fst]. f_equal.
  set (ss2 := apply_plan (setup_sheets (setup_sheets ss)) (deletion_plan (prune_item <$> chosen))).
  assert (Hrows : forall name,
    data_rows ss2 name
    = rows_without (planned_rows name (location <$> chosen)) 2 (data_rows ss name)).
  { intros name.
    pose proof (batchDeleteRows_data_rows (prune_item <$> chosen) (setup_sheets ss)
                  reqs1 sl en name Hplain) as Hdata.
    rewrite Hrun in Hdata. cbn [snd world_of remote sheets] in Hdata.
    rewrite data_rows_setup in Hdata. unfold selected_rows in Hdata.
    rewrite Hpairs in Hdata. exact Hdata. }
  rewrite at_item_listed. unfold listed_with_row, SHEET_NAME_VALUES. cbn [flat_map].
  rewrite !app_nil_r, !filter_app, !fmap_app, !listed_without, !Hrows. done.
Qed.

Lemma prune_then_list_witness :
  exists w1 w2,
    listWalletsWithRow five_rows_world
    = (Ok (listed_with_row (sheets (remote five_rows_world))), w1)
    /\ batchDeleteRows (prune_item <$> pruned_items) w1
       = (Ok (length (remove_dups (location <$> pruned_items))), w2)
    /\ fst (listWallets w2)
       = Ok (at_item <$> filter (fun x => location x ∉ location <$> pruned_items)
                           (listed_with_row (sheets (remote five_rows_world)))).
Proof.
  apply (prune_then_list pruned_items five_rows_world).
  intros x Hx. unfold pruned_items in Hx.
  apply elem_of_cons in Hx as [->|Hx]; [vm_compute; repeat constructor|].
  apply elem_of_cons in Hx as [->|Hx]; [vm_compute; repeat constructor|].
  by apply elem_of_nil in Hx.
Defined.

(** * index.js: the wallet form *)

(** The members of [PRIORITY_ROLES] held, in order. *)
Lemma label_cases (roleIds : gset string) :
  getHighestPriorityRoleLabel roleIds
  = if decide ("1184443552571338792" ∈ roleIds) then "Monadian"
    else if decide ("1316432197162631238" ∈ roleIds) then "Monarch"
    else if decide ("1184772610102394950" ∈ roleIds) then "Monalista"
    else "".
Proof.
  unfold getHighestPriorityRoleLabel, PRIORITY_ROLES. cbn [List.find fst snd].
  repeat (case_bool_decide; [by rewrite decide_True by done|rewrite decide_False by done]).
  done.
Qed.

Lemma no_priority_role (roleIds : gset string) :
  (forall r, r ∈ PRIORITY_ROLES -> fst r ∉ roleIds) ->
  getHighestPriorityRoleLabel roleIds = "".
Proof.
  intros Hnone. rewrite label_cases.
  pose proof (Hnone ("1184443552571338792", "Monadian")) as H1.
  pose proof (Hnone ("1316432197162631238", "Monarch")) as H2.
  pose proof (Hnone ("1184772610102394950", "Monalista")) as H3.
  unfold PRIORITY_ROLES in *. rewrite !elem_of_cons in H1, H2, H3. simpl in *.
  rewrite !decide_False; [done|tauto..].
Qed.

(** X13.  The label of a member's highest priority role resolves to the
    partition of that role: 'Monadian' (and the sheet "Monadians") for a
    member who holds the first role of PRIORITY_ROLES, whatever else they
    hold, then 'Monarch', then 'Monalista'; a member who holds none of the
    three gets the empty label, which resolves to no partition. *)
Theorem priority_label_resolves (roleIds : gset string) :
  getSheetNameForRole (Some (getHighestPriorityRoleLabel roleIds))
  = (if decide ("1184443552571338792" ∈ roleIds) then Some "Monadians"
     else if decide ("1316432197162631238" ∈ roleIds) then Some "Monarch"
     else if decide ("1184772610102394950" ∈ roleIds) then Some "Monalista"
     else None)
  /\ (getHighestPriorityRoleLabel roleIds = ""
      <-> forall r, r ∈ PRIORITY_ROLES -> fst r ∉ roleIds).
Proof.
  rewrite label_cases. unfold PRIORITY_ROLES. split.
  - repeat (destruct (decide _); [reflexivity|]). reflexivity.
  - split.
    + intros Hlabel r Hr. rewrite !elem_of_cons, elem_of_nil in Hr.
      repeat (destruct (decide _); [discriminate Hlabel|]).
      destruct Hr as [->|[->|[->|[]]]]; done.
    + intros Hnone. rewrite <- label_cases. by apply no_priority_role.
Qed.

Lemma wallet_modal_run roleIds user wallet ss reqs sl en :
  isLikelyEvm wallet = true ->
  wallet_modal roleIds user wallet (world_of ss reqs sl en)
  = let input := mkInput (user_id user) (discordUsername_of user) wallet
                   (Some (getHighestPriorityRoleLabel roleIds)) in
    (Ok (reply_of (upsert_action input ss)),
     world_of (upsert_sheets input ss) (reqs ++ upsert_requests input ss) sl en).
Proof.
  intros Hevm. unfold wallet_modal, or_error_reply. rewrite Hevm. cbn [negb].
  by erewrite bind_ok by apply upsertWallet_run.
Qed.

(** X14.  A member without a priority role is told that the wallet was
    saved, and nothing is stored.  For a well-formed address and a member
    who holds none of the roles of PRIORITY_ROLES, the reply is
    'Wallet saved successfully.' and the spreadsheet is as the setup alone
    leaves it: no row is written, and a row the user has from an earlier
    role stays as it is.  For an address that is not well formed the
    spreadsheet is not even read. *)
Theorem wallet_modal_without_role roleIds user wallet (w : World Remote) :
  (isLikelyEvm wallet = true ->
   (forall r, r ∈ PRIORITY_ROLES -> fst r ∉ roleIds) ->
   wallet_modal roleIds user wallet w
   = (Ok "Wallet saved successfully.", snd (ensureSheetSetup w)))
  /\ (isLikelyEvm wallet = false ->
      wallet_modal roleIds user wallet w
      = (Ok "Invalid EVM address. Please submit a 0x... address.", w)).
Proof.
  split.
  - intros Hevm Hnone. destruct w as [[ss reqs] sl en].
    change (mkWorld (mkRemote ss reqs) sl en) with (world_of ss reqs sl en).
    rewrite wallet_modal_run, ensureSheetSetup_run by done. cbn zeta.
    rewrite (no_priority_role roleIds Hnone).
    unfold upsert_action, upsert_sheets, upsert_requests, upsert_plan.
    cbn [role]. change (getSheetNameForRole (Some "")) with (@None string).
    cbn [plan_action plan_sheets plan_requests snd]. by rewrite app_nil_r.
  - intros Hevm. unfold wallet_modal, or_error_reply. by rewrite Hevm.
Qed.

Lemma wallet_modal_without_role_witness :
  wallet_modal plain_roles alice alice_wallet monarch_world
  = (Ok "Wallet saved successfully.", snd (ensureSheetSetup monarch_world)).
Proof.
  apply (wallet_modal_without_role plain_roles alice alice_wallet monarch_world).
  - reflexivity.
  - intros r Hr. unfold PRIORITY_ROLES in Hr. rewrite !elem_of_cons, elem_of_nil in Hr.
    destruct Hr as [->|[->|[->|[]]]]; vm_compute; intros H; discriminate H.
Defined.

(** X15.  A member with a priority role has one row, in the partition of
    the role.  For a well-formed address, a member whose highest priority
    role resolves to [target] and a user with at most one row before, the
    user afterwards has exactly one row; it is in [target] and holds the
    username with the discriminator (the '#' of an empty one dropped), the
    id, the address and the label.  The reply says 'updated' when the row
    was already in [target], and 'saved' when it was inserted or moved. *)
Theorem wallet_modal_stores roleIds user wallet (w : World Remote) target :
  isLikelyEvm wallet = true ->
  getSheetNameForRole (Some (getHighestPriorityRoleLabel roleIds)) = Some target ->
  (total_occurrences (user_id user) (sheets (remote w)) <= 1)%nat ->
  exists reply w',
    wallet_modal roleIds user wallet w = (Ok reply, w')
    /\ one_row_in (user_id user)
         [discordUsername_of user; user_id user; wallet;
          getHighestPriorityRoleLabel roleIds]
         target (sheets (remote w'))
    /\ reply = if decide (occurrences (user_id user) (sheets (remote w)) target = 1%nat)
               then "Wallet updated successfully."
               else "Wallet saved successfully.".
Proof.
  intros Hevm Htarget Htotal. destruct w as [[ss reqs] sl en].
  change (mkWorld (mkRemote ss reqs) sl en) with (world_of ss reqs sl en) in *.
  cbn [world_of remote sheets] in *.
  set (input := mkInput (user_id user) (discordUsername_of user) wallet
                  (Some (getHighestPriorityRoleLabel roleIds))).
  destruct (upsert_sheets_one_row input ss target Htarget Htotal)
    as (Hrow & Hupdated & Hinserted).
  eexists _, _. split; [by apply wallet_modal_run|]. cbn zeta. fold input.
  split; [exact Hrow|].
  change (discordId input) with (user_id user) in *.
  destruct (decide (occurrences (user_id user) ss target = 1%nat)) as [Hone|Hnot].
  - apply Hupdated in Hone. by rewrite Hone.
  - destruct (upsert_action input ss) eqn:Haction; try done.
    exfalso. by apply Hnot, Hupdated.
Qed.

Lemma wallet_modal_stores_witness :
  exists reply w',
    wallet_modal monarch_roles alice alice_wallet monarch_world = (Ok reply, w')
    /\ one_row_in "user1"
         ["alice#0"; "user1"; alice_wallet; getHighestPriorityRoleLabel monarch_roles]
         "Monarch" (sheets (remote w'))
    /\ reply = if decide (occurrences "user1" (sheets (remote monarch_world)) "Monarch"
                          = 1%nat)
               then "Wallet updated successfully."
               else "Wallet saved successfully.".
Proof.
  apply (wallet_modal_stores monarch_roles alice alice_wallet monarch_world "Monarch").
  - reflexivity.
  - vm_compute. reflexivity.
  - vm_compute. lia.
Defined.

(** * callWithRetry: how long a call can wait *)

Lemma callWithRetry_reaches {St A} (requestFn : Api St A) (w : World St) (k : nat) :
  (k < 5)%nat ->
  (forall i, (i < k)%nat -> rate_limited_at requestFn w i = true) ->
  (k = 4%nat \/ rate_limited_at requestFn w k = false) ->
  callWithRetry requestFn w = attempt_once requestFn (world_before requestFn k w).
Proof.
  intros Hk Hbefore Hlast. unfold callWithRetry.
  pose proof (retry_loop_reaches requestFn k w k 0%nat (4 - k)%nat
                ltac:(lia) Hk Hbefore Hlast) as Hloop.
  replace (S k + (4 - k))%nat with (Z.to_nat maxAttempts) in Hloop
    by (unfold maxAttempts; lia).
  simpl world_before in Hloop. change (base_delay 0) with 1000 in Hloop.
  change (Z.of_nat 0) with 0 in Hloop. by rewrite Hloop.
Qed.

(** X16.  A call waits four times at most, and for less than 16 seconds in
    all.  Whatever the request does, callWithRetry returns after at most
    four waits, each of at least 1000 ms and less than 8250 ms (the cap of
    15000 ms on the delay is never reached), of less than 16000 ms together;
    and when it ends with a rate-limit failure it has waited four times,
    that is, made all five attempts. *)
Theorem callWithRetry_waits_bounded {St A} (requestFn : Api St A) (w : World St) :
  exists waits,
    slept (snd (callWithRetry requestFn w)) = slept w ++ waits
    /\ (length waits <= 4)%nat
    /\ Forall (fun ms => 1000 <= ms < 8250) waits
    /\ foldr Z.add 0 waits < 16000
    /\ (forall e, fst (callWithRetry requestFn w) = Throw e ->
          isRateLimited e = true -> length waits = 4%nat).
Proof.
  destruct (callWithRetry_run_length requestFn w) as (k & Hk & Hbefore & Hlast).
  rewrite (callWithRetry_reaches requestFn w k Hk Hbefore Hlast).
  destruct (world_before_slept requestFn k w) as (jitters & Hlen & Hrange & Hslept).
  exists (imap (fun i j => base_delay i + j) jitters).
  rewrite attempt_once_slept. split; [exact Hslept|].
  rewrite length_imap, Hlen. split; [lia|].
  assert (Hshape : Forall (fun ms => 1000 <= ms < 8250)
                     (imap (fun i j => base_delay i + j) jitters)
                   /\ foldr Z.add 0 (imap (fun i j => base_delay i + j) jitters) < 16000).
  { clear Hslept Hbefore Hlast. subst k.
    destruct jitters as [|j0 [|j1 [|j2 [|j3 [|j4 rest]]]]];
      [..|simpl in Hk; lia]; cbn [imap foldr compose];
      change (base_delay 0) with 1000; change (base_delay 1) with 2000;
      change (base_delay 2) with 4000; change (base_delay 3) with 8000;
      repeat match goal with
             | H : Forall _ (_ :: _) |- _ => apply Forall_cons in H as [? H]
             end;
      (split; [repeat constructor; lia|lia]). }
  destruct Hshape as [Heach Hsum]. split; [exact Heach|]. split; [exact Hsum|].
  intros e Hthrow Hlimited. destruct Hlast as [->|Hcalm]; [done|].
  unfold rate_limited_at in Hcalm. rewrite Hthrow in Hcalm. congruence.
Qed.

(** * callWithRetry: which status is looked at *)

Lemma js_strict_eq_neq (a b : jsval) : a <> b -> js_strict_eq a b = false.
Proof.
  intros Hne. destruct a as [|x|x], b as [|y|y]; simpl; try done.
  - apply Z.eqb_neq. congruence.
  - apply String.eqb_neq. congruence.
Qed.

(** X17.  The first truthy status decides.  When a request fails with an
    error whose [code] is truthy and is not the number 429 (a string, '429'
    included, or another number), and whose [cause.status] is not
    'RESOURCE_EXHAUSTED', callWithRetry rethrows the error after that one
    attempt, without waiting, whatever [status] and [response.status] say:
    a 429 there is not looked at. *)
Theorem callWithRetry_code_masks_status {St A} (requestFn : Api St A) (w : World St)
    err s :
  requestFn (remote w) = (Throw err, s) ->
  truthy (err_code err) = true ->
  err_code err <> JNum 429 ->
  err_cause_status err <> JStr "RESOURCE_EXHAUSTED" ->
  callWithRetry requestFn w = (Throw err, set_remote s w).
Proof.
  intros Hfail Htruthy Hcode Hcause.
  assert (Hlimited : isRateLimited err = false).
  { unfold isRateLimited, js_or. rewrite Htruthy.
    by rewrite !js_strict_eq_neq by done. }
  unfold callWithRetry. simpl. unfold attempt_once. rewrite Hfail, Hlimited. done.
Qed.

Lemma callWithRetry_code_masks_status_witness :
  callWithRetry string_coded_call (mkWorld 0%nat [] [])
  = (Throw string_coded_429, set_remote 1%nat (mkWorld 0%nat [] [])).
Proof.
  apply (callWithRetry_code_masks_status string_coded_call (mkWorld 0%nat [] [])
           string_coded_429 1%nat); [reflexivity|reflexivity|discriminate|discriminate].
Defined.

(** * batchDeleteRows keeps what holds of the rows *)

Lemma sublist_count {X} (P : X -> Prop) `{forall x, Decision (P x)} (l1 l2 : list X) :
  l1 `sublist_of` l2 -> (length (filter P l1) <= length (filter P l2))%nat.
Proof.
  induction 1 as [|x l1 l2 _ IH|x l1 l2 _ IH]; [done|..];
    rewrite ?filter_cons; destruct (decide (P x)); simpl; lia.
Qed.

Lemma sublist_role_consistent (ss ss' : gmap string (list (list string))) :
  (forall name, data_rows ss' name `sublist_of` data_rows ss name) ->
  role_consistent ss -> role_consistent ss'.
Proof.
  intros Hsub Hroles. unfold role_consistent in *.
  eapply Forall_impl; [exact Hroles|]. intros name Hrows. simpl in *.
  apply Forall_forall. intros row Hrow.
  apply (proj1 (Forall_forall _ _) Hrows).
  pose proof (sublist_subseteq _ _ (Hsub name)) as Hin. by apply Hin.
Qed.

Lemma sublist_total_occurrences discordId (ss ss' : gmap string (list (list string))) :
  (forall name, data_rows ss' name `sublist_of` data_rows ss name) ->
  (total_occurrences discordId ss' <= total_occurrences discordId ss)%nat.
Proof.
  intros Hsub. rewrite !total_occurrences_split. unfold occurrences.
  pose proof (sublist_count (bears discordId) _ _ (Hsub SHEET_NAMES.MONADIANS)).
  pose proof (sublist_count (bears discordId) _ _ (Hsub SHEET_NAMES.MONARCH)).
  pose proof (sublist_count (bears discordId) _ _ (Hsub SHEET_NAMES.MONALISTA)).
  lia.
Qed.

(** X18.  batchDeleteRows only removes.  Whatever the items, and whether it
    returns or throws, every sheet afterwards holds a sub-sequence of the
    data rows it had, so no user has more rows than before; and if every
    data row was in the partition of its role label, this still holds. *)
Theorem batchDeleteRows_only_removes items (w : World Remote) :
  (forall name,
     data_rows (sheets (remote (snd (batchDeleteRows items w)))) name
     `sublist_of` data_rows (sheets (remote w)) name)
  /\ (forall discordId,
        (total_occurrences discordId (sheets (remote (snd (batchDeleteRows items w))))
         <= total_occurrences discordId (sheets (remote w)))%nat)
  /\ (role_consistent (sheets (remote w)) ->
      role_consistent (sheets (remote (snd (batchDeleteRows items w))))).
Proof.
  assert (Hsub : forall name,
    data_rows (sheets (remote (snd (batchDeleteRows items w)))) name
    `sublist_of` data_rows (sheets (remote w)) name).
  { intros name. destruct w as [[ss reqs] sl en].
    change (mkWorld (mkRemote ss reqs) sl en) with (world_of ss reqs sl en).
    rewrite batchDeleteRows_run.
    destruct (decide (plain_names items)); cbn [snd world_of remote sheets].
    - etrans; [apply data_rows_plan_sublist|]. by rewrite data_rows_setup.
    - by rewrite data_rows_setup. }
  split; [exact Hsub|]. split.
  - intros discordId. by apply sublist_total_occurrences.
  - by apply sublist_role_consistent.
Qed.

Lemma batchDeleteRows_only_removes_witness :
  role_consistent (sheets (remote (snd (batchDeleteRows three_deletions five_rows_world)))).
Proof.
  apply (batchDeleteRows_only_removes three_deletions five_rows_world).
  vm_compute. repeat constructor.
Defined.
